(** * cnnClassifier.utils.common: file helpers, embedded and verified

    A shallow embedding of [src/cnnClassifier/utils/common.py].  Every helper
    of the module is a [try]/[except] wrapper around one call into the
    operating system or into a format library.  The embedding keeps that
    shape:

    - the file system and the logger form the state of a small
      state-and-exception monad [M];
    - the interpreter and library routines the helpers call
      ([open], [os.makedirs], [os.path.getsize], [round], [base64], [json])
      are written out after CPython 3.11, with the recursion limit of the
      interpreter where they recurse; routines whose behaviour cannot be
      written down here ([yaml.safe_load], [joblib], parts of [box], the
      decimal form of floats) are variables of the section that uses them;
    - each helper is then a line-by-line transcription of its Python body,
      and of the check [@ensure_annotations] wraps around it where the
      check can fail.

    Conventions.  A path is the list of its components below the root
    (proper names: no empty component, no [.] or [..], no NUL character).
    Access rights, the length of names and the space on the device are not
    modelled: of the errors of the operating system, the calls raise those
    that follow from the files and directories there are.  Paths, messages
    and the result of [get_size] are [string]s; the text handled as data
    (documents, base64 text, keys) is a [pystr], a list of code points. *)

From Stdlib Require Import ZArith List String Ascii Lia.
From Stdlib Require Import Strings.Byte.
From Stdlib Require Import Floats.PrimFloat.
From Stdlib Require Floats.FloatOps Floats.SpecFloat Floats.FloatAxioms.
From stdpp Require Import gmap strings pretty.

#[local] Set Warnings "-register-all".

(** ** Exceptions *)

(** The exception classes the module can raise or see. *)
Inductive exn_class :=
  | Exception
  | OSError | FileNotFoundError | FileExistsError
  | NotADirectoryError | IsADirectoryError
  | ValueError | TypeError
  | UnicodeDecodeError | UnicodeEncodeError
  | JSONDecodeError | BinasciiError
  | YAMLError
  | BoxError | BoxValueError
  | RuntimeError | RecursionError
  | OtherError (name : string).

#[global] Instance exn_class_eq_dec : EqDecision exn_class.
Proof. solve_decision. Defined.

(** Direct base classes, as declared by Python and by the libraries. *)
Definition bases (c : exn_class) : list exn_class :=
  match c with
  | Exception => []
  | OSError | ValueError | TypeError | YAMLError | BoxError | RuntimeError
  | OtherError _ => [Exception]
  | FileNotFoundError | FileExistsError
  | NotADirectoryError | IsADirectoryError => [OSError]
  | UnicodeDecodeError | UnicodeEncodeError
  | JSONDecodeError | BinasciiError => [ValueError]
  | BoxValueError => [BoxError; ValueError]
  | RecursionError => [RuntimeError]
  end.

Fixpoint issubclass_upto (depth : nat) (c d : exn_class) : bool :=
  bool_decide (c = d) ||
  match depth with
  | O => false
  | S depth' => existsb (fun b => issubclass_upto depth' b d) (bases c)
  end.

(** The hierarchy above has height two. *)
Definition issubclass (c d : exn_class) : bool := issubclass_upto 2 c d.

Record exn := Exn { exn_type : exn_class; exn_str : string }.

(** What the interpreter raises when calls nest deeper than its recursion
    limit allows.  The message goes on with the place the limit was hit
    at, which is left out. *)
Definition recursion_error : exn :=
  Exn RecursionError "maximum recursion depth exceeded".

(** [isinstance(e, c)], the test an [except c] clause performs. *)
Definition isinstance (e : exn) (c : exn_class) : bool :=
  issubclass (exn_type e) c.

(** ** The world: a file system and a log *)

Definition path := list string.

Inductive node :=
  | File (content : list byte)
  | Dir.

Inductive log_level := DEBUG | INFO | WARNING | ERROR.

Record log_record := LogRecord { lr_level : log_level; lr_msg : string }.

Record world := World {
  w_fs : gmap path node;
  w_log : list log_record
}.

(** ** Computations that may raise *)

Inductive outcome (A : Type) :=
  | Return (a : A)
  | Raise (e : exn).
Arguments Return {A} a.
Arguments Raise {A} e.

Definition M (A : Type) : Type := world -> outcome A * world.

Definition ret {A} (a : A) : M A := fun w => (Return a, w).

Definition raise {A} (e : exn) : M A := fun w => (Raise e, w).

Definition bind {A B} (m : M A) (k : A -> M B) : M B :=
  fun w =>
    match m w with
    | (Return a, w') => k a w'
    | (Raise e, w') => (Raise e, w')
    end.

(** [try: m  except ...: handler e].  The handler decides per exception;
    a handler that does not match re-raises. *)
Definition try_except {A} (m : M A) (handler : exn -> M A) : M A :=
  fun w =>
    match m w with
    | (Return a, w') => (Return a, w')
    | (Raise e, w') => handler e w'
    end.

(** Lift a pure library result into [M]. *)
Definition lift {A} (r : outcome A) : M A :=
  match r with
  | Return a => ret a
  | Raise e => raise e
  end.

(** The helpers are written with stdpp's monad notation:
    [x ← m; k] runs [m], binds its result and continues with [k];
    [m;; k] discards the result. *)
#[global] Instance M_ret : MRet M := @ret.
#[global] Instance M_bind : MBind M := fun A B k m => bind m k.

(** ** Paths *)

(** [str(path)]. *)
Definition path_str (p : path) : string :=
  "/" +:+ String.concat "/" p.

(** The node a path names when it is looked up as a map key; the root is
    always a directory. *)
Definition node_at (fs : gmap path node) (p : path) : option node :=
  match p with
  | [] => Some Dir
  | _ => fs !! p
  end.

Inductive lookup_result :=
  | Found (n : node)
  | ENOENT
  | ENOTDIR.

(** Path resolution: walk down from [cur], which must be a directory before
    each further component is looked up. *)
Fixpoint walk (fs : gmap path node) (cur : path) (rest : list string)
  : lookup_result :=
  match rest with
  | [] =>
      match node_at fs cur with
      | Some n => Found n
      | None => ENOENT
      end
  | c :: rest' =>
      match node_at fs cur with
      | Some Dir => walk fs (cur ++ [c]) rest'
      | Some (File _) => ENOTDIR
      | None => ENOENT
      end
  end.

Definition resolve (fs : gmap path node) (p : path) : lookup_result :=
  walk fs [] p.

(** [os.path.exists] and [os.path.isdir]: both answer [False] on any error. *)
Definition path_exists (fs : gmap path node) (p : path) : bool :=
  match resolve fs p with
  | Found _ => true
  | _ => false
  end.

Definition isdir (fs : gmap path node) (p : path) : bool :=
  match resolve fs p with
  | Found Dir => true
  | _ => false
  end.

(** The directory a path lives in. *)
Definition dirname (p : path) : path := removelast p.

(** ** Operating-system calls *)

Definition os_error (c : exn_class) (errno : string) (p : path) : exn :=
  Exn c (errno +:+ ": '" +:+ path_str p +:+ "'").

Definition enoent (p : path) : exn :=
  os_error FileNotFoundError "[Errno 2] No such file or directory" p.
Definition enotdir (p : path) : exn :=
  os_error NotADirectoryError "[Errno 20] Not a directory" p.
Definition eisdir (p : path) : exn :=
  os_error IsADirectoryError "[Errno 21] Is a directory" p.
Definition eexist (p : path) : exn :=
  os_error FileExistsError "[Errno 17] File exists" p.

(** [open(p)] / [open(p, "rb")] followed by [read()]: the bytes of the file. *)
Definition read_file (p : path) : M (list byte) :=
  fun w =>
    match resolve (w_fs w) p with
    | Found (File b) => (Return b, w)
    | Found Dir => (Raise (eisdir p), w)
    | ENOENT => (Raise (enoent p), w)
    | ENOTDIR => (Raise (enotdir p), w)
    end.

(** [open(p, "w")] / [open(p, "wb")]: the file is created or truncated. *)
Definition open_write (p : path) : M unit :=
  fun w =>
    match resolve (w_fs w) p with
    | Found Dir => (Raise (eisdir p), w)
    | ENOTDIR => (Raise (enotdir p), w)
    | Found (File _) =>
        (Return tt, World (<[p := File []]> (w_fs w)) (w_log w))
    | ENOENT =>
        if isdir (w_fs w) (dirname p)
        then (Return tt, World (<[p := File []]> (w_fs w)) (w_log w))
        else (Raise (enoent p), w)
    end.

(** [f.write(b)] on a file opened for writing at [p]: appends. *)
Definition append_file (p : path) (b : list byte) : M unit :=
  fun w =>
    match w_fs w !! p with
    | Some (File old) =>
        (Return tt, World (<[p := File (old ++ b)]> (w_fs w)) (w_log w))
    | _ => (Raise (enoent p), w)
    end.

(** Whether [open(p, "w")] succeeds. *)
Definition writable (fs : gmap path node) (p : path) : bool :=
  match resolve fs p with
  | Found (File _) => true
  | ENOENT => isdir fs (dirname p)
  | _ => false
  end.

(** [os.stat(p).st_size].  The size reported for a directory depends on the
    file system and is left to a parameter. *)
Definition getsize (dir_size : Z) (p : path) : M Z :=
  fun w =>
    match resolve (w_fs w) p with
    | Found (File b) => (Return (Z.of_nat (length b)), w)
    | Found Dir => (Return dir_size, w)
    | ENOENT => (Raise (enoent p), w)
    | ENOTDIR => (Raise (enotdir p), w)
    end.

(** [os.mkdir(p)]. *)
Definition mkdir (p : path) : M unit :=
  fun w =>
    match resolve (w_fs w) p with
    | Found _ => (Raise (eexist p), w)
    | ENOTDIR => (Raise (enotdir p), w)
    | ENOENT =>
        if isdir (w_fs w) (dirname p)
        then (Return tt, World (<[p := Dir]> (w_fs w)) (w_log w))
        else (Raise (enoent p), w)
    end.

(** [logger.info(msg)]. *)
Definition logger_info (msg : string) : M unit :=
  fun w => (Return tt, World (w_fs w) (w_log w ++ [LogRecord INFO msg])).

(** ** Numbers: true division and [round] *)

Section Float.
Local Open Scope Z_scope.

(** [m / 2^k] rounded to an integer, ties to even ([k >= 0]). *)
Definition round_half_even (m k : Z) : Z :=
  let q := m / 2 ^ k in
  let r := m mod 2 ^ k in
  if 2 * r <? 2 ^ k then q
  else if 2 ^ k <? 2 * r then q + 1
  else if Z.even q then q else q + 1.

(** A non-negative binary64 value [fl_m * 2^fl_e]. *)
Record dyadic := Dyadic { fl_m : Z; fl_e : Z }.

(** [n / 2^k] for integers [0 <= n], [0 <= k]: Python's [/] on [int]
    returns the binary64 number nearest to the exact quotient.  With at
    most 53 significant bits the quotient is exact. *)
Definition true_div_pow2 (n k : Z) : dyadic :=
  let bits := if n =? 0 then 0 else Z.log2 n + 1 in
  if bits <=? 53 then Dyadic n (- k)
  else Dyadic (round_half_even n (bits - 53)) (bits - 53 - k).

(** [round(x)] with one argument: the nearest integer, ties to even. *)
Definition py_round (x : dyadic) : Z :=
  if 0 <=? fl_e x then fl_m x * 2 ^ fl_e x
  else round_half_even (fl_m x) (- fl_e x).

End Float.


(** ** Text and bytes *)

(** A Python [str]: its code points. *)
Definition pystr := list Z.

Definition of_string (s : string) : pystr :=
  map (fun a => Z.of_N (N_of_ascii a)) (list_ascii_of_string s).

Definition byte_val (b : byte) : Z := Z.of_N (Byte.to_N b).

(** The byte with value [z mod 256] (a store into an [unsigned char]). *)
Definition byte_of_Z (z : Z) : byte :=
  default x00 (Byte.of_N (Z.to_N (z mod 256))).

Section Codecs.
Local Open Scope Z_scope.

Definition is_cont (b : Z) : bool := (0x80 <=? b) && (b <=? 0xBF).

(** [bytes.decode("utf-8")], strict: shortest forms only, no surrogates,
    nothing above U+10FFFF.  Reading a file opened in text mode decodes the
    same way (UTF-8 locale, no newline translation on POSIX apart from the
    universal-newline reading of carriage returns, which is left out). *)
Fixpoint utf8_decode_vals (bs : list Z) : option pystr :=
  match bs with
  | [] => Some []
  | b0 :: r0 =>
      if b0 <? 0x80 then cons b0 <$> utf8_decode_vals r0
      else
        match r0 with
        | [] => None
        | b1 :: r1 =>
            if (0xC2 <=? b0) && (b0 <=? 0xDF) then
              if is_cont b1
              then cons (Z.lor (Z.shiftl (Z.land b0 0x1F) 6) (Z.land b1 0x3F))
                     <$> utf8_decode_vals r1
              else None
            else
              match r1 with
              | [] => None
              | b2 :: r2 =>
                  if (0xE0 <=? b0) && (b0 <=? 0xEF) then
                    if is_cont b1 && is_cont b2
                       && (negb (b0 =? 0xE0) || (0xA0 <=? b1))
                       && (negb (b0 =? 0xED) || (b1 <=? 0x9F))
                    then cons (Z.lor (Z.shiftl (Z.land b0 0x0F) 12)
                                 (Z.lor (Z.shiftl (Z.land b1 0x3F) 6)
                                    (Z.land b2 0x3F)))
                           <$> utf8_decode_vals r2
                    else None
                  else
                    match r2 with
                    | [] => None
                    | b3 :: r3 =>
                        if (0xF0 <=? b0) && (b0 <=? 0xF4)
                           && is_cont b1 && is_cont b2 && is_cont b3
                           && (negb (b0 =? 0xF0) || (0x90 <=? b1))
                           && (negb (b0 =? 0xF4) || (b1 <=? 0x8F))
                        then cons (Z.lor (Z.shiftl (Z.land b0 0x07) 18)
                                     (Z.lor (Z.shiftl (Z.land b1 0x3F) 12)
                                        (Z.lor (Z.shiftl (Z.land b2 0x3F) 6)
                                           (Z.land b3 0x3F))))
                               <$> utf8_decode_vals r3
                        else None
                    end
              end
        end
  end.

Definition utf8_decode (bs : list byte) : outcome pystr :=
  match utf8_decode_vals (map byte_val bs) with
  | Some s => Return s
  | None =>
      Raise (Exn UnicodeDecodeError "'utf-8' codec can't decode bytes")
  end.

(** [str.encode("utf-8")], strict: surrogates are refused. *)
Definition utf8_encode_char (c : Z) : option (list byte) :=
  if c <? 0 then None
  else if c <? 0x80 then Some [byte_of_Z c]
  else if c <? 0x800 then
    Some [byte_of_Z (Z.lor 0xC0 (Z.shiftr c 6));
          byte_of_Z (Z.lor 0x80 (Z.land c 0x3F))]
  else if c <? 0x10000 then
    if (0xD800 <=? c) && (c <=? 0xDFFF) then None
    else
      Some [byte_of_Z (Z.lor 0xE0 (Z.shiftr c 12));
            byte_of_Z (Z.lor 0x80 (Z.land (Z.shiftr c 6) 0x3F));
            byte_of_Z (Z.lor 0x80 (Z.land c 0x3F))]
  else if c <? 0x110000 then
    Some [byte_of_Z (Z.lor 0xF0 (Z.shiftr c 18));
          byte_of_Z (Z.lor 0x80 (Z.land (Z.shiftr c 12) 0x3F));
          byte_of_Z (Z.lor 0x80 (Z.land (Z.shiftr c 6) 0x3F));
          byte_of_Z (Z.lor 0x80 (Z.land c 0x3F))]
  else None.

Fixpoint utf8_encode_chars (s : pystr) : option (list byte) :=
  match s with
  | [] => Some []
  | c :: s' =>
      match utf8_encode_char c, utf8_encode_chars s' with
      | Some b, Some bs => Some (b ++ bs)
      | _, _ => None
      end
  end.

Definition utf8_encode (s : pystr) : outcome (list byte) :=
  match utf8_encode_chars s with
  | Some b => Return b
  | None =>
      Raise (Exn UnicodeEncodeError "'utf-8' codec can't encode characters")
  end.

(** [str.encode("ascii")]. *)
Definition ascii_encode (s : pystr) : outcome (list byte) :=
  if forallb (fun c => (0 <=? c) && (c <? 0x80)) s
  then Return (map byte_of_Z s)
  else Raise (Exn UnicodeEncodeError "'ascii' codec can't encode characters").

(** *** [binascii], after [Modules/binascii.c] *)

Definition BASE64_PAD : Z := 61.

Definition table_b2a_base64 : list Z :=
  of_string
    "ABCDEFGHIJKLMNOPQRSTUVWXYZabcdefghijklmnopqrstuvwxyz0123456789+/".

(** The reverse table: the value of an alphabet character, [0] for the
    pad and [(unsigned char) -1] for everything else. *)
Definition table_a2b_base64 (c : Z) : Z :=
  if (65 <=? c) && (c <=? 90) then c - 65
  else if (97 <=? c) && (c <=? 122) then c - 97 + 26
  else if (48 <=? c) && (c <=? 57) then c - 48 + 52
  else if c =? 43 then 62
  else if c =? 47 then 63
  else if c =? BASE64_PAD then 0
  else 255.

Definition b2a_char (this_ch : Z) : byte :=
  byte_of_Z (nth (Z.to_nat this_ch) table_b2a_base64 0).

(** [while (leftbits >= 6)]: emit the 6-bit groups that are ready.  Returns
    the characters and the remaining [leftbits]. *)
Fixpoint b2a_groups (fuel : nat) (leftchar leftbits : Z) : list byte * Z :=
  match fuel with
  | O => ([], leftbits)
  | S fuel' =>
      if 6 <=? leftbits then
        let this_ch := Z.land (Z.shiftr leftchar (leftbits - 6)) 0x3f in
        let '(cs, lb) := b2a_groups fuel' leftchar (leftbits - 6) in
        (b2a_char this_ch :: cs, lb)
      else ([], leftbits)
  end.

(** The loop of [b2a_base64] and its tail; [leftchar] is an
    [unsigned int]. *)
Fixpoint b2a_loop (bin_data : list byte) (leftchar leftbits : Z) : list byte :=
  match bin_data with
  | [] =>
      if leftbits =? 2 then
        [b2a_char (Z.shiftl (Z.land leftchar 3) 4);
         byte_of_Z BASE64_PAD; byte_of_Z BASE64_PAD]
      else if leftbits =? 4 then
        [b2a_char (Z.shiftl (Z.land leftchar 0xf) 2); byte_of_Z BASE64_PAD]
      else []
  | b :: rest =>
      let leftchar := Z.lor (Z.shiftl leftchar 8) (byte_val b) mod 2 ^ 32 in
      let leftbits := leftbits + 8 in
      let '(cs, leftbits) := b2a_groups (Z.to_nat leftbits) leftchar leftbits in
      cs ++ b2a_loop rest leftchar leftbits
  end.

(** [binascii.b2a_base64(data, newline=False)]. *)
Definition b2a_base64 (data : list byte) : list byte := b2a_loop data 0 0.

Definition binascii_error (msg : string) : exn := Exn BinasciiError msg.

Definition emit_byte (b : Z) (r : outcome (list byte)) : outcome (list byte) :=
  match r with
  | Return l => Return (byte_of_Z b :: l)
  | Raise e => Raise e
  end.

(** The loop of [a2b_base64] with [strict_mode] off.  [nout] counts the
    bytes produced so far (it only shows in an error message). *)
Fixpoint a2b_loop (ascii_data : list byte) (quad_pos leftchar pads nout : Z)
  : outcome (list byte) :=
  match ascii_data with
  | [] =>
      if quad_pos =? 0 then Return []
      else if quad_pos =? 1 then
        Raise (binascii_error
          ("Invalid base64-encoded string: number of data characters ("
           +:+ pretty (nout / 3 * 4 + 1)
           +:+ ") cannot be 1 more than a multiple of 4"))
      else Raise (binascii_error "Incorrect padding")
  | c :: rest =>
      let this_ch := byte_val c in
      if this_ch =? BASE64_PAD then
        if (2 <=? quad_pos) && (4 <=? quad_pos + (pads + 1)) then Return []
        else
          a2b_loop rest quad_pos leftchar
            (if 2 <=? quad_pos then pads + 1 else pads) nout
      else
        let this_ch := table_a2b_base64 this_ch in
        if 64 <=? this_ch then a2b_loop rest quad_pos leftchar pads nout
        else if quad_pos =? 0 then a2b_loop rest 1 this_ch 0 nout
        else if quad_pos =? 1 then
          emit_byte (Z.lor (Z.shiftl leftchar 2) (Z.shiftr this_ch 4))
            (a2b_loop rest 2 (Z.land this_ch 0x0f) 0 (nout + 1))
        else if quad_pos =? 2 then
          emit_byte (Z.lor (Z.shiftl leftchar 4) (Z.shiftr this_ch 2))
            (a2b_loop rest 3 (Z.land this_ch 0x03) 0 (nout + 1))
        else
          emit_byte (Z.lor (Z.shiftl leftchar 6) this_ch)
            (a2b_loop rest 0 0 0 (nout + 1))
  end.

(** [binascii.a2b_base64(data, strict_mode=False)]. *)
Definition a2b_base64 (data : list byte) : outcome (list byte) :=
  a2b_loop data 0 0 0 0.

(** *** [base64] *)

Definition b64encode (s : list byte) : list byte := b2a_base64 s.

Definition bytes_from_decode_data (s : pystr) : outcome (list byte) :=
  match ascii_encode s with
  | Return b => Return b
  | Raise e =>
      if isinstance e UnicodeEncodeError
      then Raise (Exn ValueError
                    "string argument should contain only ASCII characters")
      else Raise e
  end.

Definition b64decode (s : pystr) : outcome (list byte) :=
  match bytes_from_decode_data s with
  | Return b => a2b_base64 b
  | Raise e => Raise e
  end.

End Codecs.

(** ** Python values *)

(** The values documents are made of.  Dictionaries keep their items in
    insertion order. *)
Inductive pyval :=
  | PyNone
  | PyBool (b : bool)
  | PyInt (n : Z)
  | PyFloat (x : float)
  | PyStr (s : pystr)
  | PyList (items : list pyval)
  | PyTuple (items : list pyval)
  | PyDict (items : list (pyval * pyval)).

(** [bool(v)], the test behind [if not content]. *)
Definition truthy (v : pyval) : bool :=
  match v with
  | PyNone => false
  | PyBool b => b
  | PyInt n => negb (n =? 0)%Z
  | PyFloat x => negb (PrimFloat.eqb x PrimFloat.zero)
  | PyStr s => negb (bool_decide (s = []))
  | PyList items | PyTuple items => negb (bool_decide (items = []))
  | PyDict items => negb (bool_decide (items = []))
  end.

(** [x == n] for a float and an integer: exact comparison. *)
Definition float_eq_Z (x : float) (n : Z) : bool :=
  match FloatOps.Prim2SF x with
  | SpecFloat.S754_zero _ => (n =? 0)%Z
  | SpecFloat.S754_finite sign m e =>
      let v := if sign then Zneg m else Zpos m in
      if (0 <=? e)%Z then (n =? v * 2 ^ e)%Z
      else ((v mod 2 ^ (- e) =? 0) && (n =? v / 2 ^ (- e)))%Z
  | _ => false
  end.

(** Whether two floats are the same float; [0.0] and [-0.0] are equal,
    and not the same. *)
Definition same_float (x y : float) : bool :=
  match FloatOps.Prim2SF x, FloatOps.Prim2SF y with
  | SpecFloat.S754_zero s, SpecFloat.S754_zero t => Bool.eqb s t
  | SpecFloat.S754_infinity s, SpecFloat.S754_infinity t => Bool.eqb s t
  | SpecFloat.S754_nan, SpecFloat.S754_nan => true
  | SpecFloat.S754_finite s m e, SpecFloat.S754_finite t n f =>
      Bool.eqb s t && (m =? n)%positive && (e =? f)%Z
  | _, _ => false
  end.

(** [a == b]. *)
Fixpoint py_eq (a b : pyval) {struct a} : bool :=
  match a, b with
  | PyNone, PyNone => true
  | PyBool x, PyBool y => bool_decide (x = y)
  | PyBool x, PyInt n | PyInt n, PyBool x => (n =? Z.b2z x)%Z
  | PyInt m, PyInt n => (m =? n)%Z
  | PyFloat x, PyFloat y => PrimFloat.eqb x y
  | PyFloat x, PyInt n | PyInt n, PyFloat x => float_eq_Z x n
  | PyFloat x, PyBool y | PyBool y, PyFloat x => float_eq_Z x (Z.b2z y)
  | PyStr s, PyStr t => bool_decide (s = t)
  | PyList xs, PyList ys | PyTuple xs, PyTuple ys =>
      (fix all2 (xs ys : list pyval) : bool :=
         match xs, ys with
         | [], [] => true
         | x :: xs', y :: ys' => py_eq x y && all2 xs' ys'
         | _, _ => false
         end) xs ys
  | PyDict d, PyDict e =>
      bool_decide (length d = length e) &&
      (fix each (d : list (pyval * pyval)) : bool :=
         match d with
         | [] => true
         | (k, v) :: d' =>
             match
               (fix find (e : list (pyval * pyval)) : option pyval :=
                  match e with
                  | [] => None
                  | (k', v') :: e' => if py_eq k k' then Some v' else find e'
                  end) e
             with
             | Some v' => py_eq v v'
             | None => false
             end && each d'
         end) d
  | _, _ => false
  end.

(** [d[k]] / [d.get(k)]: the value stored under a key equal to [k]. *)
Fixpoint dict_get (d : list (pyval * pyval)) (k : pyval) : option pyval :=
  match d with
  | [] => None
  | (k', v') :: d' => if py_eq k k' then Some v' else dict_get d' k
  end.

(** [d[k] = v]: an existing key keeps its place, a new key goes last. *)
Fixpoint dict_set (d : list (pyval * pyval)) (k v : pyval)
  : list (pyval * pyval) :=
  match d with
  | [] => [(k, v)]
  | (k', v') :: d' =>
      if py_eq k k' then (k', v) :: d' else (k', v') :: dict_set d' k v
  end.

(** [dict(pairs)]. *)
Definition dict_of_pairs (pairs : list (pyval * pyval))
  : list (pyval * pyval) :=
  fold_left (fun d kv => dict_set d kv.1 kv.2) pairs [].

(** ** [ConfigBox] *)

(** A [ConfigBox] holds the items of the mapping it was made from.  Nested
    mappings and lists become boxes themselves on construction; a box
    compares equal to the mapping it wraps and answers the same lookups, so
    nested values are kept as they are. *)
Record ConfigBox := Box { box_items : list (pyval * pyval) }.

(** What attribute access on a box can give. *)
Inductive attr_result :=
  | AttrValue (v : pyval)
  | AttrOfClass
  | AttrMissing.

(** The public methods [dict] defines, inherited by every box. *)
Definition dict_methods : list pystr :=
  map of_string
    ["clear"; "copy"; "fromkeys"; "get"; "items"; "keys"; "pop"; "popitem";
     "setdefault"; "update"; "values"]%string.

(** ** A library for the examples *)

(** Stand-ins for the routines the section below leaves open, enough to run
    the helpers on the examples at the end of the file.  The YAML reader
    knows the handful of documents the examples use and reports every
    other one as malformed. *)
Definition sample_yaml_load (data : list byte) : outcome pyval :=
  let text := map byte_val data in
  if bool_decide (text = []) || bool_decide (text = of_string "null")
  then Return PyNone
  else if bool_decide (text = of_string "0") then Return (PyInt 0)
  else if bool_decide (text = of_string "hello")
  then Return (PyStr (of_string "hello"))
  else if bool_decide (text = of_string "{}") then Return (PyDict [])
  else if bool_decide (text = of_string "epochs: 1")
  then Return (PyDict [(PyStr (of_string "epochs"), PyInt 1)])
  else Raise (Exn YAMLError "could not parse the document").

Definition sample_box_from_iterable (items : list pyval)
  : outcome ConfigBox :=
  Raise (Exn TypeError "cannot unpack non-iterable object").

Definition sample_box_class_attr (name : pystr) : bool :=
  bool_decide (name ∈ map of_string ["to_dict"; "to_json"; "to_yaml"]%string).

Definition sample_box_attr_fallback (items : list (pyval * pyval))
    (name : pystr) : attr_result :=
  AttrMissing.

Definition sample_float_repr (x : float) : pystr := of_string "0.0".
Definition sample_float_of_literal (text : pystr) : float := PrimFloat.zero.

Definition sample_joblib_dumps (value : pyval) : outcome (list byte) :=
  Return [x80; x04].
Definition sample_joblib_loads (data : list byte) : outcome pyval :=
  Return PyNone.

Definition sample_dir_size : Z := 4096.

(** A depth for the examples, taken for each of the three depths: what a
    call from deep in a program may be left with. *)
Definition sample_depth : nat := 50.

(** Worlds and arguments of the examples. *)
Definition empty_world : world := World ∅ [].

Definition world_with (p : path) (content : list byte) : world :=
  World {[ p := File content ]} [].

Definition bytes_of (s : string) : list byte := list_byte_of_string s.

Definition sample_data : list (pyval * pyval) :=
  [(PyStr (of_string "a"), PyInt 1);
   (PyStr (of_string "b"), PyList [PyInt 1; PyInt 2; PyInt 3])].

(** The same mapping with a float and an infinity. *)
Definition sample_float_data : list (pyval * pyval) :=
  sample_data ++
  [(PyStr (of_string "rate"), PyFloat PrimFloat.zero);
   (PyStr (of_string "bound"), PyFloat PrimFloat.infinity)].

(** Brackets nested deeper than the sample depth, as text and as a
    value. *)
Definition deep_text : list byte := repeat "["%byte 3000.

Fixpoint nested_lists (n : nat) : pyval :=
  match n with
  | O => PyList []
  | S n' => PyList [nested_lists n']
  end.

Definition sample_deep_data : list (pyval * pyval) :=
  [(PyStr (of_string "a"), nested_lists 60)].

Definition sample_dirs : list path :=
  [["artifacts"; "data"]; ["artifacts"; "model"]]%string.

Definition world_with_dir (p : path) : world := World {[ p := Dir ]} [].

(** A mapping with keys and values that JSON text gives back changed, and
    one with a key that cannot be written. *)
Definition sample_mixed_data : list (pyval * pyval) :=
  [(PyInt 1, PyTuple [PyInt 2; PyInt 3]); (PyBool true, PyNone)].

Definition sample_bad_data : list (pyval * pyval) :=
  [(PyTuple [], PyInt 1)].

(** * The helpers *)

Section Common.

(** What the embedding leaves open, as variables of the section:

    - [dir_size]: the size [os.stat] reports for a directory;
    - [yaml_safe_load]: [yaml.safe_load] on the bytes of a file: the parsed
      document, [None] for a document without content, [YAMLError] for a
      malformed one;
    - [box_from_iterable]: what [Box.__init__] makes of an iterable that is
      not a mapping;
    - [box_class_attr]: the names the [ConfigBox] class defines beyond the
      methods of [dict];
    - [box_attr_fallback]: what attribute access falls back to when no key
      has the name (safe-attribute and lower-case matching);
    - [float_repr], [float_of_literal]: [float.__repr__] on a finite float
      and [float(text)] on a matched number;
    - [joblib_dumps], [joblib_loads]: the bytes [joblib] pickles an object
      to, and the object a file's bytes unpickle to;
    - [encoder_depth], [decoder_depth], [makedirs_depth]: how many lists
      and dictionaries within one another [json.dump] and [json.load] can
      handle, and how many times [os.makedirs] can call itself, before
      the interpreter's recursion limit stops them.  The numbers depend
      on the limit in force and on how deep the stack is where the helper
      is called from. *)
Variable dir_size : Z.
Variable yaml_safe_load : list byte -> outcome pyval.
Variable box_from_iterable : list pyval -> outcome ConfigBox.
Variable box_class_attr : pystr -> bool.
Variable box_attr_fallback : list (pyval * pyval) -> pystr -> attr_result.
Variable float_repr : float -> pystr.
Variable float_of_literal : pystr -> float.
Variable joblib_dumps : pyval -> outcome (list byte).
Variable joblib_loads : list byte -> outcome pyval.
Variable encoder_depth : nat.
Variable decoder_depth : nat.
Variable makedirs_depth : nat.

(** ** [get_size] *)


(** [[
    try:
        size_in_kb = round(os.path.getsize(path) / 1024)
        return f"~ {size_in_kb} KB"
    except FileNotFoundError:
        raise FileNotFoundError(f"File not found: {path}")
    ]] *)
Definition get_size (p : path) : M string :=
  try_except
    (size ← getsize dir_size p;
     let size_in_kb := py_round (true_div_pow2 size 10) in
     ret ("~ " +:+ pretty size_in_kb +:+ " KB"))
    (fun e =>
       if isinstance e FileNotFoundError
       then raise (Exn FileNotFoundError ("File not found: " +:+ path_str p))
       else raise e).

(** ** [decodeImage] and [encodeImageIntoBase64] *)

(** [[
    try:
        imgdata = base64.b64decode(imgstring)
        with open(fileName, "wb") as f:
            f.write(imgdata)
        logger.info(f"Image decoded and saved at: {fileName}")
    except Exception as e:
        raise ValueError(f"Error decoding image: {e}")
    ]] *)
Definition decodeImage (imgstring : pystr) (fileName : path) : M unit :=
  try_except
    (imgdata ← lift (b64decode imgstring);
     open_write fileName;;
     append_file fileName imgdata;;
     logger_info ("Image decoded and saved at: " +:+ path_str fileName))
    (fun e =>
       if isinstance e Exception
       then raise (Exn ValueError ("Error decoding image: " +:+ exn_str e))
       else raise e).

(** [[
    try:
        with open(croppedImagePath, "rb") as f:
            return base64.b64encode(f.read()).decode("utf-8")
    except FileNotFoundError:
        raise FileNotFoundError(f"Image file not found: {croppedImagePath}")
    except Exception as e:
        raise ValueError(f"Error encoding image: {e}")
    ]] *)
Definition encodeImageIntoBase64 (croppedImagePath : path) : M pystr :=
  try_except
    (data ← read_file croppedImagePath;
     lift (utf8_decode (b64encode data)))
    (fun e =>
       if isinstance e FileNotFoundError
       then raise (Exn FileNotFoundError
                     ("Image file not found: " +:+ path_str croppedImagePath))
       else if isinstance e Exception
       then raise (Exn ValueError ("Error encoding image: " +:+ exn_str e))
       else raise e).

(** ** [os.makedirs] and [create_directories] *)

Definition get_fs : M (gmap path node) := fun w => (Return (w_fs w), w).

(** [os.makedirs(name, exist_ok=exist_ok)].  The recursion of the Python
    function is on [head], the path without its last component, so the
    components are taken last first.  [depth] is the number of calls
    within one another that the recursion limit still allows: the call
    that would go beyond raises a [RecursionError], which none of the
    [except] clauses on its way out catches.
    [[
    head, tail = path.split(name)
    if head and tail and not path.exists(head):
        try:
            makedirs(head, exist_ok=exist_ok)
        except FileExistsError:
            pass
    try:
        mkdir(name, mode)
    except OSError:
        if not exist_ok or not path.isdir(name):
            raise
    ]] *)
Fixpoint makedirs_rev (depth : nat) (rname : list string) (exist_ok : bool)
    {struct rname} : M unit :=
  match rname with
  | [] => ret tt
  | tail :: rhead =>
      fs ← get_fs;
      if negb (path_exists fs (rev rhead))
      then try_except
             match depth with
             | O => raise recursion_error
             | S depth' => makedirs_rev depth' rhead exist_ok
             end
             (fun e => if isinstance e FileExistsError then ret tt else raise e)
      else ret tt
  end;;
  try_except (mkdir (rev rname))
    (fun e =>
       if isinstance e OSError then
         fs ← get_fs;
         if negb exist_ok || negb (isdir fs (rev rname)) then raise e
         else ret tt
       else raise e).

Definition makedirs (name : path) (exist_ok : bool) : M unit :=
  makedirs_rev makedirs_depth (rev name) exist_ok.

(** [[
    for path in path_to_directories:
        try:
            os.makedirs(path, exist_ok=True)
            if verbose:
                logger.info(f"Created directory at: {path}")
        except OSError as e:
            raise OSError(f"Error creating directory {path}: {e}")
    ]] *)
Fixpoint create_directories (path_to_directories : list path) (verbose : bool)
  : M unit :=
  match path_to_directories with
  | [] => ret tt
  | p :: rest =>
      try_except
        (makedirs p true;;
         if verbose then logger_info ("Created directory at: " +:+ path_str p)
         else ret tt)
        (fun e =>
           if isinstance e OSError
           then raise (Exn OSError ("Error creating directory " +:+ path_str p
                                    +:+ ": " +:+ exn_str e))
           else raise e);;
      create_directories rest verbose
  end.

(** [ConfigBox(content)]: [Box.__init__] with one positional argument. *)
Definition ConfigBox_init (content : pyval) : outcome ConfigBox :=
  match content with
  | PyStr _ => Raise (Exn BoxValueError "Cannot extrapolate Box from string")
  | PyDict items => Return (Box items)
  | PyList items | PyTuple items => box_from_iterable items
  | _ => Raise (Exn BoxValueError "First argument must be mapping or iterable")
  end.

(** [box[key]]. *)
Definition box_getitem (b : ConfigBox) (key : pyval) : option pyval :=
  dict_get (box_items b) key.

(** [box.item]: attributes of the class are found first; [__getattr__]
    then looks the name up as a key. *)
Definition box_getattr (b : ConfigBox) (item : pystr) : attr_result :=
  if bool_decide (item ∈ dict_methods) || box_class_attr item
  then AttrOfClass
  else
    match box_getitem b (PyStr item) with
    | Some v => AttrValue v
    | None => box_attr_fallback (box_items b) item
    end.

(** ** [read_yaml] *)

(** [[
    try:
        with open(path_to_yaml) as yaml_file:
            content = yaml.safe_load(yaml_file)
            if not content:
                raise ValueError(f"YAML file at {path_to_yaml} is empty")
            logger.info(f"YAML file: {path_to_yaml} loaded successfully")
            return ConfigBox(content)
    except yaml.YAMLError as e:
        raise ValueError(f"Error parsing YAML file {path_to_yaml}: {e}")
    except FileNotFoundError:
        raise FileNotFoundError(f"YAML file not found: {path_to_yaml}")
    except Exception as e:
        raise e
    ]] *)
Definition read_yaml (path_to_yaml : path) : M ConfigBox :=
  try_except
    (yaml_file ← read_file path_to_yaml;
     content ← lift (yaml_safe_load yaml_file);
     if negb (truthy content)
     then raise (Exn ValueError
                   ("YAML file at " +:+ path_str path_to_yaml +:+ " is empty"))
     else
       logger_info
         ("YAML file: " +:+ path_str path_to_yaml +:+ " loaded successfully");;
       lift (ConfigBox_init content))
    (fun e =>
       if isinstance e YAMLError
       then raise (Exn ValueError
                     ("Error parsing YAML file " +:+ path_str path_to_yaml
                      +:+ ": " +:+ exn_str e))
       else if isinstance e FileNotFoundError
       then raise (Exn FileNotFoundError
                     ("YAML file not found: " +:+ path_str path_to_yaml))
       else if isinstance e Exception
       then raise e
       else raise e).

(** How many lists, tuples and dictionaries lie within one another in a
    value, the value itself included. *)
Fixpoint nesting_depth (v : pyval) : nat :=
  match v with
  | PyList items | PyTuple items =>
      S (fold_right (fun v n => Nat.max (nesting_depth v) n) 0%nat items)
  | PyDict d =>
      S (fold_right (fun kv n => Nat.max (nesting_depth kv.2) n) 0%nat d)
  | _ => 0%nat
  end.

(** ** [json], after [Lib/json] *)

Section Json.
Local Open Scope Z_scope.

(** *** Encoder *)

Definition hex_digit (d : Z) : Z :=
  nth (Z.to_nat d) (of_string "0123456789abcdef") 48.

(** ['{0:04x}'.format(n)] for [n < 0x10000]. *)
Definition hex4 (n : Z) : pystr :=
  [hex_digit (n / 4096 mod 16); hex_digit (n / 256 mod 16);
   hex_digit (n / 16 mod 16); hex_digit (n mod 16)].

(** [ESCAPE_DCT]: backslash, quote, the five short escapes and the other
    control characters. *)
Definition ESCAPE_DCT (c : Z) : option pystr :=
  if c =? 92 then Some [92; 92]
  else if c =? 34 then Some [92; 34]
  else if c =? 8 then Some [92; 98]
  else if c =? 12 then Some [92; 102]
  else if c =? 10 then Some [92; 110]
  else if c =? 13 then Some [92; 114]
  else if c =? 9 then Some [92; 116]
  else if (0 <=? c) && (c <? 0x20) then Some ([92; 117] ++ hex4 c)
  else None.

(** The replacement [py_encode_basestring_ascii] makes for one character:
    [ESCAPE_ASCII] matches backslash, quote and everything outside
    [' '..'~']. *)
Definition escape_char (c : Z) : pystr :=
  if (c =? 92) || (c =? 34) || negb ((32 <=? c) && (c <=? 126)) then
    match ESCAPE_DCT c with
    | Some r => r
    | None =>
        if c <? 0x10000 then [92; 117] ++ hex4 c
        else
          let n := c - 0x10000 in
          let s1 := Z.lor 0xd800 (Z.land (Z.shiftr n 10) 0x3ff) in
          let s2 := Z.lor 0xdc00 (Z.land n 0x3ff) in
          [92; 117] ++ hex4 s1 ++ [92; 117] ++ hex4 s2
    end
  else [c].

Definition py_encode_basestring_ascii (s : pystr) : pystr :=
  [34] ++ concat (map escape_char s) ++ [34].

(** [sys.get_int_max_str_digits()]. *)
Definition int_max_str_digits : nat := 4300.

Definition int_digits_error : exn :=
  Exn ValueError
    "Exceeds the limit (4300 digits) for integer string conversion".

(** [int.__repr__]. *)
Definition int_repr (n : Z) : outcome pystr :=
  if (int_max_str_digits <? length (of_string (pretty (Z.abs n))))%nat
  then Raise int_digits_error
  else Return (of_string (pretty n)).

Definition floatstr (o : float) : pystr :=
  if negb (PrimFloat.eqb o o) then of_string "NaN"
  else if PrimFloat.eqb o PrimFloat.infinity then of_string "Infinity"
  else if PrimFloat.eqb o PrimFloat.neg_infinity then of_string "-Infinity"
  else float_repr o.

(** What a generator has yielded, and the exception that ended it, if one
    did. *)
Definition chunks : Type := pystr * option exn.

Definition yield (s : pystr) : chunks := (s, None).
Definition throw (e : exn) : chunks := ([], Some e).
Definition then_chunks (a b : chunks) : chunks :=
  match a with
  | (s, None) => (s ++ b.1, b.2)
  | (s, Some e) => (s, Some e)
  end.
Infix ">>>" := then_chunks (at level 62, right associativity).

(** The text of a value that is written without recursion. *)
Definition atom_text (v : pyval) : option (outcome pystr) :=
  match v with
  | PyStr s => Some (Return (py_encode_basestring_ascii s))
  | PyNone => Some (Return (of_string "null"))
  | PyBool true => Some (Return (of_string "true"))
  | PyBool false => Some (Return (of_string "false"))
  | PyInt n => Some (int_repr n)
  | PyFloat x => Some (Return (floatstr x))
  | _ => None
  end.

(** The string a dictionary key is written as. *)
Definition encode_key (key : pyval) : outcome pystr :=
  match key with
  | PyStr s => Return s
  | PyFloat x => Return (floatstr x)
  | PyBool true => Return (of_string "true")
  | PyBool false => Return (of_string "false")
  | PyNone => Return (of_string "null")
  | PyInt n => int_repr n
  | PyTuple _ =>
      Raise (Exn TypeError
               "keys must be str, int, float, bool or None, not tuple")
  | PyList _ =>
      Raise (Exn TypeError
               "keys must be str, int, float, bool or None, not list")
  | PyDict _ =>
      Raise (Exn TypeError
               "keys must be str, int, float, bool or None, not dict")
  end.

(** ['\n' + _indent * level] with [indent=4]. *)
Definition newline_indent (level : nat) : pystr :=
  10 :: repeat 32 (4 * level)%nat.

(** [_iterencode(o, level)] of [_make_iterencode] with [indent=4],
    separators [','] and [': '], [ensure_ascii], no [sort_keys], no
    [skipkeys].  [_iterencode_list] and [_iterencode_dict] are the two
    inner loops.  Each list and each dictionary is written by a generator
    of its own, resumed through the generators of everything around it:
    at level [encoder_depth] the interpreter's recursion limit is reached,
    and the generator that is entered there raises a [RecursionError]
    after what was yielded before it. *)
Fixpoint iterencode (o : pyval) (level : nat) {struct o} : chunks :=
  match o with
  | PyList lst | PyTuple lst =>
      if (encoder_depth <=? level)%nat then throw recursion_error else
      match lst with
      | [] => yield (of_string "[]")
      | _ =>
          (fix each (lst : list pyval) (buf : pystr) : chunks :=
             match lst with
             | [] => yield []
             | value :: lst' =>
                 match atom_text value with
                 | Some (Return text) => yield (buf ++ text)
                 | Some (Raise e) => throw e
                 | None => yield buf >>> iterencode value (S level)
                 end >>> each lst' (44 :: newline_indent (S level))
             end) lst (91 :: newline_indent (S level))
          >>> yield (newline_indent level) >>> yield [93]
      end
  | PyDict dct =>
      if (encoder_depth <=? level)%nat then throw recursion_error else
      match dct with
      | [] => yield (of_string "{}")
      | _ =>
          yield [123] >>> yield (newline_indent (S level)) >>>
          (fix each (items : list (pyval * pyval)) (first : bool) : chunks :=
             match items with
             | [] => yield []
             | (key, value) :: items' =>
                 match encode_key key with
                 | Raise e => throw e
                 | Return key =>
                     (if first then yield []
                      else yield (44 :: newline_indent (S level))) >>>
                     yield (py_encode_basestring_ascii key) >>>
                     yield [58; 32] >>>
                     match atom_text value with
                     | Some (Return text) => yield text
                     | Some (Raise e) => throw e
                     | None => iterencode value (S level)
                     end >>> each items' false
                 end
             end) dct true
          >>> yield (newline_indent level) >>> yield [125]
      end
  | _ =>
      match atom_text o with
      | Some (Return text) => yield text
      | Some (Raise e) => throw e
      | None => yield []
      end
  end.

(** The two loops of [iterencode] as functions of their own:
    [_iterencode_list] after the opening bracket, [_iterencode_dict] after
    the opening brace. *)
Section Loops.
Variable level : nat.

Fixpoint iterencode_list_items (lst : list pyval) (buf : pystr) : chunks :=
  match lst with
  | [] => yield []
  | value :: lst' =>
      match atom_text value with
      | Some (Return text) => yield (buf ++ text)
      | Some (Raise e) => throw e
      | None => yield buf >>> iterencode value (S level)
      end >>> iterencode_list_items lst' (44 :: newline_indent (S level))
  end.

Fixpoint iterencode_dict_items (items : list (pyval * pyval)) (first : bool)
  : chunks :=
  match items with
  | [] => yield []
  | (key, value) :: items' =>
      match encode_key key with
      | Raise e => throw e
      | Return key =>
          (if first then yield []
           else yield (44 :: newline_indent (S level))) >>>
          yield (py_encode_basestring_ascii key) >>>
          yield [58; 32] >>>
          match atom_text value with
          | Some (Return text) => yield text
          | Some (Raise e) => throw e
          | None => iterencode value (S level)
          end >>> iterencode_dict_items items' false
      end
  end.

End Loops.

(** [json.dumps(obj, indent=4)] when the encoder finishes. *)
Definition json_dumps (obj : pyval) : outcome pystr :=
  match iterencode obj 0 with
  | (text, None) => Return text
  | (_, Some e) => Raise e
  end.

(** What [unlimited_iterencode] yields where the recursion limit is out of reach:
    the same generator without the check.  The two agree on every value
    nested within the limit, and differ by a [RecursionError] only. *)
Fixpoint unlimited_iterencode (o : pyval) (level : nat) {struct o} : chunks :=
  match o with
  | PyList lst | PyTuple lst =>
      match lst with
      | [] => yield (of_string "[]")
      | _ =>
          (fix each (lst : list pyval) (buf : pystr) : chunks :=
             match lst with
             | [] => yield []
             | value :: lst' =>
                 match atom_text value with
                 | Some (Return text) => yield (buf ++ text)
                 | Some (Raise e) => throw e
                 | None => yield buf >>> unlimited_iterencode value (S level)
                 end >>> each lst' (44 :: newline_indent (S level))
             end) lst (91 :: newline_indent (S level))
          >>> yield (newline_indent level) >>> yield [93]
      end
  | PyDict dct =>
      match dct with
      | [] => yield (of_string "{}")
      | _ =>
          yield [123] >>> yield (newline_indent (S level)) >>>
          (fix each (items : list (pyval * pyval)) (first : bool) : chunks :=
             match items with
             | [] => yield []
             | (key, value) :: items' =>
                 match encode_key key with
                 | Raise e => throw e
                 | Return key =>
                     (if first then yield []
                      else yield (44 :: newline_indent (S level))) >>>
                     yield (py_encode_basestring_ascii key) >>>
                     yield [58; 32] >>>
                     match atom_text value with
                     | Some (Return text) => yield text
                     | Some (Raise e) => throw e
                     | None => unlimited_iterencode value (S level)
                     end >>> each items' false
                 end
             end) dct true
          >>> yield (newline_indent level) >>> yield [125]
      end
  | _ =>
      match atom_text o with
      | Some (Return text) => yield text
      | Some (Raise e) => throw e
      | None => yield []
      end
  end.

Section UnlimitedLoops.
Variable level : nat.

Fixpoint unlimited_list_items (lst : list pyval) (buf : pystr) : chunks :=
  match lst with
  | [] => yield []
  | value :: lst' =>
      match atom_text value with
      | Some (Return text) => yield (buf ++ text)
      | Some (Raise e) => throw e
      | None => yield buf >>> unlimited_iterencode value (S level)
      end >>> unlimited_list_items lst' (44 :: newline_indent (S level))
  end.

Fixpoint unlimited_dict_items (items : list (pyval * pyval)) (first : bool)
  : chunks :=
  match items with
  | [] => yield []
  | (key, value) :: items' =>
      match encode_key key with
      | Raise e => throw e
      | Return key =>
          (if first then yield []
           else yield (44 :: newline_indent (S level))) >>>
          yield (py_encode_basestring_ascii key) >>>
          yield [58; 32] >>>
          match atom_text value with
          | Some (Return text) => yield text
          | Some (Raise e) => throw e
          | None => unlimited_iterencode value (S level)
          end >>> unlimited_dict_items items' false
      end
  end.

End UnlimitedLoops.

(** *** Decoder *)

Definition json_error (msg : string) : exn := Exn JSONDecodeError msg.

Definition is_ws (c : Z) : bool :=
  (c =? 32) || (c =? 9) || (c =? 10) || (c =? 13).

(** [_w(s, end).end()]. *)
Fixpoint skip_ws (s : pystr) : pystr :=
  match s with
  | c :: r => if is_ws c then skip_ws r else s
  | [] => []
  end.

Definition hex_value (c : Z) : option Z :=
  if (48 <=? c) && (c <=? 57) then Some (c - 48)
  else if (97 <=? c) && (c <=? 102) then Some (c - 97 + 10)
  else if (65 <=? c) && (c <=? 70) then Some (c - 65 + 10)
  else None.

(** Four hexadecimal digits, as the scanner reads them. *)
Definition decode_hex4 (h1 h2 h3 h4 : Z) : option Z :=
  a ← hex_value h1; b ← hex_value h2; c ← hex_value h3; d ← hex_value h4;
  Some (Z.lor (Z.shiftl (Z.lor (Z.shiftl (Z.lor (Z.shiftl a 4) b) 4) c) 4) d).

(** [BACKSLASH]. *)
Definition BACKSLASH (esc : Z) : option Z :=
  if esc =? 34 then Some 34
  else if esc =? 92 then Some 92
  else if esc =? 47 then Some 47
  else if esc =? 98 then Some 8
  else if esc =? 102 then Some 12
  else if esc =? 110 then Some 10
  else if esc =? 114 then Some 13
  else if esc =? 116 then Some 9
  else None.

Definition add_char {A} (c : Z) (r : outcome (pystr * A)) : outcome (pystr * A) :=
  match r with
  | Return (str, rest) => Return (c :: str, rest)
  | Raise e => Raise e
  end.

(** [scanstring(s, end, strict=True)]: [s] starts after the opening quote.
    Returns the string and what follows the closing quote. *)
Fixpoint scanstring (s : pystr) : outcome (pystr * pystr) :=
  match s with
  | [] => Raise (json_error "Unterminated string starting at")
  | c :: r =>
      if c =? 34 then Return ([], r)
      else if c =? 92 then
        match r with
        | [] => Raise (json_error "Unterminated string starting at")
        | esc :: r1 =>
            if esc =? 117 then
              match r1 with
              | h1 :: h2 :: h3 :: h4 :: r2 =>
                  match decode_hex4 h1 h2 h3 h4 with
                  | None => Raise (json_error "Invalid \uXXXX escape")
                  | Some uni =>
                      if (0xd800 <=? uni) && (uni <=? 0xdbff) then
                        match r2 with
                        | b :: u :: r3 =>
                            if (b =? 92) && (u =? 117) then
                              match r3 with
                              | k1 :: k2 :: k3 :: k4 :: r4 =>
                                  match decode_hex4 k1 k2 k3 k4 with
                                  | None =>
                                      Raise (json_error "Invalid \uXXXX escape")
                                  | Some uni2 =>
                                      if (0xdc00 <=? uni2) && (uni2 <=? 0xdfff)
                                      then
                                        add_char
                                          (0x10000 +
                                           Z.lor (Z.shiftl (uni - 0xd800) 10)
                                             (uni2 - 0xdc00))
                                          (scanstring r4)
                                      else add_char uni (scanstring r2)
                                  end
                              | _ => Raise (json_error "Invalid \uXXXX escape")
                              end
                            else add_char uni (scanstring r2)
                        | _ => add_char uni (scanstring r2)
                        end
                      else add_char uni (scanstring r2)
                  end
              | _ => Raise (json_error "Invalid \uXXXX escape")
              end
            else
              match BACKSLASH esc with
              | Some char => add_char char (scanstring r1)
              | None => Raise (json_error "Invalid \escape")
              end
        end
      else if (0 <=? c) && (c <? 0x20)
      then Raise (json_error "Invalid control character at")
      else add_char c (scanstring r)
  end.

Definition is_digit (c : Z) : bool := (48 <=? c) && (c <=? 57).

(** The longest run of digits. *)
Fixpoint span_digits (s : pystr) : pystr * pystr :=
  match s with
  | c :: r =>
      if is_digit c
      then let '(ds, rest) := span_digits r in (c :: ds, rest)
      else ([], s)
  | [] => ([], [])
  end.

(** The three groups of [NUMBER_RE]: an optional minus sign and either
    a single zero or a non-zero digit with any number of digits; a point
    with at least one digit; an exponent letter, an optional sign and at
    least one digit.  Digits are the ASCII ones, as in the C scanner. *)
Definition match_integer (s : pystr) : option (pystr * pystr) :=
  let '(sign, s1) :=
    match s with
    | c :: r => if c =? 45 then ([45], r) else ([], s)
    | [] => ([], s)
    end in
  match s1 with
  | c :: r =>
      if c =? 48 then Some (sign ++ [48], r)
      else if is_digit c
      then let '(ds, rest) := span_digits r in Some (sign ++ c :: ds, rest)
      else None
  | [] => None
  end.

Definition match_frac (s : pystr) : option (pystr * pystr) :=
  match s with
  | c :: r =>
      if c =? 46 then
        match span_digits r with
        | ([], _) => None
        | (ds, rest) => Some (46 :: ds, rest)
        end
      else None
  | [] => None
  end.

Definition match_exp (s : pystr) : option (pystr * pystr) :=
  match s with
  | c :: r =>
      if (c =? 101) || (c =? 69) then
        let '(sign, r1) :=
          match r with
          | c2 :: r2 => if (c2 =? 45) || (c2 =? 43) then ([c2], r2) else ([], r)
          | [] => ([], r)
          end in
        match span_digits r1 with
        | ([], _) => None
        | (ds, rest) => Some (c :: sign ++ ds, rest)
        end
      else None
  | [] => None
  end.

(** [int(text)] on a matched integer. *)
Definition int_of_digits (ds : pystr) : Z :=
  fold_left (fun acc d => 10 * acc + (d - 48)) ds 0.

Definition parse_int (text : pystr) : outcome pyval :=
  let '(negative, ds) :=
    match text with
    | c :: r => if c =? 45 then (true, r) else (false, text)
    | [] => (false, text)
    end in
  if (int_max_str_digits <? length ds)%nat then Raise int_digits_error
  else Return (PyInt (if negative then - int_of_digits ds else int_of_digits ds)).

(** The number branch of [_scan_once]. *)
Definition scan_number (s : pystr) : option (outcome (pyval * pystr)) :=
  match match_integer s with
  | None => None
  | Some (integer, s1) =>
      let '(frac, s2) :=
        match match_frac s1 with
        | Some (f, r) => (f, r)
        | None => ([], s1)
        end in
      let '(exp, s3) :=
        match match_exp s2 with
        | Some (e, r) => (e, r)
        | None => ([], s2)
        end in
      match frac, exp with
      | [], [] =>
          match parse_int integer with
          | Return v => Some (Return (v, s3))
          | Raise e => Some (Raise e)
          end
      | _, _ =>
          Some (Return (PyFloat (float_of_literal (integer ++ frac ++ exp)), s3))
      end
  end.

(** [s[idx:idx + len(word)] == word]: what follows the word, if it is
    there. *)
Fixpoint strip_prefix (word s : pystr) : option pystr :=
  match word, s with
  | [], _ => Some s
  | w :: word', c :: s' => if w =? c then strip_prefix word' s' else None
  | _ :: _, [] => None
  end.

Definition expecting_value : exn := json_error "Expecting value".
Definition expecting_name : exn :=
  json_error "Expecting property name enclosed in double quotes".
Definition expecting_colon : exn := json_error "Expecting ':' delimiter".
Definition expecting_comma : exn := json_error "Expecting ',' delimiter".

(** The scanner recurses on [fuel], the number of calls it may still make;
    [json_loads] gives it enough for every input, so that this answer is
    never seen. *)
Definition out_of_fuel : exn :=
  Exn (OtherError "fuel") "the scanner was given too little fuel".

(** [_scan_once], [JSONArray] and [JSONObject] with their loops.  The loops
    return the values and pairs they collected.  The scanner enters an
    array or an object through [Py_EnterRecursiveCall]: [depth] is the
    number of arrays and objects within one another that the recursion
    limit still allows, and the scanner raises a [RecursionError] at the
    bracket that would open one more. *)
Fixpoint scan_once (fuel depth : nat) (s : pystr) {struct fuel}
  : outcome (pyval * pystr) :=
  match fuel with
  | O => Raise out_of_fuel
  | S fuel' =>
      match s with
      | [] => Raise expecting_value
      | nextchar :: r =>
          if nextchar =? 34 then
            match scanstring r with
            | Return (str, rest) => Return (PyStr str, rest)
            | Raise e => Raise e
            end
          else if nextchar =? 123 then
            match depth with
            | O => Raise recursion_error
            | S depth' => JSONObject fuel' depth' r
            end
          else if nextchar =? 91 then
            match depth with
            | O => Raise recursion_error
            | S depth' => JSONArray fuel' depth' r
            end
          else
            match strip_prefix (of_string "null") s,
                  strip_prefix (of_string "true") s,
                  strip_prefix (of_string "false") s with
            | Some rest, _, _ => Return (PyNone, rest)
            | _, Some rest, _ => Return (PyBool true, rest)
            | _, _, Some rest => Return (PyBool false, rest)
            | None, None, None =>
                match scan_number s with
                | Some res => res
                | None =>
                    match strip_prefix (of_string "NaN") s,
                          strip_prefix (of_string "Infinity") s,
                          strip_prefix (of_string "-Infinity") s with
                    | Some rest, _, _ => Return (PyFloat PrimFloat.nan, rest)
                    | _, Some rest, _ =>
                        Return (PyFloat PrimFloat.infinity, rest)
                    | _, _, Some rest =>
                        Return (PyFloat PrimFloat.neg_infinity, rest)
                    | None, None, None => Raise expecting_value
                    end
                end
            end
      end
  end

with JSONArray (fuel depth : nat) (s : pystr) {struct fuel}
  : outcome (pyval * pystr) :=
  match fuel with
  | O => Raise out_of_fuel
  | S fuel' =>
      match skip_ws s with
      | [] => Raise expecting_value
      | nextchar :: r =>
          if nextchar =? 93 then Return (PyList [], r)
          else
            match array_values fuel' depth (skip_ws s) with
            | Return (values, rest) => Return (PyList values, rest)
            | Raise e => Raise e
            end
      end
  end

with array_values (fuel depth : nat) (s : pystr) {struct fuel}
  : outcome (list pyval * pystr) :=
  match fuel with
  | O => Raise out_of_fuel
  | S fuel' =>
      match scan_once fuel' depth s with
      | Raise e => Raise e
      | Return (value, s1) =>
          match skip_ws s1 with
          | [] => Raise expecting_comma
          | nextchar :: s2 =>
              if nextchar =? 93 then Return ([value], s2)
              else if nextchar =? 44 then
                match array_values fuel' depth (skip_ws s2) with
                | Return (values, rest) => Return (value :: values, rest)
                | Raise e => Raise e
                end
              else Raise expecting_comma
          end
      end
  end

with JSONObject (fuel depth : nat) (s : pystr) {struct fuel}
  : outcome (pyval * pystr) :=
  match fuel with
  | O => Raise out_of_fuel
  | S fuel' =>
      match skip_ws s with
      | [] => Raise expecting_name
      | nextchar :: r =>
          if nextchar =? 125 then Return (PyDict [], r)
          else if nextchar =? 34 then
            match object_pairs fuel' depth r with
            | Return (pairs, rest) => Return (PyDict (dict_of_pairs pairs), rest)
            | Raise e => Raise e
            end
          else Raise expecting_name
      end
  end

with object_pairs (fuel depth : nat) (s : pystr) {struct fuel}
  : outcome (list (pyval * pyval) * pystr) :=
  match fuel with
  | O => Raise out_of_fuel
  | S fuel' =>
      match scanstring s with
      | Raise e => Raise e
      | Return (key, s1) =>
          match skip_ws s1 with
          | [] => Raise expecting_colon
          | colon :: s2 =>
              if colon =? 58 then
                match scan_once fuel' depth (skip_ws s2) with
                | Raise e => Raise e
                | Return (value, s3) =>
                    match skip_ws s3 with
                    | [] => Raise expecting_comma
                    | nextchar :: s4 =>
                        if nextchar =? 125
                        then Return ([(PyStr key, value)], s4)
                        else if nextchar =? 44 then
                          match skip_ws s4 with
                          | [] => Raise expecting_name
                          | quote :: s5 =>
                              if quote =? 34 then
                                match object_pairs fuel' depth s5 with
                                | Return (pairs, rest) =>
                                    Return ((PyStr key, value) :: pairs, rest)
                                | Raise e => Raise e
                                end
                              else Raise expecting_name
                          end
                        else Raise expecting_comma
                    end
                end
              else Raise expecting_colon
          end
      end
  end.

(** [JSONDecoder.decode]. *)
Definition json_decode (fuel : nat) (s : pystr) : outcome pyval :=
  match scan_once fuel decoder_depth (skip_ws s) with
  | Raise e => Raise e
  | Return (obj, rest) =>
      match skip_ws rest with
      | [] => Return obj
      | _ => Raise (json_error "Extra data")
      end
  end.

(** [json.loads(s)] on a [str].  Three calls per character of input are
    enough for every nesting the input can hold. *)
Definition json_loads (s : pystr) : outcome pyval :=
  if match s with
     | c :: _ => c =? 0xfeff
     | [] => false
     end
  then Raise (json_error "Unexpected UTF-8 BOM (decode using utf-8-sig)")
  else json_decode (3 * length s + 3) s.

(** [json.dump(obj, fp, indent=4)] into the file opened at [fp]: the chunks
    are written as they come, an exception ends the writing. *)
Definition json_dump (obj : pyval) (fp : path) : M unit :=
  let '(text, err) := iterencode obj 0 in
  data ← lift (utf8_encode text);
  append_file fp data;;
  match err with
  | Some e => raise e
  | None => ret tt
  end.

(** [json.load(fp)] from the file at [fp], read as text. *)
Definition json_load (fp : path) : M pyval :=
  data ← read_file fp;
  s ← lift (utf8_decode data);
  lift (json_loads s).

End Json.

(** ** [save_json], [load_json], [save_bin], [load_bin] *)

(** [[
    try:
        with open(path, "w") as f:
            json.dump(data, f, indent=4)
        logger.info(f"JSON file saved at: {path}")
    except (TypeError, OSError) as e:
        raise ValueError(f"Error saving JSON file at {path}: {e}")
    ]] *)
Definition save_json (p : path) (data : list (pyval * pyval)) : M unit :=
  try_except
    (open_write p;;
     json_dump (PyDict data) p;;
     logger_info ("JSON file saved at: " +:+ path_str p))
    (fun e =>
       if isinstance e TypeError || isinstance e OSError
       then raise (Exn ValueError
                     ("Error saving JSON file at " +:+ path_str p
                      +:+ ": " +:+ exn_str e))
       else raise e).

(** [[
    try:
        with open(path) as f:
            content = json.load(f)
        logger.info(f"JSON file loaded successfully from: {path}")
        return ConfigBox(content)
    except (json.JSONDecodeError, FileNotFoundError) as e:
        raise ValueError(f"Error loading JSON file at {path}: {e}")
    ]] *)
Definition load_json (p : path) : M ConfigBox :=
  try_except
    (content ← json_load p;
     logger_info ("JSON file loaded successfully from: " +:+ path_str p);;
     lift (ConfigBox_init content))
    (fun e =>
       if isinstance e JSONDecodeError || isinstance e FileNotFoundError
       then raise (Exn ValueError
                     ("Error loading JSON file at " +:+ path_str p
                      +:+ ": " +:+ exn_str e))
       else raise e).

(** [joblib.dump(value, filename)]: the file is opened for writing, then
    the object is pickled into it. *)
Definition joblib_dump (value : pyval) (filename : path) : M unit :=
  open_write filename;;
  data ← lift (joblib_dumps value);
  append_file filename data.

(** [joblib.load(filename)]. *)
Definition joblib_load (filename : path) : M pyval :=
  data ← read_file filename;
  lift (joblib_loads data).

(** Every helper is wrapped by [@ensure_annotations], which compares
    each annotated argument, and the result where the return is
    annotated, with its annotation by [isinstance(value, annotation)]
    before and after the body runs.  The embedding is typed: a [path] is
    a [Path], a [pystr] a [str], what [read_yaml] and [load_json] return
    a [ConfigBox], and these checks pass.  [typing.Any], the annotation
    of the data of [save_bin] and of the result of [load_bin], is no
    class to compare with: [isinstance] against it raises. *)
Definition any_check_error : exn :=
  Exn TypeError "typing.Any cannot be used with isinstance()".

(** [isinstance(value, Any)] in the wrapper. *)
Definition check_Any (value : pyval) : M unit := raise any_check_error.

(** [[
    @ensure_annotations
    def save_bin(data: Any, path: Path):
        try:
            joblib.dump(value=data, filename=path)
            logger.info(f"Binary file saved at: {path}")
        except Exception as e:
            raise ValueError(f"Error saving binary file at {path}: {e}")
    ]] *)
Definition save_bin (data : pyval) (p : path) : M unit :=
  check_Any data;;
  try_except
    (joblib_dump data p;;
     logger_info ("Binary file saved at: " +:+ path_str p))
    (fun e =>
       if isinstance e Exception
       then raise (Exn ValueError
                     ("Error saving binary file at " +:+ path_str p
                      +:+ ": " +:+ exn_str e))
       else raise e).

(** [[
    @ensure_annotations
    def load_bin(path: Path) -> Any:
        try:
            data = joblib.load(path)
            logger.info(f"Binary file loaded from: {path}")
            return data
        except Exception as e:
            raise ValueError(f"Error loading binary file at {path}: {e}")
    ]] *)
Definition load_bin (p : path) : M pyval :=
  return_value ←
    try_except
      (data ← joblib_load p;
       logger_info ("Binary file loaded from: " +:+ path_str p);;
       ret data)
      (fun e =>
         if isinstance e Exception
         then raise (Exn ValueError
                       ("Error loading binary file at " +:+ path_str p
                        +:+ ": " +:+ exn_str e))
         else raise e);
  check_Any return_value;;
  ret return_value.

(** ** The module as a whole *)

(** The records [create_directories] adds for the paths it was given. *)
Definition created_messages (ps : list path) (verbose : bool)
  : list log_record :=
  if verbose
  then map (fun p => LogRecord INFO ("Created directory at: " +:+ path_str p))
         ps
  else [].

(** What [read_yaml] reports for a document without content. *)
Definition yaml_empty_error (p : path) : exn :=
  Exn ValueError ("YAML file at " +:+ path_str p +:+ " is empty").

(** Whether the bytes of a file are a JSON document: text that
    [json.loads] accepts. *)
Definition valid_json (data : list byte) : bool :=
  match utf8_decode data with
  | Return s =>
      match json_loads s with
      | Return _ => true
      | Raise _ => false
      end
  | Raise _ => false
  end.

(** *** Documents that survive the trip through JSON text *)

Definition is_high_surrogate (c : Z) : bool :=
  (0xd800 <=? c)%Z && (c <=? 0xdbff)%Z.
Definition is_low_surrogate (c : Z) : bool :=
  (0xdc00 <=? c)%Z && (c <=? 0xdfff)%Z.

(** A string of code points in which no high surrogate is directly
    followed by a low surrogate: the decoder reads the escapes of such a
    pair as one character. *)
Fixpoint plain_str (s : pystr) : bool :=
  match s with
  | [] => true
  | c :: s' =>
      (0 <=? c)%Z && (c <? 0x110000)%Z &&
      negb (is_high_surrogate c &&
            match s' with
            | c' :: _ => is_low_surrogate c'
            | [] => false
            end) &&
      plain_str s'
  end.

(** An integer whose decimal form is within the interpreter's limit. *)
Definition plain_int (n : Z) : bool :=
  (length (of_string (pretty (Z.abs n))) <=? int_max_str_digits)%nat.

(** The keys of a dictionary are pairwise different. *)
Fixpoint distinct_keys (d : list (pyval * pyval)) : bool :=
  match d with
  | [] => true
  | (k, _) :: d' =>
      negb (existsb (fun kv => py_eq k kv.1) d') && distinct_keys d'
  end.

(** A float that JSON text gives back as it was: not a NaN, which its
    text gives back but which is not equal to itself; an infinity; or a
    float whose [repr] the number pattern of the decoder matches from end
    to end as a float and [float] turns into the same float again.
    CPython's [repr] and [float] do so for every finite float. *)
Definition plain_float (x : float) : bool :=
  PrimFloat.eqb x x &&
  (PrimFloat.eqb x PrimFloat.infinity ||
   PrimFloat.eqb x PrimFloat.neg_infinity ||
   match scan_number (float_repr x) with
   | Some (Return (PyFloat y, [])) => same_float y x
   | _ => false
   end).

(** The values JSON text gives back as they were: [None], booleans,
    integers, floats, strings, lists and dictionaries with string keys,
    nested at will.  Tuples come back as lists and other keys as
    strings. *)
Fixpoint json_plain (v : pyval) : bool :=
  match v with
  | PyNone | PyBool _ => true
  | PyInt n => plain_int n
  | PyFloat x => plain_float x
  | PyStr s => plain_str s
  | PyList items => forallb json_plain items
  | PyTuple _ => false
  | PyDict d =>
      forallb (fun '(k, v) =>
                 match k with
                 | PyStr key => plain_str key
                 | _ => false
                 end && json_plain v) d
      && distinct_keys d
  end.

(** What a scanner that does not recurse may answer on input of length
    below [n]: a result that consumed something, or a [ValueError]. *)
Definition scanned {A} (n : nat) (r : outcome (A * pystr)) : Prop :=
  match r with
  | Return (_, rest) => length rest < n
  | Raise e => isinstance e ValueError = true
  end.

(** What a scanner leaves is the end of what it was given. *)
Definition leaves_suffix {A} (s : pystr) (r : outcome (A * pystr)) : Prop :=
  match r with
  | Return (_, rest) => rest `suffix_of` s
  | Raise _ => True
  end.

(** The opening brackets and braces of a text.  The scanner cannot nest
    deeper than their number. *)
Fixpoint brackets (s : pystr) : nat :=
  match s with
  | [] => 0
  | c :: s' =>
      (if (c =? 91)%Z || (c =? 123)%Z then 1 else 0) + brackets s'
  end.

(** The opening brackets and braces in the text of a file. *)
Definition text_brackets (data : list byte) : nat :=
  match utf8_decode data with
  | Return s => brackets s
  | Raise _ => 0
  end.

(** What the scanner may answer on the text [s] within [depth]: a result
    that consumed something; a [ValueError]; or a [RecursionError], for
    which the text has to open more brackets than [depth]. *)
Definition decoded {A} (depth : nat) (s : pystr) (r : outcome (A * pystr))
  : Prop :=
  match r with
  | Return (_, rest) => length rest < length s /\ brackets rest <= brackets s
  | Raise e =>
      isinstance e ValueError = true \/
      (e = recursion_error /\ depth < brackets s)
  end.

(** Where the text of a number may end in a document the encoder wrote:
    at the end, before a comma or before a line feed. *)
Definition number_end (rest : pystr) : bool :=
  match rest with
  | [] => true
  | c :: _ => (c =? 44)%Z || (c =? 10)%Z
  end.

(** A value scans back from its text: at every indentation level, with
    fuel above the length of the text, within a depth that its nesting
    does not exceed, and whatever follows as long as the text of a number
    may end there. *)
Definition scans_back (v : pyval) : Prop :=
  json_plain v = true ->
  forall (level fuel depth : nat) (rest : pystr),
    length (unlimited_iterencode v level).1 < fuel ->
    nesting_depth v <= depth ->
    number_end rest = true ->
    scan_once fuel depth ((unlimited_iterencode v level).1 ++ rest) =
    Return (v, rest).

(** A call of one of the nine helpers. *)
Inductive call :=
  | ReadYaml (path_to_yaml : path)
  | CreateDirectories (path_to_directories : list path) (verbose : bool)
  | SaveJson (p : path) (data : list (pyval * pyval))
  | LoadJson (p : path)
  | SaveBin (data : pyval) (p : path)
  | LoadBin (p : path)
  | GetSize (p : path)
  | DecodeImage (imgstring : pystr) (fileName : path)
  | EncodeImageIntoBase64 (croppedImagePath : path).

(** Run a call and forget what it returns. *)
Definition run (c : call) : M unit :=
  match c with
  | ReadYaml p => read_yaml p ≫= fun _ => ret tt
  | CreateDirectories ps verbose => create_directories ps verbose
  | SaveJson p data => save_json p data
  | LoadJson p => load_json p ≫= fun _ => ret tt
  | SaveBin data p => save_bin data p
  | LoadBin p => load_bin p ≫= fun _ => ret tt
  | GetSize p => get_size p ≫= fun _ => ret tt
  | DecodeImage s p => decodeImage s p
  | EncodeImageIntoBase64 p => encodeImageIntoBase64 p ≫= fun _ => ret tt
  end.

(** The path arguments of a call. *)
Definition call_paths (c : call) : list path :=
  match c with
  | CreateDirectories ps _ => ps
  | ReadYaml p | SaveJson p _ | LoadJson p | SaveBin _ p | LoadBin p
  | GetSize p | DecodeImage _ p | EncodeImageIntoBase64 p => [p]
  end.

(** The paths a successful call writes a log record for. *)
Definition logged_paths (c : call) : list path :=
  match c with
  | GetSize _ | EncodeImageIntoBase64 _ => []
  | CreateDirectories ps verbose => if verbose then ps else []
  | ReadYaml p | SaveJson p _ | LoadJson p | SaveBin _ p | LoadBin p
  | DecodeImage _ p => [p]
  end.

(** An informational record whose message contains the path. *)
Definition info_about (p : path) (r : log_record) : Prop :=
  lr_level r = INFO /\
  exists before after, lr_msg r = before +:+ path_str p +:+ after.

(** *** What a call leaves as it was *)

(** A computation whose final world is related by [R] to the world it
    started in, whatever its outcome. *)
Definition keeps (R : relation world) {A} (m : M A) : Prop :=
  forall w, R w (m w).2.

(** The file system is what it was. *)
Definition same_fs : relation world := fun w w' => w_fs w' = w_fs w.

(** The log is what it was. *)
Definition same_log : relation world := fun w w' => w_log w' = w_log w.

(** The entry at [q] is what it was. *)
Definition same_at (q : path) : relation world :=
  fun w w' => w_fs w' !! q = w_fs w !! q.

(** Every entry is what it was, except that directories may have appeared
    where there was nothing. *)
Definition adds_directories : relation world :=
  fun w w' =>
    forall q, w_fs w' !! q = w_fs w !! q \/
              (w_fs w !! q = None /\ w_fs w' !! q = Some Dir).

(** The calls in which nothing can fail once [logger.info] was called,
    or that do not call it.  [load_bin] is not among them: the wrapper
    checks its result after the body has logged. *)
Definition logs_as_last_step (c : call) : bool :=
  match c with
  | ReadYaml _ | LoadJson _ | CreateDirectories _ _ | LoadBin _ => false
  | SaveJson _ _ | SaveBin _ _ | GetSize _ | DecodeImage _ _
  | EncodeImageIntoBase64 _ => true
  end.

(** A computation that raises nothing but exceptions with the property
    [P]. *)
Definition raises_only (P : exn -> Prop) {A} (m : M A) : Prop :=
  forall w e w', m w = (Raise e, w') -> P e.

(** A computation that, when it raises, has kept [R]. *)
Definition keeps_on_failure (R : relation world) {A} (m : M A) : Prop :=
  forall w e w', m w = (Raise e, w') -> R w w'.

(** The characters [b64decode] reads, the alphabet and the pad; it skips
    every other character. *)
Definition is_base64_char (c : Z) : bool := (table_a2b_base64 c <? 64)%Z.

(** The values [ConfigBox] may be made from without an error for certain:
    mappings and sequences. *)
Definition is_container (v : pyval) : bool :=
  match v with
  | PyList _ | PyTuple _ | PyDict _ => true
  | _ => false
  end.

(** *** The generator and the recursion limit *)

(** At every level that leaves room for the nesting of a value, the
    generator yields what it yields without a limit. *)
Definition agree (v : pyval) : Prop :=
  forall level, (level + nesting_depth v <= encoder_depth)%nat ->
    iterencode v level = unlimited_iterencode v level.

(** Two runs of a generator that yield the same, unless the first ends in
    a [RecursionError]. *)
Definition limited (a a' : chunks) : Prop :=
  a = a' \/ a.2 = Some recursion_error.

(** *** Documents as JSON text gives them back *)

(** The key a dictionary key comes back as: the string it was written
    as.  Keys that are floats are left as they are; their text depends on
    the conversions the section leaves open. *)
Definition key_image (k : pyval) : pyval :=
  match k with
  | PyBool true => PyStr (of_string "true")
  | PyBool false => PyStr (of_string "false")
  | PyNone => PyStr (of_string "null")
  | PyInt n => PyStr (of_string (pretty n))
  | _ => k
  end.

(** The value a value comes back as: tuples as lists, keys as strings. *)
Fixpoint json_image (v : pyval) : pyval :=
  match v with
  | PyList items | PyTuple items => PyList (map json_image items)
  | PyDict d => PyDict (map (fun '(k, v) => (key_image k, json_image v)) d)
  | _ => v
  end.

(** The keys the encoder writes without an error. *)
Definition plain_key (k : pyval) : bool :=
  match k with
  | PyStr s => plain_str s
  | PyInt n => plain_int n
  | PyBool _ | PyNone => true
  | _ => false
  end.

(** The values that come back as their image: no floats, integers within
    the limit, strings without a surrogate pair, and in every dictionary
    keys that are pairwise different once they are written. *)
Fixpoint json_coercible (v : pyval) : bool :=
  match v with
  | PyNone | PyBool _ => true
  | PyInt n => plain_int n
  | PyFloat _ => false
  | PyStr s => plain_str s
  | PyList items | PyTuple items => forallb json_coercible items
  | PyDict d =>
      forallb (fun '(k, v) => plain_key k && json_coercible v) d
      && distinct_keys (map (fun '(k, v) => (key_image k, v)) d)
  end.

(** * Properties *)

Set Default Proof Using "Type".

(** Forget the variables of the section a goal does not mention. *)
Ltac no_libs :=
  try clear dir_size; try clear yaml_safe_load; try clear box_from_iterable;
  try clear box_class_attr; try clear box_attr_fallback;
  try clear float_repr; try clear float_of_literal;
  try clear joblib_dumps; try clear joblib_loads.

(** ** The file system *)

Lemma walk_found fs cur rest n :
  walk fs cur rest = Found n <->
  (forall i, (i < length rest)%nat -> node_at fs (cur ++ take i rest) = Some Dir) /\
  node_at fs (cur ++ rest) = Some n.
Proof.
  revert cur. induction rest as [|c rest IH]; intros cur; simpl.
  - rewrite app_nil_r. split.
    + destruct (node_at fs cur); [|done]. intros [= ->]. split; [lia|done].
    + intros [_ ->]. done.
  - split.
    + destruct (node_at fs cur) as [[|]|] eqn:E; [done| |done].
      intros [H1 H2]%IH. rewrite <- app_assoc in H2. split; [|done].
      intros [|i] Hi; simpl.
      * by rewrite app_nil_r.
      * specialize (H1 i). rewrite <- app_assoc in H1. apply H1. lia.
    + intros [H1 H2].
      pose proof (H1 0%nat) as H0. simpl in H0. rewrite app_nil_r in H0.
      rewrite H0 by lia. apply IH. rewrite <- app_assoc. split; [|done].
      intros i Hi. specialize (H1 (S i)). simpl in H1.
      rewrite <- app_assoc. apply H1. lia.
Qed.

Lemma resolve_found fs p n :
  resolve fs p = Found n <->
  (forall i, (i < length p)%nat -> node_at fs (take i p) = Some Dir) /\
  node_at fs p = Some n.
Proof. apply (walk_found fs [] p n). Qed.

Lemma isdir_spec fs p :
  isdir fs p = true <->
  forall i, (i <= length p)%nat -> node_at fs (take i p) = Some Dir.
Proof.
  unfold isdir. split.
  - destruct (resolve fs p) as [[|]| |] eqn:E; try done.
    apply resolve_found in E as [H1 H2]. intros _ i Hi.
    destruct (decide (i = length p)) as [->|]; [by rewrite firstn_all|].
    apply H1. lia.
  - intros H. assert (E : resolve fs p = Found Dir).
    { apply resolve_found. split; [intros; apply H; lia|].
      specialize (H (length p)). rewrite firstn_all in H. auto. }
    by rewrite E.
Qed.

Lemma take_removelast {A} (p : list A) : removelast p = take (length p - 1) p.
Proof.
  induction p as [|a [|b p] IH]; [done|done|].
  change (removelast (a :: b :: p)) with (a :: removelast (b :: p)).
  rewrite IH. simpl. by rewrite Nat.sub_0_r.
Qed.

(** [walk] never reports a missing entry when everything up to and
    including the target is present. *)
Lemma walk_enoent_parent fs p :
  resolve fs p = ENOENT -> isdir fs (dirname p) = true ->
  node_at fs p = None /\
  forall i, (i < length p)%nat -> node_at fs (take i p) = Some Dir.
Proof.
  intros Hres Hdir. rewrite isdir_spec in Hdir.
  assert (Hpre : forall i, (i < length p)%nat -> node_at fs (take i p) = Some Dir).
  { intros i Hi. unfold dirname in Hdir. specialize (Hdir i).
    rewrite take_removelast, length_take, take_take in Hdir.
    replace (i `min` (length p - 1))%nat with i in Hdir by lia.
    apply Hdir. lia. }
  split; [|done].
  destruct (node_at fs p) as [n|] eqn:E; [|done].
  assert (resolve fs p = Found n) by (by apply resolve_found).
  congruence.
Qed.

Lemma node_at_insert_ne fs p q x :
  p <> q -> p <> [] -> node_at (<[p := x]> fs) q = node_at fs q.
Proof.
  intros Hne Hp. destruct q; [done|]. simpl. by rewrite lookup_insert_ne.
Qed.

Lemma node_at_insert_eq fs p x :
  p <> [] -> node_at (<[p := x]> fs) p = Some x.
Proof. intros Hp. destruct p; [done|]. simpl. by rewrite lookup_insert_eq. Qed.

Lemma take_ne_self {A} (p : list A) i : (i < length p)%nat -> take i p <> p.
Proof. intros Hi E. apply (f_equal length) in E. rewrite length_take in E. lia. Qed.

(** Writing to a writable path makes the path name the new file. *)
Lemma writable_nonroot fs p : writable fs p = true -> p <> [].
Proof. intros H ->. done. Qed.

Lemma writable_prefixes fs p :
  writable fs p = true ->
  forall i, (i < length p)%nat -> node_at fs (take i p) = Some Dir.
Proof.
  unfold writable. destruct (resolve fs p) as [[b|]| |] eqn:E; try done.
  - intros _. by apply resolve_found in E as [H _].
  - intros H. by apply walk_enoent_parent.
Qed.

Lemma resolve_insert_writable fs p x :
  writable fs p = true -> resolve (<[p := x]> fs) p = Found x.
Proof.
  intros Hw. pose proof (writable_nonroot _ _ Hw) as Hp.
  apply resolve_found. split.
  - intros i Hi. rewrite node_at_insert_ne by (done || by apply not_eq_sym, take_ne_self).
    by apply writable_prefixes.
  - by apply node_at_insert_eq.
Qed.

(** ** Base64 *)

Section Base64Facts.
Local Open Scope Z_scope.

Lemma byte_val_range b : 0 <= byte_val b < 256.
Proof.
  unfold byte_val. pose proof (Byte.to_N_bounded b). lia.
Qed.

Lemma byte_of_Z_val b : byte_of_Z (byte_val b) = b.
Proof.
  unfold byte_of_Z. pose proof (byte_val_range b).
  rewrite Z.mod_small by lia. unfold byte_val. rewrite N2Z.id.
  by rewrite Byte.of_to_N.
Qed.

Lemma byte_val_of_Z z : 0 <= z < 256 -> byte_val (byte_of_Z z) = z.
Proof.
  intros Hz. unfold byte_of_Z, byte_val. rewrite Z.mod_small by lia.
  destruct (Byte.of_N (Z.to_N z)) as [b|] eqn:E.
  - apply Byte.to_of_N in E. simpl. lia.
  - apply Byte.of_N_None_iff in E. lia.
Qed.

Lemma land_shiftl_small a k b :
  0 <= k -> 0 <= b < 2 ^ k -> Z.land (Z.shiftl a k) b = 0.
Proof.
  intros Hk Hb.
  destruct (Z.eq_dec b 0) as [->|Hne]; [apply Z.land_0_r|].
  apply Z.bits_inj'. intros i Hi.
  rewrite Z.land_spec, Z.bits_0.
  destruct (Z.lt_ge_cases i k) as [Hlt|Hge].
  - by rewrite Z.shiftl_spec_low.
  - rewrite (Z.bits_above_log2 b i); [apply andb_false_r|lia|].
    apply Z.log2_lt_pow2; [lia|].
    eapply Z.lt_le_trans; [apply Hb|]. apply Z.pow_le_mono_r; lia.
Qed.

Lemma lor_shiftl_add a k b :
  0 <= k -> 0 <= b < 2 ^ k -> Z.lor (Z.shiftl a k) b = a * 2 ^ k + b.
Proof.
  intros Hk Hb.
  rewrite <- Z.lxor_lor by (by apply land_shiftl_small).
  rewrite <- Z.add_nocarry_lxor by (by apply land_shiftl_small).
  by rewrite Z.shiftl_mul_pow2.
Qed.

Lemma land_mask a n : 0 <= n -> Z.land a (2 ^ n - 1) = a mod 2 ^ n.
Proof.
  intros Hn. rewrite <- Z.land_ones by done. f_equal.
  rewrite Z.ones_equiv. lia.
Qed.

Lemma b2a_loop_bits0 b rest lc :
  b2a_loop (b :: rest) lc 0 =
  let lc1 := Z.lor (Z.shiftl lc 8) (byte_val b) mod 2 ^ 32 in
  b2a_char (Z.land (Z.shiftr lc1 2) 0x3f) :: b2a_loop rest lc1 2.
Proof. reflexivity. Qed.

Lemma b2a_loop_bits2 b rest lc :
  b2a_loop (b :: rest) lc 2 =
  let lc1 := Z.lor (Z.shiftl lc 8) (byte_val b) mod 2 ^ 32 in
  b2a_char (Z.land (Z.shiftr lc1 4) 0x3f) :: b2a_loop rest lc1 4.
Proof. reflexivity. Qed.

Lemma b2a_loop_bits4 b rest lc :
  b2a_loop (b :: rest) lc 4 =
  let lc1 := Z.lor (Z.shiftl lc 8) (byte_val b) mod 2 ^ 32 in
  b2a_char (Z.land (Z.shiftr lc1 6) 0x3f)
    :: b2a_char (Z.land (Z.shiftr lc1 0) 0x3f) :: b2a_loop rest lc1 0.
Proof. reflexivity. Qed.

Lemma shift_in_spec lc v :
  0 <= lc -> 0 <= v < 256 ->
  Z.lor (Z.shiftl lc 8) v mod 2 ^ 32 = (lc * 256 + v) mod 2 ^ 32.
Proof.
  intros Hlc Hv. rewrite lor_shiftl_add by lia. done.
Qed.

Lemma sextet_spec x j : 0 <= j -> Z.land (Z.shiftr x j) 0x3f = (x / 2 ^ j) mod 64.
Proof.
  intros Hj. rewrite Z.shiftr_div_pow2 by done.
  change 0x3f with (2 ^ 6 - 1). by rewrite land_mask.
Qed.

Lemma quad_sextets lc v1 v2 v3 :
  0 <= lc -> 0 <= v1 < 256 -> 0 <= v2 < 256 -> 0 <= v3 < 256 ->
  let lc1 := (lc * 256 + v1) mod 2 ^ 32 in
  let lc2 := (lc1 * 256 + v2) mod 2 ^ 32 in
  let lc3 := (lc2 * 256 + v3) mod 2 ^ 32 in
  (lc1 / 2 ^ 2) mod 64 = v1 / 4 /\
  (lc2 / 2 ^ 4) mod 64 = (v1 mod 4) * 16 + v2 / 16 /\
  (lc3 / 2 ^ 6) mod 64 = (v2 mod 16) * 4 + v3 / 64 /\
  (lc3 / 2 ^ 0) mod 64 = v3 mod 64 /\
  lc1 mod 4 = v1 mod 4 /\ lc2 mod 16 = v2 mod 16.
Proof.
  intros Hlc H1 H2 H3 lc1 lc2 lc3. subst lc1 lc2 lc3.
  change (2 ^ 32) with 4294967296. change (2 ^ 2) with 4.
  change (2 ^ 4) with 16. change (2 ^ 6) with 64. change (2 ^ 0) with 1.
  repeat split; Z.div_mod_to_equations; lia.
Qed.

Lemma alphabet_inverse s :
  0 <= s < 64 ->
  (byte_val (b2a_char s) =? BASE64_PAD) = false /\
  table_a2b_base64 (byte_val (b2a_char s)) = s.
Proof.
  intros Hs.
  assert (Hall : forallb (fun n =>
            let s := Z.of_nat n in
            negb (byte_val (b2a_char s) =? BASE64_PAD) &&
            (table_a2b_base64 (byte_val (b2a_char s)) =? s))
          (seq 0 64) = true) by (vm_compute; reflexivity).
  rewrite forallb_forall in Hall.
  assert (Hin : In (Z.to_nat s) (seq 0 64)) by (apply in_seq; lia).
  specialize (Hall _ Hin). cbv zeta in Hall.
  rewrite Z2Nat.id in Hall by lia.
  apply andb_prop in Hall as [H1 H2].
  split; [by apply negb_true_iff|by apply Z.eqb_eq].
Qed.

Lemma a2b_loop_data c rest quad_pos leftchar pads nout s :
  0 <= s < 64 -> c = b2a_char s ->
  a2b_loop (c :: rest) quad_pos leftchar pads nout =
    if quad_pos =? 0 then a2b_loop rest 1 s 0 nout
    else if quad_pos =? 1 then
      emit_byte (Z.lor (Z.shiftl leftchar 2) (Z.shiftr s 4))
        (a2b_loop rest 2 (Z.land s 0x0f) 0 (nout + 1))
    else if quad_pos =? 2 then
      emit_byte (Z.lor (Z.shiftl leftchar 4) (Z.shiftr s 2))
        (a2b_loop rest 3 (Z.land s 0x03) 0 (nout + 1))
    else
      emit_byte (Z.lor (Z.shiftl leftchar 6) s)
        (a2b_loop rest 0 0 0 (nout + 1)).
Proof.
  intros Hs ->. destruct (alphabet_inverse s Hs) as [Hpad Htab].
  cbn [a2b_loop]. rewrite Hpad, Htab.
  by replace (64 <=? s) with false by (symmetry; apply Z.leb_gt; lia).
Qed.

Lemma a2b_loop_pad2 rest leftchar nout :
  a2b_loop (byte_of_Z BASE64_PAD :: byte_of_Z BASE64_PAD :: rest)
    2 leftchar 0 nout = Return [].
Proof. reflexivity. Qed.

Lemma a2b_loop_pad3 rest leftchar nout :
  a2b_loop (byte_of_Z BASE64_PAD :: rest) 3 leftchar 0 nout = Return [].
Proof. reflexivity. Qed.

(** Decoding one full group of four characters gives back three bytes. *)
Lemma decoded_bytes v1 v2 v3 :
  0 <= v1 < 256 -> 0 <= v2 < 256 -> 0 <= v3 < 256 ->
  let s1 := v1 / 4 in
  let s2 := (v1 mod 4) * 16 + v2 / 16 in
  let s3 := (v2 mod 16) * 4 + v3 / 64 in
  let s4 := v3 mod 64 in
  Z.lor (Z.shiftl s1 2) (Z.shiftr s2 4) = v1 /\
  Z.lor (Z.shiftl (Z.land s2 0x0f) 4) (Z.shiftr s3 2) = v2 /\
  Z.lor (Z.shiftl (Z.land s3 0x03) 6) s4 = v3.
Proof.
  intros H1 H2 H3 s1 s2 s3 s4. subst s1 s2 s3 s4.
  change 0x0f with (2 ^ 4 - 1). change 0x03 with (2 ^ 2 - 1).
  rewrite !land_mask, !Z.shiftr_div_pow2 by lia.
  change (2 ^ 4) with 16. change (2 ^ 2) with 4.
  rewrite !lor_shiftl_add;
    change (2 ^ 2) with 4; change (2 ^ 4) with 16; change (2 ^ 6) with 64;
    try lia; repeat split; Z.div_mod_to_equations; lia.
Qed.

Lemma list_ind3 {A} (P : list A -> Prop) :
  P [] -> (forall a, P [a]) -> (forall a b, P [a; b]) ->
  (forall a b c l, P l -> P (a :: b :: c :: l)) ->
  forall l, P l.
Proof.
  intros H0 H1 H2 H3. fix IH 1.
  intros [|a [|b [|c l]]]; [done|done|done|]. apply H3, IH.
Qed.

Lemma sextet_bounds v1 v2 v3 :
  0 <= v1 < 256 -> 0 <= v2 < 256 -> 0 <= v3 < 256 ->
  0 <= v1 / 4 < 64 /\ 0 <= (v1 mod 4) * 16 + v2 / 16 < 64 /\
  0 <= (v2 mod 16) * 4 + v3 / 64 < 64 /\ 0 <= v3 mod 64 < 64.
Proof. intros. repeat split; Z.div_mod_to_equations; lia. Qed.

Lemma accum_nonneg lc v : 0 <= (lc * 256 + v) mod 2 ^ 32.
Proof. apply Z.mod_pos_bound. lia. Qed.

Ltac decode_char :=
  match goal with
  | |- context [a2b_loop (b2a_char ?s :: _) _ _ _ _] =>
      rewrite (a2b_loop_data _ _ _ _ _ _ s) by first [reflexivity | lia];
      cbn [Z.eqb Pos.eqb]
  end.

Lemma a2b_b2a_loop bs :
  forall lc lc' nout, 0 <= lc ->
    a2b_loop (b2a_loop bs lc 0) 0 lc' 0 nout = Return bs.
Proof.
  induction bs as [|b1|b1 b2|b1 b2 b3 bs IH] using list_ind3;
    intros lc lc' nout Hlc.
  - reflexivity.
  - pose proof (byte_val_range b1) as H1.
    rewrite b2a_loop_bits0. cbv zeta.
    rewrite shift_in_spec, sextet_spec by lia.
    change (b2a_loop [] ?l 2) with
      [b2a_char (Z.shiftl (Z.land l 3) 4);
       byte_of_Z BASE64_PAD; byte_of_Z BASE64_PAD].
    destruct (quad_sextets lc _ 0 0 Hlc H1) as (E1 & _ & _ & _ & E5 & _);
      [lia..|].
    destruct (sextet_bounds _ 0 0 H1) as (B1 & B2 & _); [lia..|].
    destruct (decoded_bytes _ 0 0 H1) as (D1 & _); [lia..|].
    rewrite E1. change 3 with (2 ^ 2 - 1). rewrite land_mask by lia.
    change (2 ^ 2) with 4. rewrite E5.
    rewrite Z.shiftl_mul_pow2 by lia. change (2 ^ 4) with 16.
    change (0 / 16) with 0 in *. rewrite Z.add_0_r in *.
    decode_char.
    decode_char.
    rewrite D1, a2b_loop_pad2. cbn [emit_byte]. by rewrite byte_of_Z_val.
  - pose proof (byte_val_range b1) as H1.
    pose proof (byte_val_range b2) as H2.
    rewrite b2a_loop_bits0. cbv zeta. rewrite b2a_loop_bits2. cbv zeta.
    rewrite (shift_in_spec lc), shift_in_spec, !sextet_spec
      by (lia || apply accum_nonneg).
    change (b2a_loop [] ?l 4) with
      [b2a_char (Z.shiftl (Z.land l 0xf) 2); byte_of_Z BASE64_PAD].
    destruct (quad_sextets lc _ _ 0 Hlc H1 H2)
      as (E1 & E2 & _ & _ & _ & E6); [lia|].
    destruct (sextet_bounds _ _ 0 H1 H2) as (B1 & B2 & B3 & _); [lia|].
    destruct (decoded_bytes _ _ 0 H1 H2) as (D1 & D2 & _); [lia|].
    rewrite E1, E2. change 0xf with (2 ^ 4 - 1).
    rewrite (land_mask _ 4) by lia. change (2 ^ 4) with 16. rewrite E6.
    rewrite (Z.shiftl_mul_pow2 _ 2) by lia. change (2 ^ 2) with 4.
    change (0 / 64) with 0 in *. rewrite Z.add_0_r in *.
    decode_char.
    decode_char.
    decode_char.
    rewrite D1, D2, a2b_loop_pad3. cbn [emit_byte]. by rewrite !byte_of_Z_val.
  - pose proof (byte_val_range b1) as H1.
    pose proof (byte_val_range b2) as H2.
    pose proof (byte_val_range b3) as H3.
    rewrite b2a_loop_bits0. cbv zeta. rewrite b2a_loop_bits2. cbv zeta.
    rewrite b2a_loop_bits4. cbv zeta.
    rewrite (shift_in_spec lc), (shift_in_spec _ (byte_val b2)),
      shift_in_spec, !sextet_spec
      by (lia || apply accum_nonneg).
    destruct (quad_sextets lc _ _ _ Hlc H1 H2 H3)
      as (E1 & E2 & E3 & E4 & _ & _).
    destruct (sextet_bounds _ _ _ H1 H2 H3) as (B1 & B2 & B3 & B4).
    destruct (decoded_bytes _ _ _ H1 H2 H3) as (D1 & D2 & D3).
    rewrite E1, E2, E3, E4.
    decode_char.
    decode_char.
    decode_char.
    decode_char.
    rewrite D1, D2, D3, IH by apply accum_nonneg.
    cbn [emit_byte]. by rewrite !byte_of_Z_val.
Qed.

Lemma a2b_b2a_base64 bs : a2b_base64 (b2a_base64 bs) = Return bs.
Proof. by apply a2b_b2a_loop. Qed.

Lemma utf8_decode_vals_ascii l :
  Forall (fun c => 0 <= c < 128) l -> utf8_decode_vals l = Some l.
Proof.
  induction 1 as [|c l Hc _ IH]; [done|].
  cbn [utf8_decode_vals].
  replace (c <? 128) with true by (symmetry; apply Z.ltb_lt; lia).
  by rewrite IH.
Qed.

Lemma b2a_char_ascii s : 0 <= byte_val (b2a_char s) < 128.
Proof.
  unfold b2a_char.
  assert (Hall : Forall (fun c => 0 <= byte_val (byte_of_Z c) < 128)
                   (0 :: table_b2a_base64)).
  { apply Forall_forall. intros c Hc.
    assert (Hb : forallb (fun c => (0 <=? byte_val (byte_of_Z c)) &&
                                   (byte_val (byte_of_Z c) <? 128))
                   (0 :: table_b2a_base64) = true) by (vm_compute; reflexivity).
    rewrite forallb_forall in Hb. apply list_elem_of_In in Hc.
    apply Hb in Hc. lia. }
  rewrite Forall_forall in Hall. apply Hall.
  destruct (nth_in_or_default (Z.to_nat s) table_b2a_base64 0) as [Hin| ->].
  - right. by apply list_elem_of_In.
  - left.
Qed.

Lemma b2a_groups_ascii fuel lc lb :
  Forall (fun b => 0 <= byte_val b < 128) (b2a_groups fuel lc lb).1.
Proof.
  revert lb. induction fuel as [|fuel IH]; intros lb; simpl; [done|].
  destruct (6 <=? lb); [|done].
  specialize (IH (lb - 6)). destruct (b2a_groups fuel lc (lb - 6)) as [cs lb'].
  simpl in *. constructor; [apply b2a_char_ascii|done].
Qed.

Lemma b2a_loop_ascii bs lc lb :
  Forall (fun b => 0 <= byte_val b < 128) (b2a_loop bs lc lb).
Proof.
  revert lc lb. induction bs as [|b bs IH]; intros lc lb.
  - cbn [b2a_loop].
    repeat case_match; repeat constructor;
      try apply b2a_char_ascii; by vm_compute.
  - cbn [b2a_loop].
    pose proof (b2a_groups_ascii (Z.to_nat (lb + 8))
      (Z.lor (Z.shiftl lc 8) (byte_val b) mod 2 ^ 32) (lb + 8)) as Hg.
    destruct (b2a_groups _ _ _) as [cs lb']. simpl in Hg.
    apply Forall_app. split; [done|apply IH].
Qed.

Lemma utf8_decode_b64encode bs :
  utf8_decode (b64encode bs) = Return (map byte_val (b64encode bs)).
Proof.
  unfold utf8_decode. rewrite utf8_decode_vals_ascii; [done|].
  apply Forall_map. apply b2a_loop_ascii.
Qed.

Lemma b64decode_b64encode bs :
  b64decode (map byte_val (b64encode bs)) = Return bs.
Proof.
  unfold b64decode, bytes_from_decode_data, ascii_encode.
  assert (Hascii : forallb (fun c => (0 <=? c) && (c <? 128))
                     (map byte_val (b64encode bs)) = true).
  { apply forallb_forall. intros c [b [<- Hin]]%in_map_iff.
    pose proof (byte_val_range b).
    pose proof (b2a_loop_ascii bs 0 0) as Hall.
    rewrite Forall_forall in Hall. 
    assert (Hb : b ∈ b2a_loop bs 0 0) by (by apply list_elem_of_In).
    apply Hall in Hb. lia. }
  rewrite Hascii. rewrite map_map.
  rewrite (map_ext _ id) by (intros; apply byte_of_Z_val).
  rewrite map_id. apply a2b_b2a_base64.
Qed.

(** C2.  When [imgstring] is base64 text, that is when [b64decode] accepts
    it and gives the bytes [imgdata], and the path can be written, then
    [decodeImage] succeeds, [encodeImageIntoBase64] on the same path
    succeeds, and the text it returns decodes to the same bytes
    [imgdata]. *)
Theorem decodeImage_encodeImageIntoBase64_roundtrip
    (imgstring : pystr) (p : path) (w : world) (imgdata : list byte) :
  b64decode imgstring = Return imgdata ->
  writable (w_fs w) p = true ->
  exists w1 s',
    decodeImage imgstring p w = (Return tt, w1) /\
    encodeImageIntoBase64 p w1 = (Return s', w1) /\
    b64decode s' = Return imgdata.
Proof.
  intros Hdec Hw.
  exists (World (<[p := File imgdata]> (w_fs w))
            (w_log w ++ [LogRecord INFO
               ("Image decoded and saved at: " +:+ path_str p)])),
    (map byte_val (b64encode imgdata)).
  split; [|split].
  - unfold decodeImage, try_except, mbind, M_bind, bind.
    rewrite Hdec. cbn [lift ret].
    unfold open_write, writable in *.
    destruct (resolve (w_fs w) p) as [[b|]| |] eqn:E; try done.
    + unfold append_file. cbn [w_fs w_log]. rewrite lookup_insert_eq.
      unfold logger_info. cbn. by rewrite insert_insert_eq.
    + rewrite Hw. unfold append_file. cbn [w_fs w_log]. rewrite lookup_insert_eq.
      unfold logger_info. cbn. by rewrite insert_insert_eq.
  - unfold encodeImageIntoBase64, try_except, mbind, M_bind, bind, read_file.
    cbn [w_fs]. rewrite resolve_insert_writable by done.
    by rewrite utf8_decode_b64encode.
  - apply b64decode_b64encode.
Qed.

End Base64Facts.

(** ** Directories *)

(** Decide the [isinstance] tests on exceptions whose class is known. *)
Ltac isinstance_known :=
  repeat match goal with
  | |- context [isinstance ?e ?c] =>
      let b := eval vm_compute in (isinstance e c) in
      change (isinstance e c) with b
  end.

Lemma isdir_prefix fs p c : isdir fs (p ++ [c]) = true -> isdir fs p = true.
Proof.
  rewrite !isdir_spec. intros H i Hi. specialize (H i).
  rewrite take_app_le in H by done. apply H. rewrite length_app. lia.
Qed.

Lemma isdir_resolve fs p : isdir fs p = true -> resolve fs p = Found Dir.
Proof. unfold isdir. by destruct (resolve fs p) as [[|]| |]. Qed.

Lemma isdir_exists fs p : isdir fs p = true -> path_exists fs p = true.
Proof. intros H. unfold path_exists. by rewrite (isdir_resolve _ _ H). Qed.

Lemma dirname_snoc p c : dirname (p ++ [c]) = p.
Proof. apply removelast_last. Qed.

(** Creating a directory keeps every directory. *)
Lemma isdir_insert_new fs p q x :
  node_at fs p = None -> isdir fs q = true -> isdir (<[p := x]> fs) q = true.
Proof.
  intros Hp. rewrite !isdir_spec. intros H i Hi.
  rewrite node_at_insert_ne; [by apply H| |].
  - intros ->. rewrite H in Hp by done. done.
  - intros ->. done.
Qed.

Lemma mkdir_spec p w r w' :
  mkdir p w = (r, w') ->
  (forall q, isdir (w_fs w) q = true -> isdir (w_fs w') q = true) /\
  w_log w' = w_log w /\
  match r with
  | Return _ => isdir (w_fs w') p = true
  | Raise e => w' = w /\ isinstance e OSError = true
  end.
Proof.
  unfold mkdir. destruct (resolve (w_fs w) p) as [n| |] eqn:E.
  - intros [= <- <-]. done.
  - destruct (isdir (w_fs w) (dirname p)) eqn:Hd.
    + intros [= <- <-]. cbn [w_fs w_log].
      destruct (walk_enoent_parent _ _ E Hd) as [Hnone Hpre].
      assert (Hp : p <> []) by (by intros ->).
      split; [|split; [done|]].
      * intros q. by apply isdir_insert_new.
      * apply isdir_spec. intros i Hi.
        destruct (decide (i = length p)) as [->|Hne].
        -- rewrite firstn_all. by apply node_at_insert_eq.
        -- rewrite node_at_insert_ne
             by (done || apply not_eq_sym, take_ne_self; lia).
           apply Hpre. lia.
    + intros [= <- <-]. done.
  - intros [= <- <-]. done.
Qed.

Lemma makedirs_rev_spec depth rname w r w' :
  makedirs_rev depth rname true w = (r, w') ->
  (forall q, isdir (w_fs w) q = true -> isdir (w_fs w') q = true) /\
  w_log w' = w_log w /\
  (r = Return tt -> isdir (w_fs w') (rev rname) = true).
Proof.
  revert depth w r w'.
  induction rname as [|tail rhead IH]; intros depth w r w'.
  - cbn [makedirs_rev rev]. unfold mbind, M_bind, bind, ret, try_except.
    destruct (mkdir [] w) as [r0 w0] eqn:Em.
    apply mkdir_spec in Em as (Hm & Hl & Hr).
    destruct r0 as [[]|e].
    + intros [= <- <-]. done.
    + destruct Hr as [-> Hos]. rewrite Hos.
      unfold get_fs. cbn. intros [= <- <-]. done.
  - cbn [makedirs_rev]. unfold mbind, M_bind, bind, get_fs.
    set (pre := if negb (path_exists (w_fs w) (rev rhead)) then _ else _).
    assert (Hpre : exists r1 w1, pre w = (r1, w1) /\
              (forall q, isdir (w_fs w) q = true -> isdir (w_fs w1) q = true) /\
              w_log w1 = w_log w /\
              (forall e, r1 = Raise e -> isinstance e FileExistsError = false)).
    { subst pre. destruct (negb _).
      - unfold try_except.
        destruct (match depth with
                  | O => raise recursion_error
                  | S depth' => makedirs_rev depth' rhead true
                  end w) as [r1 w1] eqn:E1.
        assert (Hml : (forall q, isdir (w_fs w) q = true ->
                                 isdir (w_fs w1) q = true) /\
                      w_log w1 = w_log w).
        { destruct depth as [|depth'].
          - unfold raise in E1. by simplify_eq.
          - by apply IH in E1 as (? & ? & _). }
        destruct Hml as [Hm Hl].
        destruct r1 as [[]|e].
        + eexists _, _. split; [done|]. done.
        + destruct (isinstance e FileExistsError) eqn:Ei.
          * eexists _, _. split; [done|]. done.
          * eexists _, _. split; [done|]. repeat split; try done. congruence.
      - eexists _, _. split; [done|]. done. }
    destruct Hpre as (r1 & w1 & -> & Hm1 & Hl1 & Hr1).
    destruct r1 as [[]|e].
    + unfold try_except.
      destruct (mkdir (rev (tail :: rhead)) w1) as [r2 w2] eqn:Em.
      apply mkdir_spec in Em as (Hm2 & Hl2 & Hr2).
      destruct r2 as [[]|e2].
      * intros [= <- <-]. split; [auto|]. split; [congruence|done].
      * destruct Hr2 as [-> Hos]. rewrite Hos. cbn.
        destruct (isdir (w_fs w1) _) eqn:Hd; cbn; intros [= <- <-];
          repeat split; try done.
    + intros [= <- <-]. split; [done|]. split; [done|]. done.
Qed.

(** On a directory that exists, [makedirs] changes nothing. *)
Lemma makedirs_rev_existing depth rname w :
  isdir (w_fs w) (rev rname) = true ->
  makedirs_rev depth rname true w = (Return tt, w).
Proof.
  intros Hd. destruct rname as [|tail rhead].
  - cbn [makedirs_rev rev] in *.
    unfold mbind, M_bind, bind, ret, try_except, mkdir.
    rewrite (isdir_resolve _ _ Hd). by isinstance_known.
  - cbn [makedirs_rev]. unfold mbind, M_bind, bind, get_fs.
    cbn [rev] in Hd. rewrite (isdir_exists _ _ (isdir_prefix _ _ _ Hd)).
    cbn [negb ret]. unfold try_except, mkdir. cbn [rev].
    rewrite (isdir_resolve _ _ Hd). isinstance_known. cbn. by rewrite Hd.
Qed.

Lemma create_directories_spec ps verbose w w1 :
  create_directories ps verbose w = (Return tt, w1) ->
  (forall q, isdir (w_fs w) q = true -> isdir (w_fs w1) q = true) /\
  Forall (fun p => isdir (w_fs w1) p = true) ps.
Proof.
  revert w. induction ps as [|p ps IH]; intros w.
  - intros [= <-]. done.
  - cbn [create_directories]. unfold mbind, M_bind, bind, try_except, makedirs.
    destruct (makedirs_rev makedirs_depth (rev p) true w) as [r0 w0] eqn:E0.
    apply makedirs_rev_spec in E0 as (Hm & Hl & Hr).
    destruct r0 as [[]|e].
    + rewrite rev_involutive in Hr.
      set (w0' := (if verbose then logger_info _ else ret tt) w0).
      assert (Hw0 : exists l, w0' = (Return tt, World (w_fs w0) l)).
      { subst w0'. destruct w0 as [fs0 l0]. by destruct verbose; eexists. }
      destruct Hw0 as [l ->]. intros [Hm' Hall]%IH. cbn [w_fs] in *.
      split; [auto|]. constructor; [|done].
      apply Hm'. by apply Hr.
    + by destruct (isinstance e OSError).
Qed.

Lemma create_directories_existing ps verbose w :
  Forall (fun p => isdir (w_fs w) p = true) ps ->
  create_directories ps verbose w =
    (Return tt, World (w_fs w) (w_log w ++ created_messages ps verbose)).
Proof.
  revert w. induction ps as [|p ps IH]; intros w Hall.
  - cbn. destruct w. unfold created_messages. destruct verbose; cbn;
      by rewrite app_nil_r.
  - inversion Hall as [|? ? Hp Hps]; subst.
    cbn [create_directories]. unfold mbind, M_bind, bind, try_except, makedirs.
    rewrite makedirs_rev_existing by (by rewrite rev_involutive).
    destruct verbose.
    + unfold logger_info at 1. rewrite IH by done. cbn [w_fs w_log].
      unfold created_messages. cbn [map]. by rewrite <- app_assoc.
    + cbn [ret]. rewrite IH by done. done.
Qed.

(** C8.  [create_directories] is idempotent: after a call that succeeded,
    a second call with the same list succeeds too and leaves the file
    system exactly as the first call left it, with every listed path a
    directory. *)
Theorem create_directories_idempotent ps verbose w w1 :
  create_directories ps verbose w = (Return tt, w1) ->
  exists w2,
    create_directories ps verbose w1 = (Return tt, w2) /\
    w_fs w2 = w_fs w1 /\
    Forall (fun p => isdir (w_fs w2) p = true) ps.
Proof.
  intros [_ Hall]%create_directories_spec.
  eexists. split; [by apply create_directories_existing|]. done.
Qed.

(** ** [get_size] *)

(** C9.  On a file of exactly 2048 bytes [get_size] returns ["~ 2 KB"],
    and on a file of exactly one byte it returns ["~ 0 KB"]. *)
Theorem get_size_2048_and_1 (p : path) (w : world) (content : list byte) :
  resolve (w_fs w) p = Found (File content) ->
  (length content = 2048%nat -> get_size p w = (Return "~ 2 KB", w)) /\
  (length content = 1%nat -> get_size p w = (Return "~ 0 KB", w)).
Proof.
  intros Hfile.
  unfold get_size, try_except, mbind, M_bind, bind, getsize.
  rewrite Hfile. split; intros ->; reflexivity.
Qed.

(** ** [read_yaml] *)

Lemma read_yaml_falsy (p : path) (w : world) (data : list byte)
    (content : pyval) :
  resolve (w_fs w) p = Found (File data) ->
  yaml_safe_load data = Return content ->
  truthy content = false ->
  read_yaml p w = (Raise (yaml_empty_error p), w).
Proof.
  intros Hfile Hload Hfalsy.
  unfold read_yaml, try_except, mbind, M_bind, bind, read_file.
  rewrite Hfile, Hload. cbn [lift ret]. rewrite Hfalsy. cbn [negb raise].
  by isinstance_known.
Qed.

(** C4.  On an existing file that is empty or holds the null document,
    that is on one [yaml.safe_load] answers [None] for, [read_yaml] raises
    a [ValueError] that says the file is empty; it returns nothing. *)
Theorem read_yaml_empty_or_null (p : path) (w : world) (data : list byte) :
  resolve (w_fs w) p = Found (File data) ->
  yaml_safe_load data = Return PyNone ->
  read_yaml p w = (Raise (yaml_empty_error p), w) /\
  isinstance (yaml_empty_error p) ValueError = true /\
  forall b w', read_yaml p w <> (Return b, w').
Proof.
  intros Hfile Hload.
  rewrite (read_yaml_falsy p w data PyNone) by done.
  split; [done|]. split; [done|]. intros b w' [=].
Qed.

(** C10.  Whenever the document parses to a falsy value, [read_yaml]
    raises the [ValueError] with the "empty" message instead of returning
    the value, though the file holds a valid document that is not empty
    text; [0], [False], the empty string, the empty sequence and the empty
    mapping are such values. *)
Theorem read_yaml_falsy_content (p : path) (w : world) (data : list byte)
    (content : pyval) :
  resolve (w_fs w) p = Found (File data) ->
  yaml_safe_load data = Return content ->
  truthy content = false ->
  read_yaml p w = (Raise (yaml_empty_error p), w) /\
  exn_type (yaml_empty_error p) = ValueError /\
  Forall (fun v => truthy v = false)
    [PyInt 0; PyBool false; PyStr []; PyList []; PyDict []].
Proof.
  intros Hfile Hload Hfalsy. split; [by eapply read_yaml_falsy|].
  split; [done|]. by repeat constructor.
Qed.

(** C3, as amended.  When the document parses to a mapping that is not
    empty, [read_yaml] succeeds, logs one record and returns a box with
    the items of the document: looking a key up in the box gives what the
    document holds for it, and so does attribute access for every string
    key that is not the name of an attribute of the class. *)
Theorem read_yaml_mapping (p : path) (w : world) (data : list byte)
    (items : list (pyval * pyval)) :
  resolve (w_fs w) p = Found (File data) ->
  yaml_safe_load data = Return (PyDict items) ->
  items <> [] ->
  exists b,
    read_yaml p w =
      (Return b,
       World (w_fs w)
         (w_log w ++
          [LogRecord INFO
             ("YAML file: " +:+ path_str p +:+ " loaded successfully")])) /\
    (forall key, box_getitem b key = dict_get items key) /\
    (forall name v,
       dict_get items (PyStr name) = Some v ->
       name ∉ dict_methods -> box_class_attr name = false ->
       box_getattr b name = AttrValue v).
Proof.
  intros Hfile Hload Hne. exists (Box items). split; [|split].
  - unfold read_yaml, try_except, mbind, M_bind, bind, read_file.
    rewrite Hfile, Hload. cbn [lift ret truthy].
    rewrite bool_decide_eq_false_2 by done. done.
  - done.
  - intros name v Hget Hmeth Hattr. unfold box_getattr, box_getitem.
    rewrite bool_decide_eq_false_2, Hattr by done. cbn [orb box_items].
    by rewrite Hget.
Qed.

(** ** The decoder never runs out of fuel *)

Lemma skip_ws_length s : length (skip_ws s) <= length s.
Proof.
  induction s as [|c s IH]; [done|]. cbn [skip_ws].
  destruct (is_ws c); cbn [length]; lia.
Qed.

Lemma add_char_inv {A} c (r : outcome (pystr * A)) str rest :
  add_char c r = Return (str, rest) ->
  exists str', r = Return (str', rest) /\ str = c :: str'.
Proof. destruct r as [[str' rest']|e]; [|done]. intros [= <- <-]. eauto. Qed.

Lemma add_char_raise {A} c (r : outcome (pystr * A)) e :
  add_char c r = Raise e -> r = Raise e.
Proof. destruct r as [[str' rest']|e']; [done|]. by intros [= ->]. Qed.

Lemma scanned_add_char c n r :
  scanned n r -> scanned n (add_char c r).
Proof. by destruct r as [[str rest]|e]. Qed.

Lemma scanned_mono {A} n m (r : outcome (A * pystr)) :
  n <= m -> scanned n r -> scanned m r.
Proof. intros Hnm. destruct r as [[a rest]|e]; [|done]. cbn. lia. Qed.

Lemma scanstring_scanned s : scanned (S (length s)) (scanstring s).
Proof.
  remember (length s) as n eqn:Hn. revert s Hn.
  induction n as [n IH] using lt_wf_ind. intros s ->.
  assert (Hrec : forall r, length r < length s ->
            forall c, scanned (S (length s)) (add_char c (scanstring r))).
  { intros r Hr c. apply scanned_add_char.
    eapply scanned_mono; [|by eapply IH]. lia. }
  destruct s as [|c r]; [done|]. cbn [scanstring].
  repeat case_match; subst; try done;
    try (cbn [scanned length]; lia);
    apply Hrec; cbn [length]; lia.
Qed.

Lemma span_digits_length s ds rest :
  span_digits s = (ds, rest) -> length rest <= length s.
Proof.
  revert ds rest. induction s as [|c s IH]; intros ds rest.
  - by intros [= <- <-].
  - cbn [span_digits]. destruct (is_digit c).
    + destruct (span_digits s) as [ds' rest'] eqn:E. intros [= <- <-].
      specialize (IH _ _ eq_refl). cbn [length]. lia.
    + by intros [= <- <-].
Qed.

Lemma match_integer_length s text rest :
  match_integer s = Some (text, rest) -> length rest < length s.
Proof.
  unfold match_integer.
  repeat case_match; subst; try done; simplify_eq; intros;
    repeat match goal with
    | H : span_digits _ = _ |- _ => apply span_digits_length in H
    end; simplify_eq; cbn [length] in *; lia.
Qed.

Lemma match_frac_length s text rest :
  match_frac s = Some (text, rest) -> length rest <= length s.
Proof.
  unfold match_frac.
  repeat case_match; subst; try done; simplify_eq; intros;
    repeat match goal with
    | H : span_digits _ = _ |- _ => apply span_digits_length in H
    end; simplify_eq; cbn [length] in *; lia.
Qed.

Lemma match_exp_length s text rest :
  match_exp s = Some (text, rest) -> length rest <= length s.
Proof.
  unfold match_exp.
  repeat case_match; subst; try done; simplify_eq; intros;
    repeat match goal with
    | H : span_digits _ = _ |- _ => apply span_digits_length in H
    end; simplify_eq; cbn [length] in *; lia.
Qed.

Lemma parse_int_ValueError text e :
  parse_int text = Raise e -> isinstance e ValueError = true.
Proof. unfold parse_int. repeat case_match; try done; by intros [= <-]. Qed.

Lemma scan_number_scanned s res :
  scan_number s = Some res -> scanned (length s) res.
Proof.
  unfold scan_number.
  destruct (match_integer s) as [[integer s1]|] eqn:Ei; [|done].
  apply match_integer_length in Ei.
  destruct (match_frac s1) as [[f s2]|] eqn:Ef.
  - apply match_frac_length in Ef.
    destruct (match_exp s2) as [[x s3]|] eqn:Ex.
    + apply match_exp_length in Ex.
      repeat case_match; intros [= <-]; cbn [scanned]; try lia;
        by eapply parse_int_ValueError.
    + repeat case_match; intros [= <-]; cbn [scanned]; try lia;
        by eapply parse_int_ValueError.
  - destruct (match_exp s1) as [[x s3]|] eqn:Ex.
    + apply match_exp_length in Ex.
      repeat case_match; intros [= <-]; cbn [scanned]; try lia;
        by eapply parse_int_ValueError.
    + repeat case_match; intros [= <-]; cbn [scanned]; try lia;
        by eapply parse_int_ValueError.
Qed.

Lemma strip_prefix_length word s rest :
  strip_prefix word s = Some rest -> length rest + length word = length s.
Proof.
  revert s. induction word as [|w word IH]; intros s.
  - by intros [= ->].
  - destruct s as [|c s]; [done|]. cbn [strip_prefix].
    case_match; [|done]. intros Hs%IH. cbn [length]. lia.
Qed.

Lemma strip_prefix_shorter word s rest :
  0 < length word -> strip_prefix word s = Some rest ->
  length rest < length s.
Proof. intros Hw H%strip_prefix_length. lia. Qed.

Lemma skip_ws_cons_length s c r :
  skip_ws s = c :: r -> length r < length s.
Proof.
  intros E. pose proof (skip_ws_length s) as H. rewrite E in H.
  cbn [length] in H. lia.
Qed.

Lemma leaves_suffix_add_char c s r :
  leaves_suffix s r -> leaves_suffix s (add_char c r).
Proof. by destruct r as [[str rest]|e]. Qed.

Lemma leaves_suffix_mono {A} s s' (r : outcome (A * pystr)) :
  s `suffix_of` s' -> leaves_suffix s r -> leaves_suffix s' r.
Proof.
  intros Hs. destruct r as [[a rest]|e]; [|done]. cbn.
  intros Hr. by etrans.
Qed.

Ltac suffix_steps :=
  repeat first [done | assumption | apply suffix_cons_r].

Lemma scanstring_suffix s : leaves_suffix s (scanstring s).
Proof.
  remember (length s) as n eqn:Hn. revert s Hn.
  induction n as [n IH] using lt_wf_ind. intros s ->.
  assert (Hrec : forall r, length r < length s -> r `suffix_of` s ->
            forall c, leaves_suffix s (add_char c (scanstring r))).
  { intros r Hr Hs c. apply leaves_suffix_add_char.
    eapply leaves_suffix_mono; [done|by eapply IH]. }
  destruct s as [|c r]; [done|]. cbn [scanstring].
  repeat case_match; subst; try done;
    try (cbn [leaves_suffix]; by suffix_steps);
    (apply Hrec; [cbn [length]; lia|by suffix_steps]).
Qed.

Lemma span_digits_suffix s ds rest :
  span_digits s = (ds, rest) -> rest `suffix_of` s.
Proof.
  revert ds rest. induction s as [|c s IH]; intros ds rest.
  - by intros [= <- <-].
  - cbn [span_digits]. destruct (is_digit c).
    + destruct (span_digits s) as [ds' rest'] eqn:E. intros [= <- <-].
      apply suffix_cons_r. by eapply IH.
    + by intros [= <- <-].
Qed.

Ltac digits_suffix :=
  repeat match goal with
    | H : span_digits _ = _ |- _ => apply span_digits_suffix in H
    end;
  simplify_eq; suffix_steps.

Lemma match_integer_suffix s text rest :
  match_integer s = Some (text, rest) -> rest `suffix_of` s.
Proof.
  unfold match_integer.
  repeat case_match; subst; try done; simplify_eq; intros; by digits_suffix.
Qed.

Lemma match_frac_suffix s text rest :
  match_frac s = Some (text, rest) -> rest `suffix_of` s.
Proof.
  unfold match_frac.
  repeat case_match; subst; try done; simplify_eq; intros; by digits_suffix.
Qed.

Lemma match_exp_suffix s text rest :
  match_exp s = Some (text, rest) -> rest `suffix_of` s.
Proof.
  unfold match_exp.
  repeat case_match; subst; try done; simplify_eq; intros; by digits_suffix.
Qed.

Lemma scan_number_suffix s res :
  scan_number s = Some res -> leaves_suffix s res.
Proof.
  unfold scan_number.
  destruct (match_integer s) as [[integer s1]|] eqn:Ei; [|done].
  apply match_integer_suffix in Ei.
  assert (Hfrac : forall f s2, match_frac s1 = Some (f, s2) ->
            s2 `suffix_of` s).
  { intros f s2 H%match_frac_suffix. by etrans. }
  assert (Hexp : forall s2 x s3, s2 `suffix_of` s ->
            match_exp s2 = Some (x, s3) -> s3 `suffix_of` s).
  { intros s2 x s3 Hs2 H%match_exp_suffix. by etrans. }
  destruct (match_frac s1) as [[f s2]|] eqn:Ef.
  - specialize (Hfrac _ _ eq_refl).
    destruct (match_exp s2) as [[x s3]|] eqn:Ex.
    + specialize (Hexp _ _ _ Hfrac Ex).
      repeat case_match; intros [= <-]; by cbn [leaves_suffix].
    + repeat case_match; intros [= <-]; by cbn [leaves_suffix].
  - destruct (match_exp s1) as [[x s3]|] eqn:Ex.
    + specialize (Hexp _ _ _ Ei Ex).
      repeat case_match; intros [= <-]; by cbn [leaves_suffix].
    + repeat case_match; intros [= <-]; by cbn [leaves_suffix].
Qed.

Lemma strip_prefix_suffix word s rest :
  strip_prefix word s = Some rest -> rest `suffix_of` s.
Proof.
  revert s. induction word as [|w word IH]; intros s.
  - by intros [= ->].
  - destruct s as [|c s]; [done|]. cbn [strip_prefix].
    case_match; [|done]. intros Hs%IH. by apply suffix_cons_r.
Qed.

Lemma skip_ws_suffix s : skip_ws s `suffix_of` s.
Proof.
  induction s as [|c s IH]; [done|]. cbn [skip_ws].
  destruct (is_ws c); [by apply suffix_cons_r|done].
Qed.

Lemma brackets_app s t : brackets (s ++ t) = brackets s + brackets t.
Proof.
  induction s as [|c s IH]; [done|]. cbn [app brackets]. rewrite IH. lia.
Qed.

Lemma brackets_suffix r s : r `suffix_of` s -> brackets r <= brackets s.
Proof. intros [k ->]. rewrite brackets_app. lia. Qed.

Lemma brackets_cons c s : brackets s <= brackets (c :: s).
Proof. cbn [brackets]. lia. Qed.

Lemma skip_ws_brackets s : brackets (skip_ws s) <= brackets s.
Proof. apply brackets_suffix, skip_ws_suffix. Qed.

(** A scanner that does not recurse answers as the recursive one may. *)
Lemma scanned_decoded {A} depth n s (r : outcome (A * pystr)) :
  scanned n r -> n <= length s -> leaves_suffix s r -> decoded depth s r.
Proof.
  destruct r as [[a rest]|e]; cbn; [|by left].
  intros Hlen Hn Hs%brackets_suffix. lia.
Qed.

(** The answer on the rest of a text is an answer on the text. *)
Lemma decoded_mono {A} depth depth' s s' (r : outcome (A * pystr)) :
  decoded depth s r -> length s <= length s' ->
  brackets s + (depth' - depth) <= brackets s' ->
  decoded depth' s' r.
Proof.
  destruct r as [[a rest]|e]; cbn.
  - intros [Hlen Hb] Hs Hd. lia.
  - intros [He|[-> Hd]] Hs Hb; [by left|]. right. split; [done|lia].
Qed.


(** The decoder never runs out of fuel, and only brackets nested deeper
    than [depth] make it raise a [RecursionError]. *)
Lemma decoder_scanned fuel :
  (forall depth s, 3 * length s + 1 <= fuel ->
     decoded depth s (scan_once fuel depth s)) /\
  (forall depth s, 3 * length s + 3 <= fuel ->
     decoded depth s (JSONArray fuel depth s)) /\
  (forall depth s, 3 * length s + 2 <= fuel ->
     decoded depth s (array_values fuel depth s)) /\
  (forall depth s, 3 * length s + 3 <= fuel ->
     decoded depth s (JSONObject fuel depth s)) /\
  (forall depth s, 3 * length s + 2 <= fuel ->
     decoded depth s (object_pairs fuel depth s)).
Proof.
  induction fuel as [|fuel (IHs & IHa & IHv & IHo & IHp)];
    [repeat split; intros; lia|].
  repeat split; intros depth s Hfuel.
  - (* scan_once *)
    destruct s as [|c r]; [by left|]. cbn [scan_once length] in *.
    destruct (c =? 34)%Z eqn:E34.
    { pose proof (scanstring_scanned r) as H.
      pose proof (scanstring_suffix r) as H'.
      destruct (scanstring r) as [[str rest]|e]; [|by left].
      cbn in H, H'. apply brackets_suffix in H'.
      pose proof (brackets_cons c r). cbn [decoded length]. lia. }
    destruct (c =? 123)%Z eqn:E123.
    { destruct depth as [|depth].
      - right. split; [done|]. cbn [brackets]. rewrite E123, orb_true_r. lia.
      - eapply decoded_mono; [apply IHo; lia|cbn [length]; lia|].
        cbn [brackets]. rewrite E123, orb_true_r. lia. }
    destruct (c =? 91)%Z eqn:E91.
    { destruct depth as [|depth].
      - right. split; [done|]. cbn [brackets]. rewrite E91. cbn [orb]. lia.
      - eapply decoded_mono; [apply IHa; lia|cbn [length]; lia|].
        cbn [brackets]. rewrite E91. cbn [orb]. lia. }
    repeat case_match; subst;
      repeat match goal with
      | H : strip_prefix _ _ = Some _ |- _ =>
          pose proof (brackets_suffix _ _ (strip_prefix_suffix _ _ _ H));
          apply strip_prefix_shorter in H;
            [cbn [length] in H|vm_compute; lia]
      | H : scan_number _ = Some _ |- _ =>
          pose proof (scan_number_suffix _ _ H);
          apply scan_number_scanned in H; cbn [length] in H
      end; try (by left); try (cbn [decoded length]; lia).
    all: eapply scanned_decoded; [done|cbn [length]; lia|done].
  - (* JSONArray *)
    cbn [JSONArray]. destruct (skip_ws s) as [|c r] eqn:E; [by left|].
    pose proof (skip_ws_length s) as Hws.
    pose proof (skip_ws_brackets s) as Hwb. rewrite E in Hws, Hwb.
    pose proof (brackets_cons c r).
    destruct (c =? 93)%Z; [cbn [decoded length] in *; lia|].
    pose proof (IHv depth (c :: r) ltac:(lia)) as H'.
    destruct (array_values fuel depth (c :: r)) as [[values rest]|e].
    + cbn [decoded] in *. lia.
    + eapply (decoded_mono depth depth (c :: r)); [done|lia|lia].
  - (* array_values *)
    cbn [array_values]. pose proof (IHs depth s ltac:(lia)) as H.
    destruct (scan_once fuel depth s) as [[value s1]|e]; [|done].
    cbn [decoded] in H. destruct H as [Hl1 Hb1].
    destruct (skip_ws s1) as [|c s2] eqn:E; [by left|].
    pose proof (skip_ws_brackets s1) as Hwb. rewrite E in Hwb.
    pose proof (brackets_cons c s2).
    apply skip_ws_cons_length in E.
    destruct (c =? 93)%Z; [cbn [decoded]; lia|].
    destruct (c =? 44)%Z; [|by left].
    pose proof (skip_ws_length s2) as Hws.
    pose proof (skip_ws_brackets s2) as Hwb2.
    pose proof (IHv depth (skip_ws s2) ltac:(lia)) as H2.
    destruct (array_values fuel depth (skip_ws s2)) as [[values rest]|e].
    + cbn [decoded] in *. lia.
    + eapply (decoded_mono depth depth (skip_ws s2)); [done|lia|lia].
  - (* JSONObject *)
    cbn [JSONObject]. destruct (skip_ws s) as [|c r] eqn:E; [by left|].
    pose proof (skip_ws_brackets s) as Hwb. rewrite E in Hwb.
    pose proof (brackets_cons c r).
    apply skip_ws_cons_length in E.
    destruct (c =? 125)%Z; [cbn [decoded]; lia|].
    destruct (c =? 34)%Z; [|by left].
    pose proof (IHp depth r ltac:(lia)) as H'.
    destruct (object_pairs fuel depth r) as [[pairs rest]|e].
    + cbn [decoded] in *. lia.
    + eapply (decoded_mono depth depth r); [done|lia|lia].
  - (* object_pairs *)
    cbn [object_pairs]. pose proof (scanstring_scanned s) as H.
    pose proof (scanstring_suffix s) as Hsuf.
    destruct (scanstring s) as [[key s1]|e]; [|by left].
    cbn [scanned] in H. cbn in Hsuf. apply brackets_suffix in Hsuf.
    destruct (skip_ws s1) as [|colon s2] eqn:E1; [by left|].
    pose proof (skip_ws_brackets s1) as Hwb1. rewrite E1 in Hwb1.
    pose proof (brackets_cons colon s2).
    apply skip_ws_cons_length in E1.
    destruct (colon =? 58)%Z; [|by left].
    pose proof (skip_ws_length s2) as Hws2.
    pose proof (skip_ws_brackets s2) as Hwb2.
    pose proof (IHs depth (skip_ws s2) ltac:(lia)) as H2.
    destruct (scan_once fuel depth (skip_ws s2)) as [[value s3]|e];
      [|eapply (decoded_mono depth depth (skip_ws s2)); [done|lia|lia]].
    cbn [decoded] in H2. destruct H2 as [Hl3 Hb3].
    destruct (skip_ws s3) as [|c s4] eqn:E3; [by left|].
    pose proof (skip_ws_brackets s3) as Hwb3. rewrite E3 in Hwb3.
    pose proof (brackets_cons c s4).
    apply skip_ws_cons_length in E3.
    destruct (c =? 125)%Z; [cbn [decoded]; lia|].
    destruct (c =? 44)%Z; [|by left].
    destruct (skip_ws s4) as [|quote s5] eqn:E4; [by left|].
    pose proof (skip_ws_brackets s4) as Hwb4. rewrite E4 in Hwb4.
    pose proof (brackets_cons quote s5).
    apply skip_ws_cons_length in E4.
    destruct (quote =? 34)%Z; [|by left].
    pose proof (IHp depth s5 ltac:(lia)) as H5.
    destruct (object_pairs fuel depth s5) as [[pairs rest]|e].
    + cbn [decoded] in *. lia.
    + eapply (decoded_mono depth depth s5); [done|lia|lia].
Qed.

(** [json.loads] answers with a value, with a [ValueError], or, on a text
    that opens more brackets than the recursion limit allows, with a
    [RecursionError]. *)
Lemma json_loads_raises s e :
  json_loads s = Raise e ->
  isinstance e ValueError = true \/
  (e = recursion_error /\ decoder_depth < brackets s).
Proof.
  assert (Hdec : json_decode (3 * length s + 3) s = Raise e ->
                 isinstance e ValueError = true \/
                 (e = recursion_error /\ decoder_depth < brackets s)).
  { unfold json_decode.
    destruct (decoder_scanned (3 * length s + 3)) as (Hs & _).
    pose proof (skip_ws_length s) as Hws.
    pose proof (skip_ws_brackets s) as Hwb.
    specialize (Hs decoder_depth (skip_ws s) ltac:(lia)).
    destruct (scan_once _ _ _) as [[obj rest]|e'].
    - destruct (skip_ws rest); [done|]. intros [= <-]. by left.
    - intros [= <-]. destruct Hs as [?|[-> ?]]; [by left|].
      right. split; [done|lia]. }
  unfold json_loads. repeat case_match; try done. intros [= <-]. by left.
Qed.

(** ** Missing files and invalid documents *)

(** C6, as amended.  On a path that does not exist, [read_yaml],
    [get_size] and [encodeImageIntoBase64] raise a [FileNotFoundError];
    [load_json] and [load_bin] raise a [ValueError] that carries the
    message of the operating system's error.  None of them returns a
    value, and the world is left as it was. *)
Theorem missing_file_errors (p : path) (w : world) :
  resolve (w_fs w) p = ENOENT ->
  read_yaml p w =
    (Raise (Exn FileNotFoundError ("YAML file not found: " +:+ path_str p)),
     w) /\
  get_size p w =
    (Raise (Exn FileNotFoundError ("File not found: " +:+ path_str p)), w) /\
  encodeImageIntoBase64 p w =
    (Raise (Exn FileNotFoundError
              ("Image file not found: " +:+ path_str p)), w) /\
  load_json p w =
    (Raise (Exn ValueError
              ("Error loading JSON file at " +:+ path_str p +:+ ": "
               +:+ exn_str (enoent p))), w) /\
  load_bin p w =
    (Raise (Exn ValueError
              ("Error loading binary file at " +:+ path_str p +:+ ": "
               +:+ exn_str (enoent p))), w).
Proof.
  intros Hmissing.
  unfold read_yaml, get_size, encodeImageIntoBase64, load_json, load_bin,
    json_load, joblib_load, getsize, try_except, mbind, M_bind, bind,
    read_file.
  rewrite Hmissing. by isinstance_known.
Qed.

(** C7, as amended.  [load_json] raises a [ValueError] when the file does
    not exist.  When the file exists and its content is not a JSON
    document it raises a [ValueError] as well, unless the brackets of the
    text nest deeper than the recursion limit allows: the decoder's
    [RecursionError] is not among the exceptions [load_json] catches and
    comes out as it is.  That happens only on a text with more opening
    brackets than [decoder_depth]. *)
Theorem load_json_ValueError_or_RecursionError (p : path) (w : world) :
  resolve (w_fs w) p = ENOENT \/
  (exists data,
     resolve (w_fs w) p = Found (File data) /\ valid_json data = false) ->
  exists e,
    load_json p w = (Raise e, w) /\
    (isinstance e ValueError = true \/
     (e = recursion_error /\
      exists data,
        resolve (w_fs w) p = Found (File data) /\
        decoder_depth < text_brackets data)).
Proof.
  intros [Hmissing|(data & Hfile & Hinvalid)].
  - unfold load_json, json_load, try_except, mbind, M_bind, bind, read_file.
    rewrite Hmissing. isinstance_known. cbn [orb].
    eexists. split; [done|]. by left.
  - unfold load_json, json_load, try_except, mbind, M_bind, bind, read_file.
    rewrite Hfile. unfold valid_json in Hinvalid.
    destruct (utf8_decode data) as [s|e] eqn:Edec.
    + cbn [lift ret]. destruct (json_loads s) as [v|e] eqn:El; [done|].
      cbn [lift raise]. apply json_loads_raises in El as [He|[-> Hdeep]].
      * destruct (isinstance e JSONDecodeError
                  || isinstance e FileNotFoundError).
        -- eexists. split; [done|]. by left.
        -- eexists. split; [done|]. by left.
      * isinstance_known. cbn [orb]. eexists. split; [done|]. right.
        split; [done|]. exists data. split; [done|].
        unfold text_brackets. by rewrite Edec.
    + unfold utf8_decode in Edec.
      destruct (utf8_decode_vals _); [done|]. injection Edec as <-.
      cbn [lift raise]. isinstance_known. cbn [orb].
      eexists. split; [done|]. by left.
Qed.

(** ** Logging *)

Lemma info_about_intro p before after :
  info_about p (LogRecord INFO (before +:+ path_str p +:+ after)).
Proof. split; [done|]. by exists before, after. Qed.

Lemma string_app_nil_r (s : string) : s +:+ "" = s.
Proof.
  induction s as [|a s IH]; [done|].
  change (String a (s +:+ "") = String a s). by f_equal.
Qed.

Lemma info_about_suffix p before :
  info_about p (LogRecord INFO (before +:+ path_str p)).
Proof.
  rewrite <- (string_app_nil_r (path_str p)). apply info_about_intro.
Qed.

Lemma create_directories_log ps verbose w w1 :
  create_directories ps verbose w = (Return tt, w1) ->
  w_log w1 = w_log w ++ created_messages ps verbose.
Proof.
  revert w. induction ps as [|p ps IH]; intros w.
  - intros [= <-]. unfold created_messages.
    destruct verbose; cbn; by rewrite app_nil_r.
  - cbn [create_directories]. unfold mbind, M_bind, bind, try_except, makedirs.
    destruct (makedirs_rev makedirs_depth (rev p) true w) as [r0 w0] eqn:E0.
    apply makedirs_rev_spec in E0 as (_ & Hl & _).
    destruct r0 as [[]|e]; [|by destruct (isinstance e OSError)].
    destruct verbose.
    + unfold logger_info at 1. intros ->%IH. cbn [w_log].
      unfold created_messages. cbn [map]. rewrite Hl. by rewrite <- app_assoc.
    + cbn [ret]. intros ->%IH. by rewrite Hl.
Qed.

Lemma created_messages_about (ps : list path) (verbose : bool) :
  Forall2 info_about (if verbose then ps else [])
    (created_messages ps verbose).
Proof.
  unfold created_messages. destruct verbose; [|constructor].
  induction ps as [|p ps IH]; [constructor|].
  cbn [map]. constructor; [apply info_about_suffix|done].
Qed.

Ltac one_record :=
  eexists [_]; split; [reflexivity|];
  constructor; [|constructor];
  first [apply info_about_suffix | apply info_about_intro].

(** C5, as amended.  A call that succeeds adds to the log exactly one
    informational record that contains the path argument when the helper
    is [read_yaml], [save_json], [load_json], [save_bin], [load_bin] or
    [decodeImage]; [create_directories] adds one such record per path when
    [verbose] is set and none otherwise; [get_size] and
    [encodeImageIntoBase64] add none. *)
Theorem successful_call_log (c : call) (w w' : world) :
  run c w = (Return tt, w') ->
  exists records,
    w_log w' = w_log w ++ records /\
    Forall2 info_about (logged_paths c) records.
Proof.
  destruct c as [p|ps verbose|p data|p|data p|p|p|s p|p];
    cbn [run logged_paths].
  - (* read_yaml *)
    unfold read_yaml, try_except, mbind, M_bind, bind, read_file, lift,
      logger_info, ret, raise.
    intros H. repeat (case_match; simplify_eq/=). one_record.
  - (* create_directories *)
    intros H%create_directories_log. eexists. split; [done|].
    apply created_messages_about.
  - (* save_json *)
    unfold save_json, json_dump, try_except, mbind, M_bind, bind, open_write,
      append_file, lift, logger_info, ret, raise.
    intros H. repeat (case_match; simplify_eq/=); one_record.
  - (* load_json *)
    unfold load_json, json_load, try_except, mbind, M_bind, bind, read_file,
      lift, logger_info, ret, raise.
    intros H. repeat (case_match; simplify_eq/=). one_record.
  - (* save_bin *)
    unfold save_bin, check_Any, mbind, M_bind, bind, raise. done.
  - (* load_bin *)
    unfold load_bin, check_Any, joblib_load, try_except, mbind, M_bind,
      bind, read_file, lift, logger_info, ret, raise.
    intros H. by repeat (case_match; simplify_eq/=).
  - (* get_size *)
    unfold get_size, getsize, try_except, mbind, M_bind, bind, ret, raise.
    intros H. repeat (case_match; simplify_eq/=);
      exists []; by rewrite app_nil_r.
  - (* decodeImage *)
    unfold decodeImage, try_except, mbind, M_bind, bind, open_write,
      append_file, lift, logger_info, ret, raise.
    intros H. repeat (case_match; simplify_eq/=); one_record.
  - (* encodeImageIntoBase64 *)
    unfold encodeImageIntoBase64, try_except, mbind, M_bind, bind, read_file,
      lift, ret, raise.
    intros H. repeat (case_match; simplify_eq/=).
    exists []. by rewrite app_nil_r.
Qed.

(** ** JSON text: strings *)

Section JsonStrings.
Local Open Scope Z_scope.

Lemma hex_value_hex_digit d :
  0 <= d < 16 -> hex_value (hex_digit d) = Some d.
Proof.
  intros Hd.
  assert (Hall : forallb (fun n =>
            bool_decide (hex_value (hex_digit (Z.of_nat n)) = Some (Z.of_nat n)))
          (seq 0 16) = true) by (vm_compute; reflexivity).
  rewrite forallb_forall in Hall.
  assert (Hin : In (Z.to_nat d) (seq 0 16)) by (apply in_seq; lia).
  specialize (Hall _ Hin). rewrite Z2Nat.id in Hall by lia.
  by apply bool_decide_eq_true in Hall.
Qed.

Lemma decode_hex4_hex4 n :
  0 <= n < 65536 ->
  decode_hex4 (hex_digit (n / 4096 mod 16)) (hex_digit (n / 256 mod 16))
    (hex_digit (n / 16 mod 16)) (hex_digit (n mod 16)) = Some n.
Proof.
  intros Hn. unfold decode_hex4.
  rewrite !hex_value_hex_digit by (apply Z.mod_pos_bound; lia).
  cbn [mbind option_bind]. f_equal.
  assert (H1 : 0 <= n / 4096 mod 16 < 16) by (apply Z.mod_pos_bound; lia).
  assert (H2 : 0 <= n / 256 mod 16 < 16) by (apply Z.mod_pos_bound; lia).
  assert (H3 : 0 <= n / 16 mod 16 < 16) by (apply Z.mod_pos_bound; lia).
  assert (H4 : 0 <= n mod 16 < 16) by (apply Z.mod_pos_bound; lia).
  rewrite !lor_shiftl_add; change (2 ^ 4) with 16; try lia.
  Z.div_mod_to_equations. lia.
Qed.

(** The four shapes an escaped character takes. *)
Lemma escape_char_cases c :
  0 <= c < 0x110000 ->
  (escape_char c = [c] /\ 32 <= c /\ c <> 34 /\ c <> 92) \/
  (exists e, escape_char c = [92; e] /\ e <> 117 /\ BACKSLASH e = Some c) \/
  (escape_char c = 92 :: 117 :: hex4 c /\ c < 0x10000) \/
  (0x10000 <= c /\
   escape_char c =
     92 :: 117 :: hex4 (0xd800 + (c - 0x10000) / 1024) ++
     92 :: 117 :: hex4 (0xdc00 + (c - 0x10000) mod 1024)).
Proof.
  intros Hc. unfold escape_char, ESCAPE_DCT.
  destruct (Z.eqb_spec c 92) as [->|H92];
    [right; left; exists 92; by repeat split|].
  destruct (Z.eqb_spec c 34) as [->|H34];
    [right; left; exists 34; by repeat split|].
  cbn [orb].
  destruct (Z.leb_spec 32 c) as [H32|H32]; cbn [andb negb].
  - destruct (Z.leb_spec c 126) as [H126|H126]; cbn [negb].
    + left. by repeat split.
    + repeat match goal with
        | |- context [Z.eqb c ?k] =>
            destruct (Z.eqb_spec c k); [lia|]
        end.
      replace (c <? 32) with false by (symmetry; apply Z.ltb_ge; lia).
      rewrite andb_false_r.
      destruct (Z.ltb_spec c 0x10000) as [Hlt|Hge]; [by right; right; left|].
      right; right; right. split; [done|].
      assert (Hn : 0 <= c - 65536 < 1048576) by lia.
      change 0x3ff with (2 ^ 10 - 1).
      rewrite !land_mask, Z.shiftr_div_pow2 by lia.
      change (2 ^ 10) with 1024.
      rewrite (Z.mod_small ((c - 65536) / 1024))
        by (split; [apply Z.div_pos; lia|apply Z.div_lt_upper_bound; lia]).
      change 0xd800 with (Z.shiftl 54 10). change 0xdc00 with (Z.shiftl 55 10).
      rewrite !lor_shiftl_add;
        change (2 ^ 10) with 1024;
        try (apply Z.mod_pos_bound; lia);
        try (split; [apply Z.div_pos; lia|apply Z.div_lt_upper_bound; lia]);
        try lia.
      done.
  - destruct (Z.eqb_spec c 8) as [->|?];
      [right; left; exists 98; by repeat split|].
    destruct (Z.eqb_spec c 12) as [->|?];
      [right; left; exists 102; by repeat split|].
    destruct (Z.eqb_spec c 10) as [->|?];
      [right; left; exists 110; by repeat split|].
    destruct (Z.eqb_spec c 13) as [->|?];
      [right; left; exists 114; by repeat split|].
    destruct (Z.eqb_spec c 9) as [->|?];
      [right; left; exists 116; by repeat split|].
    replace (0 <=? c) with true by (symmetry; apply Z.leb_le; lia).
    replace (c <? 32) with true by (symmetry; apply Z.ltb_lt; lia).
    cbn [andb]. right; right; left. split; [done|lia].
Qed.


Lemma scanstring_plain_char c X :
  32 <= c -> c <> 34 -> c <> 92 ->
  scanstring (c :: X) = add_char c (scanstring X).
Proof.
  intros H32 H34 H92. cbn [scanstring].
  destruct (Z.eqb_spec c 34); [done|]. destruct (Z.eqb_spec c 92); [done|].
  replace (c <? 32) with false by (symmetry; apply Z.ltb_ge; lia).
  by rewrite andb_false_r.
Qed.

Lemma scanstring_short_escape e c X :
  e <> 117 -> BACKSLASH e = Some c ->
  scanstring (92 :: e :: X) = add_char c (scanstring X).
Proof.
  intros He Hb. cbn [scanstring]. cbn [Z.eqb Pos.eqb].
  destruct (Z.eqb_spec e 117); [done|]. by rewrite Hb.
Qed.

(** An escape [\uXXXX] that is not a high surrogate stands for itself. *)
Lemma scanstring_u_escape n X :
  0 <= n < 65536 -> is_high_surrogate n = false ->
  scanstring (92 :: 117 :: hex4 n ++ X) = add_char n (scanstring X).
Proof.
  intros Hn Hhigh. cbn [scanstring hex4 app]. cbn [Z.eqb Pos.eqb].
  rewrite decode_hex4_hex4 by done.
  unfold is_high_surrogate in Hhigh. by rewrite Hhigh.
Qed.

(** A high surrogate stands for itself unless the escape of a low
    surrogate follows. *)
Lemma scanstring_high_alone n X :
  0 <= n < 65536 -> is_high_surrogate n = true ->
  match X with
  | b :: u :: r3 =>
      (b =? 92) && (u =? 117) = true ->
      exists k1 k2 k3 k4 r4 uni2,
        r3 = k1 :: k2 :: k3 :: k4 :: r4 /\
        decode_hex4 k1 k2 k3 k4 = Some uni2 /\
        is_low_surrogate uni2 = false
  | _ => True
  end ->
  scanstring (92 :: 117 :: hex4 n ++ X) = add_char n (scanstring X).
Proof.
  intros Hn Hhigh HX. cbn [scanstring hex4 app]. cbn [Z.eqb Pos.eqb].
  rewrite decode_hex4_hex4 by done.
  unfold is_high_surrogate in Hhigh. rewrite Hhigh.
  destruct X as [|b [|u r3]]; [done|done|].
  destruct ((b =? 92) && (u =? 117)); [|done].
  destruct (HX eq_refl) as (k1 & k2 & k3 & k4 & r4 & uni2 & -> & -> & Hlow).
  unfold is_low_surrogate in Hlow. by rewrite Hlow.
Qed.

(** The escapes of a surrogate pair stand for the character above the
    basic plane they were made from. *)
Lemma scanstring_pair c X :
  0x10000 <= c < 0x110000 ->
  scanstring
    (92 :: 117 :: hex4 (0xd800 + (c - 0x10000) / 1024) ++
     92 :: 117 :: hex4 (0xdc00 + (c - 0x10000) mod 1024) ++ X)
  = add_char c (scanstring X).
Proof.
  no_libs.
  intros Hc.
  assert (Hq : 0 <= (c - 65536) / 1024 < 1024)
    by (split; [apply Z.div_pos; lia|apply Z.div_lt_upper_bound; lia]).
  assert (Hr : 0 <= (c - 65536) mod 1024 < 1024)
    by (apply Z.mod_pos_bound; lia).
  cbn [scanstring hex4 app]. cbn [Z.eqb Pos.eqb].
  rewrite decode_hex4_hex4 by lia.
  replace ((55296 <=? 55296 + (c - 65536) / 1024) &&
           (55296 + (c - 65536) / 1024 <=? 56319)) with true
    by (symmetry; apply andb_true_iff; split; apply Z.leb_le; lia).
  cbn [andb]. rewrite decode_hex4_hex4 by lia.
  replace ((56320 <=? 56320 + (c - 65536) mod 1024) &&
           (56320 + (c - 65536) mod 1024 <=? 57343)) with true
    by (symmetry; apply andb_true_iff; split; apply Z.leb_le; lia).
  f_equal.
  replace (55296 + (c - 65536) / 1024 - 55296) with ((c - 65536) / 1024)
    by lia.
  replace (56320 + (c - 65536) mod 1024 - 56320) with ((c - 65536) mod 1024)
    by lia.
  rewrite lor_shiftl_add by (change (2 ^ 10) with 1024; lia).
  change (2 ^ 10) with 1024. Z.div_mod_to_equations. lia.
Qed.

Lemma plain_str_cons c s :
  plain_str (c :: s) = true ->
  0 <= c < 0x110000 /\
  (is_high_surrogate c = true ->
   match s with
   | c' :: _ => is_low_surrogate c'
   | [] => false
   end = false) /\
  plain_str s = true.
Proof.
  cbn [plain_str]. intros [[[H0 H1]%andb_prop Hs]%andb_prop Hp]%andb_prop.
  split; [lia|]. split; [|done].
  intros Hh. rewrite Hh in Hs. by apply negb_true_iff in Hs.
Qed.

(** After a high surrogate nothing that reads as a low surrogate
    follows. *)
Lemma no_low_escape_follows s rest :
  plain_str s = true ->
  match s with
  | c' :: _ => is_low_surrogate c'
  | [] => false
  end = false ->
  match concat (map escape_char s) ++ 34 :: rest with
  | b :: u :: r3 =>
      (b =? 92) && (u =? 117) = true ->
      exists k1 k2 k3 k4 r4 uni2,
        r3 = k1 :: k2 :: k3 :: k4 :: r4 /\
        decode_hex4 k1 k2 k3 k4 = Some uni2 /\
        is_low_surrogate uni2 = false
  | _ => True
  end.
Proof.
  intros Hplain Hlow. destruct s as [|c' s'].
  - cbn. by destruct rest.
  - apply plain_str_cons in Hplain as (Hc & _ & _).
    cbn [map concat]. rewrite <- app_assoc.
    destruct (escape_char_cases c' Hc)
      as [(-> & ? & ? & ?)|[(e & -> & ? & ?)|[(-> & ?)|(? & ->)]]].
    + cbn [app]. destruct (concat _ ++ _) as [|u r3]; [done|].
      destruct (Z.eqb_spec c' 92); [done|]. done.
    + cbn [app]. destruct (Z.eqb_spec e 117); [done|].
      by rewrite andb_false_r.
    + cbn [app hex4]. intros _. do 6 eexists. split; [done|].
      split; [apply decode_hex4_hex4; lia|done].
    + cbn [app hex4]. intros _. do 6 eexists. split; [done|].
      assert (Hq : 0 <= (c' - 65536) / 1024 < 1024)
        by (split; [apply Z.div_pos; lia|apply Z.div_lt_upper_bound; lia]).
      split; [apply decode_hex4_hex4; lia|].
      unfold is_low_surrogate. apply andb_false_iff. left.
      apply Z.leb_gt. lia.
Qed.

Lemma scanstring_escape_step c s rest :
  plain_str (c :: s) = true ->
  scanstring (escape_char c ++ concat (map escape_char s) ++ 34 :: rest) =
  add_char c (scanstring (concat (map escape_char s) ++ 34 :: rest)).
Proof.
  intros (Hc & Hlow & Hplain)%plain_str_cons.
  destruct (escape_char_cases c Hc)
    as [(-> & ? & ? & ?)|[(e & -> & ? & ?)|[(-> & ?)|(? & ->)]]].
  - by apply scanstring_plain_char.
  - by apply scanstring_short_escape.
  - cbn [app]. destruct (is_high_surrogate c) eqn:Hh.
    + apply scanstring_high_alone; [lia|done|].
      apply no_low_escape_follows; [done|by apply Hlow].
    + apply scanstring_u_escape; [lia|done].
  - pose proof (scanstring_pair c
      (concat (map escape_char s) ++ 34 :: rest) ltac:(lia)) as Hpair.
    cbn [app hex4] in *. exact Hpair.
Qed.

(** Scanning the body of an encoded string gives the string back. *)
Lemma scanstring_encoded s rest :
  plain_str s = true ->
  scanstring (concat (map escape_char s) ++ 34 :: rest) = Return (s, rest).
Proof.
  induction s as [|c s IH]; intros Hplain.
  - reflexivity.
  - cbn [map concat]. rewrite <- app_assoc.
    rewrite scanstring_escape_step by done.
    apply plain_str_cons in Hplain as (_ & _ & Hs). by rewrite IH.
Qed.
End JsonStrings.

(** ** JSON text: integers *)

Section JsonNumbers.
Local Open Scope Z_scope.

Lemma of_string_String a s :
  of_string (String a s) = Z.of_N (N_of_ascii a) :: of_string s.
Proof. reflexivity. Qed.

Lemma of_string_app s t : of_string (s +:+ t) = of_string s ++ of_string t.
Proof.
  induction s as [|a s IH]; [done|].
  change (String a s +:+ t) with (String a (s +:+ t)).
  rewrite !of_string_String, IH. done.
Qed.

Lemma pretty_N_char_code d :
  (d < 10)%N -> Z.of_N (N_of_ascii (pretty_N_char d)) = 48 + Z.of_N d.
Proof.
  intros Hd.
  assert (Hall : forallb (fun n =>
            bool_decide
              (Z.of_N (N_of_ascii (pretty_N_char (N.of_nat n))) =
               48 + Z.of_N (N.of_nat n)))
          (seq 0 10) = true) by (vm_compute; reflexivity).
  rewrite forallb_forall in Hall.
  assert (Hin : In (N.to_nat d) (seq 0 10)) by (apply in_seq; lia).
  specialize (Hall _ Hin). rewrite N2Nat.id in Hall.
  by apply bool_decide_eq_true in Hall.
Qed.

(** The digits [pretty] writes go in front of what is already there. *)
Lemma pretty_N_go_digits x : forall s,
  of_string (pretty_N_go x s) = of_string (pretty_N_go x "") ++ of_string s.
Proof.
  induction (N.lt_wf_0 x) as [x _ IH]. intros s.
  destruct (decide (0 < x)%N) as [Hpos|Hzero].
  - rewrite !(pretty_N_go_step x) by done.
    assert (Hlt : (x `div` 10 < x)%N) by (apply N.div_lt; [done|by compute]).
    rewrite (IH _ Hlt (String _ s)), (IH _ Hlt (String _ "")).
    rewrite <- app_assoc. done.
  - assert (x = 0%N) as -> by (destruct x; [done|by destruct Hzero]).
    by rewrite !pretty_N_go_0.
Qed.

Lemma digits_step x :
  (0 < x)%N ->
  of_string (pretty_N_go x "") =
  of_string (pretty_N_go (x `div` 10) "") ++ [48 + Z.of_N (x `mod` 10)].
Proof.
  intros Hpos. rewrite pretty_N_go_step by done.
  rewrite pretty_N_go_digits, of_string_String.
  rewrite pretty_N_char_code by (by apply N.mod_lt). done.
Qed.

Lemma int_of_digits_snoc ds d :
  int_of_digits (ds ++ [d]) = 10 * int_of_digits ds + (d - 48).
Proof. unfold int_of_digits. by rewrite fold_left_app. Qed.

(** The digits of a positive number: decimal digits, the first one not
    zero, and their value is the number. *)
Lemma digits_spec x :
  (0 < x)%N ->
  Forall (fun c => is_digit c = true) (of_string (pretty_N_go x "")) /\
  int_of_digits (of_string (pretty_N_go x "")) = Z.of_N x /\
  exists c t, of_string (pretty_N_go x "") = c :: t /\
              is_digit c = true /\ c <> 48.
Proof.
  induction (N.lt_wf_0 x) as [x _ IH]. intros Hpos.
  rewrite digits_step by done.
  assert (Hx : 0 < Z.of_N x) by (by apply (N2Z.inj_lt 0)).
  pose proof (N2Z.inj_div x 10) as Hdiv.
  pose proof (N2Z.inj_mod x 10) as Hmod.
  change (Z.of_N 10) with 10 in *.
  assert (Hr : 0 <= Z.of_N (x `mod` 10) < 10)
    by (rewrite Hmod; apply Z.mod_pos_bound; clear; lia).
  assert (Hval : Z.of_N x =
                 10 * Z.of_N (x `div` 10) + Z.of_N (x `mod` 10))
    by (rewrite Hdiv, Hmod; apply Z.div_mod; clear; lia).
  assert (Hd : is_digit (48 + Z.of_N (x `mod` 10)) = true)
    by (unfold is_digit; apply andb_true_iff; split; apply Z.leb_le;
        clear -Hr; lia).
  destruct (decide (0 < x `div` 10)%N) as [Hq|Hq].
  - assert (Hlt : (x `div` 10 < x)%N) by (apply N.div_lt; [done|by compute]).
    destruct (IH _ Hlt Hq) as (Hall & Hv & c & t & Hhead & Hc & Hc').
    split; [|split].
    + apply Forall_app. split; [done|by constructor].
    + rewrite int_of_digits_snoc, Hv. clear -Hval. lia.
    + rewrite Hhead. by exists c, (t ++ [48 + Z.of_N (x `mod` 10)]).
  - assert (Hz : (x `div` 10 = 0)%N).
    { destruct (x `div` 10)%N; [done|]. by destruct Hq. }
    rewrite Hz in *. rewrite pretty_N_go_0.
    cbn [of_string list_ascii_of_string map app].
    change (Z.of_N 0) with 0 in Hval.
    split; [by constructor|]. split.
    + unfold int_of_digits. cbn [fold_left]. clear -Hval. lia.
    + eexists _, []. split; [done|]. split; [done|]. clear -Hval Hx. lia.
Qed.

Lemma span_digits_exact ds rest :
  Forall (fun c => is_digit c = true) ds ->
  match rest with
  | c :: _ => is_digit c = false
  | [] => True
  end ->
  span_digits (ds ++ rest) = (ds, rest).
Proof.
  intros Hds Hrest. induction Hds as [|c ds Hc _ IH].
  - destruct rest as [|c r]; [done|]. cbn [app span_digits]. by rewrite Hrest.
  - cbn [app span_digits]. by rewrite Hc, IH.
Qed.

Lemma number_end_not_digit rest :
  number_end rest = true ->
  match rest with
  | c :: _ => is_digit c = false
  | [] => True
  end.
Proof.
  destruct rest as [|c r]; [done|]. cbn [number_end].
  intros [->%Z.eqb_eq | ->%Z.eqb_eq]%orb_prop; done.
Qed.

Lemma number_end_no_frac rest :
  number_end rest = true -> match_frac rest = None /\ match_exp rest = None.
Proof.
  destruct rest as [|c r]; [done|]. cbn [number_end].
  intros [->%Z.eqb_eq | ->%Z.eqb_eq]%orb_prop; done.
Qed.


Lemma is_digit_range c : is_digit c = true -> 48 <= c <= 57.
Proof. unfold is_digit. intros [?%Z.leb_le ?%Z.leb_le]%andb_prop. lia. Qed.

(** The text [int.__repr__] gives, by sign. *)
Lemma int_text_cases n :
  (n = 0 /\ of_string (pretty n) = [48]) \/
  (exists p, (n = Zpos p \/ n = Zneg p) /\
     of_string (pretty (Z.abs n)) = of_string (pretty_N_go (Npos p) "") /\
     of_string (pretty n) =
       (if decide (n < 0) then [45] else []) ++
       of_string (pretty_N_go (Npos p) "")).
Proof.
  destruct n as [|p|p].
  - by left.
  - right. exists p. split; [by left|]. split; reflexivity.
  - right. exists p. split; [by right|]. split; [reflexivity|].
    change (pretty (Z.neg p)) with ("-" +:+ pretty_N_go (N.pos p) "").
    by rewrite of_string_app.
Qed.

Lemma match_integer_digits c t rest :
  is_digit c = true -> c <> 48 ->
  Forall (fun c => is_digit c = true) t ->
  number_end rest = true ->
  match_integer (c :: t ++ rest) = Some (c :: t, rest) /\
  match_integer (45 :: c :: t ++ rest) = Some (45 :: c :: t, rest).
Proof.
  intros Hc Hc' Ht Hend. pose proof (is_digit_range c Hc).
  unfold match_integer. cbn [Z.eqb Pos.eqb].
  destruct (Z.eqb_spec c 45); [lia|]. destruct (Z.eqb_spec c 48); [lia|].
  rewrite Hc.
  by rewrite (span_digits_exact t rest Ht (number_end_not_digit _ Hend)).
Qed.

Lemma scan_number_int n rest :
  plain_int n = true -> number_end rest = true ->
  scan_number (of_string (pretty n) ++ rest) = Some (Return (PyInt n, rest)).
Proof.
  intros Hplain Hend. unfold plain_int in Hplain.
  apply Nat.leb_le in Hplain.
  destruct (number_end_no_frac rest Hend) as [Hfrac Hexp].
  destruct (int_text_cases n) as [[-> ->]|(p & Hsign & Habs & ->)].
  - unfold scan_number. cbn [app match_integer Z.eqb Pos.eqb app].
    by rewrite Hfrac, Hexp.
  - rewrite Habs in Hplain.
    destruct (digits_spec (Npos p) eq_refl)
      as (Hall & Hval & c & t & Hhead & Hc & Hc').
    rewrite Hhead in *. inversion Hall as [|? ? _ Ht]; subst.
    destruct (match_integer_digits c t rest Hc Hc' Ht Hend) as [Hpos Hneg].
    pose proof (is_digit_range c Hc).
    assert (Hlen : (int_max_str_digits <? length (c :: t))%nat = false)
      by (by apply Nat.ltb_ge).
    unfold scan_number. destruct Hsign as [-> | ->].
    + rewrite decide_False by done. cbn [app].
      rewrite Hpos, Hfrac, Hexp. unfold parse_int.
      destruct (Z.eqb_spec c 45); [lia|]. rewrite Hlen, Hval. done.
    + rewrite decide_True by done. cbn [app].
      rewrite Hneg, Hfrac, Hexp. unfold parse_int. cbn [Z.eqb Pos.eqb].
      rewrite Hlen, Hval. done.
Qed.

(** A text that starts like a number is scanned as one. *)
Lemma scan_once_number fuel depth h t res :
  h = 45 \/ is_digit h = true ->
  scan_number (h :: t) = Some res ->
  scan_once (S fuel) depth (h :: t) = res.
Proof.
  intros Hh Hnum.
  assert (Hr : 45 <= h <= 57)
    by (destruct Hh as [->|?%is_digit_range]; lia).
  cbn [scan_once].
  destruct (Z.eqb_spec h 34); [lia|]. destruct (Z.eqb_spec h 123); [lia|].
  destruct (Z.eqb_spec h 91); [lia|].
  cbn [strip_prefix of_string list_ascii_of_string map].
  change (Z.of_N (N_of_ascii "n")) with 110.
  change (Z.of_N (N_of_ascii "t")) with 116.
  change (Z.of_N (N_of_ascii "f")) with 102.
  destruct (Z.eqb_spec 110 h); [lia|]. destruct (Z.eqb_spec 116 h); [lia|].
  destruct (Z.eqb_spec 102 h); [lia|]. by rewrite Hnum.
Qed.

Lemma scan_once_int fuel depth n rest :
  plain_int n = true -> number_end rest = true ->
  scan_once (S fuel) depth (of_string (pretty n) ++ rest) =
  Return (PyInt n, rest).
Proof.
  intros Hplain Hend. pose proof (scan_number_int n rest Hplain Hend) as Hnum.
  destruct (int_text_cases n) as [[-> E]|(p & Hsign & Habs & E)];
    rewrite E in *.
  - by apply scan_once_number; [right|].
  - destruct (digits_spec (Npos p) eq_refl) as (_ & _ & c & t & Hhead & Hc & _).
    rewrite Hhead in *. destruct (decide (n < 0)).
    + by apply scan_once_number; [left|].
    + by apply scan_once_number; [right|].
Qed.
End JsonNumbers.

(** ** JSON text: floats *)

Section JsonFloats.
Local Open Scope Z_scope.

Lemma number_end_cases rest :
  number_end rest = true ->
  rest = [] \/ exists c r, rest = c :: r /\ (c = 44 \/ c = 10).
Proof.
  destruct rest as [|c r]; [by left|]. cbn [number_end].
  intros [->%Z.eqb_eq | ->%Z.eqb_eq]%orb_prop; right; eauto.
Qed.

(** What the number pattern matches on a text it matches on the text
    with more after it, as long as a number may end there. *)
Lemma span_digits_ext rest s ds r :
  number_end rest = true ->
  span_digits s = (ds, r) -> span_digits (s ++ rest) = (ds, r ++ rest).
Proof.
  intros Hend. revert ds r. induction s as [|c s IH]; intros ds r.
  - intros [= <- <-]. cbn [app].
    destruct (number_end_cases rest Hend) as [->|(c & r & -> & [->| ->])];
      done.
  - cbn [app span_digits]. destruct (is_digit c); [|by intros [= <- <-]].
    destruct (span_digits s) as [ds' r'] eqn:E. intros [= <- <-].
    by rewrite (IH _ _ eq_refl).
Qed.

Lemma match_integer_ext rest s text r :
  number_end rest = true ->
  match_integer s = Some (text, r) ->
  match_integer (s ++ rest) = Some (text, r ++ rest).
Proof.
  intros Hend. unfold match_integer.
  destruct s as [|c s]; [done|]. cbn [app].
  destruct (c =? 45).
  - destruct s as [|c' s]; [done|]. cbn [app].
    destruct (c' =? 48); [by intros [= <- <-]|].
    destruct (is_digit c'); [|done].
    destruct (span_digits s) as [ds r'] eqn:E.
    rewrite (span_digits_ext rest _ _ _ Hend E). by intros [= <- <-].
  - destruct (c =? 48); [by intros [= <- <-]|].
    destruct (is_digit c); [|done].
    destruct (span_digits s) as [ds r'] eqn:E.
    rewrite (span_digits_ext rest _ _ _ Hend E). by intros [= <- <-].
Qed.

Lemma match_frac_ext rest s :
  number_end rest = true ->
  match_frac (s ++ rest) =
  match match_frac s with
  | Some (f, r) => Some (f, r ++ rest)
  | None => None
  end.
Proof.
  intros Hend. destruct s as [|c s].
  - destruct (number_end_no_frac rest Hend) as [E _].
    change ([] ++ rest) with rest. by rewrite E.
  - cbn [app match_frac]. destruct (c =? 46); [|done].
    destruct (span_digits s) as [ds r'] eqn:E.
    rewrite (span_digits_ext rest _ _ _ Hend E). by destruct ds.
Qed.

Lemma match_exp_ext rest s :
  number_end rest = true ->
  match_exp (s ++ rest) =
  match match_exp s with
  | Some (x, r) => Some (x, r ++ rest)
  | None => None
  end.
Proof.
  intros Hend. destruct s as [|c s].
  - destruct (number_end_no_frac rest Hend) as [_ E].
    change ([] ++ rest) with rest. by rewrite E.
  - cbn [app match_exp]. destruct ((c =? 101) || (c =? 69)); [|done].
    destruct s as [|c2 s].
    + cbn [app span_digits].
      destruct (number_end_cases rest Hend) as [->|(c' & r & -> & [->| ->])];
        done.
    + cbn [app]. destruct ((c2 =? 45) || (c2 =? 43)).
      * destruct (span_digits s) as [ds r'] eqn:E.
        rewrite (span_digits_ext rest _ _ _ Hend E). by destruct ds.
      * destruct (span_digits (c2 :: s)) as [ds r'] eqn:E.
        change (c2 :: s ++ rest) with ((c2 :: s) ++ rest).
        rewrite (span_digits_ext rest _ _ _ Hend E). by destruct ds.
Qed.

Lemma scan_number_ext rest s v r :
  number_end rest = true ->
  scan_number s = Some (Return (v, r)) ->
  scan_number (s ++ rest) = Some (Return (v, r ++ rest)).
Proof.
  intros Hend. unfold scan_number.
  destruct (match_integer s) as [[integer s1]|] eqn:Ei; [|done].
  rewrite (match_integer_ext rest _ _ _ Hend Ei).
  rewrite (match_frac_ext rest s1 Hend).
  destruct (match_frac s1) as [[f s2]|].
  - rewrite (match_exp_ext rest s2 Hend).
    destruct (match_exp s2) as [[x s3]|];
      repeat case_match; simplify_eq; by intros [= <- <-].
  - rewrite (match_exp_ext rest s1 Hend).
    destruct (match_exp s1) as [[x s3]|];
      repeat case_match; simplify_eq; by intros [= <- <-].
Qed.

(** A number starts with a minus sign or a digit. *)
Lemma scan_number_head s res :
  scan_number s = Some res ->
  exists c t, s = c :: t /\ (c = 45 \/ is_digit c = true).
Proof.
  unfold scan_number, match_integer.
  destruct s as [|c t]; [done|]. intros H. exists c, t. split; [done|].
  destruct (Z.eqb_spec c 45); [by left|]. right.
  destruct (Z.eqb_spec c 48); [by subst|].
  by destruct (is_digit c).
Qed.

(** What the number pattern matches is ASCII. *)
Lemma span_digits_parts s ds r :
  span_digits s = (ds, r) ->
  s = ds ++ r /\ Forall (fun c => 0 <= c < 128) ds.
Proof.
  revert ds r. induction s as [|c s IH]; intros ds r.
  - by intros [= <- <-].
  - cbn [span_digits]. destruct (is_digit c) eqn:Hc; [|by intros [= <- <-]].
    destruct (span_digits s) as [ds' r'] eqn:E. intros [= <- <-].
    destruct (IH _ _ eq_refl) as [-> Hall]. split; [done|].
    apply is_digit_range in Hc. constructor; [lia|done].
Qed.

Lemma match_integer_parts s text r :
  match_integer s = Some (text, r) ->
  s = text ++ r /\ Forall (fun c => 0 <= c < 128) text.
Proof.
  unfold match_integer.
  assert (Hdigits : forall sign c s',
    Forall (fun c => 0 <= c < 128) sign ->
    (if c =? 48 then Some (sign ++ [48], s')
     else if is_digit c
          then let '(ds, rest) := span_digits s' in Some (sign ++ c :: ds, rest)
          else None) = Some (text, r) ->
    sign ++ c :: s' = text ++ r /\ Forall (fun c => 0 <= c < 128) text).
  { intros sign c s' Hsign.
    destruct (Z.eqb_spec c 48) as [->|_].
    - intros [= <- <-]. rewrite <- app_assoc. split; [done|].
      apply Forall_app. split; [done|]. by repeat constructor.
    - destruct (is_digit c) eqn:Hc; [|done].
      destruct (span_digits s') as [ds r'] eqn:E. intros [= <- <-].
      destruct (span_digits_parts _ _ _ E) as [-> Hall].
      rewrite <- app_assoc. split; [done|].
      apply is_digit_range in Hc.
      apply Forall_app. split; [done|]. constructor; [lia|done]. }
  destruct s as [|c s]; [done|].
  destruct (Z.eqb_spec c 45) as [->|_].
  - destruct s as [|c' s]; [done|].
    apply (Hdigits [45]). by repeat constructor.
  - apply (Hdigits []). constructor.
Qed.

Lemma match_frac_parts s f r :
  match_frac s = Some (f, r) ->
  s = f ++ r /\ Forall (fun c => 0 <= c < 128) f.
Proof.
  unfold match_frac. destruct s as [|c s]; [done|].
  destruct (Z.eqb_spec c 46) as [->|_]; [|done].
  destruct (span_digits s) as [ds r'] eqn:E.
  destruct (span_digits_parts _ _ _ E) as [-> Hall].
  destruct ds as [|d ds]; [done|]. intros [= <- <-].
  split; [done|]. constructor; [lia|done].
Qed.

Lemma match_exp_parts s x r :
  match_exp s = Some (x, r) ->
  s = x ++ r /\ Forall (fun c => 0 <= c < 128) x.
Proof.
  unfold match_exp. destruct s as [|c s]; [done|].
  destruct ((c =? 101) || (c =? 69)) eqn:Hc; [|done].
  assert (0 <= c < 128).
  { apply orb_prop in Hc as [->%Z.eqb_eq| ->%Z.eqb_eq]; lia. }
  destruct s as [|c2 s].
  - done.
  - destruct ((c2 =? 45) || (c2 =? 43)) eqn:Hc2.
    + assert (0 <= c2 < 128).
      { apply orb_prop in Hc2 as [->%Z.eqb_eq| ->%Z.eqb_eq]; lia. }
      destruct (span_digits s) as [ds r'] eqn:E.
      destruct (span_digits_parts _ _ _ E) as [-> Hall].
      destruct ds as [|d ds]; [done|]. intros [= <- <-].
      split; [done|]. by repeat (constructor; [lia|]).
    + destruct (span_digits (c2 :: s)) as [ds r'] eqn:E.
      destruct (span_digits_parts _ _ _ E) as [-> Hall].
      destruct ds as [|d ds]; [done|]. intros [= <- <-].
      split; [done|]. by constructor; [lia|].
Qed.

Lemma scan_number_ascii s v :
  scan_number s = Some (Return (v, [])) ->
  Forall (fun c => 0 <= c < 128) s.
Proof.
  unfold scan_number.
  destruct (match_integer s) as [[integer s1]|] eqn:Ei; [|done].
  apply match_integer_parts in Ei as [-> Hi].
  assert (Hend : forall s3 : pystr, s3 = [] ->
            forall s2 x, (match_exp s2 = Some (x, s3) \/ (x = [] /\ s3 = s2)) ->
            Forall (fun c => 0 <= c < 128) s2).
  { intros s3 -> s2 x [[-> Hx]%match_exp_parts|[_ <-]]; [|constructor].
    by rewrite app_nil_r. }
  destruct (match_frac s1) as [[f s2]|] eqn:Ef.
  - apply match_frac_parts in Ef as [-> Hf].
    destruct (match_exp s2) as [[x s3]|] eqn:Ex;
      repeat case_match; simplify_eq; intros [= <-];
      repeat (apply Forall_app; split); try done;
      eapply Hend; eauto.
  - destruct (match_exp s1) as [[x s3]|] eqn:Ex;
      repeat case_match; simplify_eq; intros [= <-];
      repeat (apply Forall_app; split); try done;
      eapply Hend; eauto.
Qed.

Lemma same_float_eq x y : same_float x y = true -> x = y.
Proof.
  unfold same_float. intros H. apply FloatAxioms.Prim2SF_inj.
  destruct (FloatOps.Prim2SF x) as [s|s| |s m e],
    (FloatOps.Prim2SF y) as [t|t| |t n f]; try done.
  - by apply Bool.eqb_prop in H as ->.
  - by apply Bool.eqb_prop in H as ->.
  - apply andb_prop in H as [[->%Bool.eqb_prop ->%Pos.eqb_eq]%andb_prop
                               ->%Z.eqb_eq].
    done.
Qed.

(** The two infinities are the only floats equal to them. *)
Lemma eqb_infinity x :
  PrimFloat.eqb x PrimFloat.infinity = true -> x = PrimFloat.infinity.
Proof.
  rewrite FloatAxioms.eqb_spec. intros H. apply FloatAxioms.Prim2SF_inj.
  change (FloatOps.Prim2SF PrimFloat.infinity)
    with (SpecFloat.S754_infinity false) in *.
  destruct (FloatOps.Prim2SF x) as [s| [|] | |s m e]; try done.
  all: by destruct s.
Qed.

Lemma eqb_neg_infinity x :
  PrimFloat.eqb x PrimFloat.neg_infinity = true -> x = PrimFloat.neg_infinity.
Proof.
  rewrite FloatAxioms.eqb_spec. intros H. apply FloatAxioms.Prim2SF_inj.
  change (FloatOps.Prim2SF PrimFloat.neg_infinity)
    with (SpecFloat.S754_infinity true) in *.
  destruct (FloatOps.Prim2SF x) as [s| [|] | |s m e]; try done.
  all: by destruct s.
Qed.

(** The text of a plain float: the name of an infinity, or a number that
    scans back as the float. *)
Lemma plain_float_text x :
  plain_float x = true ->
  (x = PrimFloat.infinity /\ floatstr x = of_string "Infinity") \/
  (x = PrimFloat.neg_infinity /\ floatstr x = of_string "-Infinity") \/
  (floatstr x = float_repr x /\
   scan_number (float_repr x) = Some (Return (PyFloat x, []))).
Proof.
  unfold plain_float, floatstr. intros [Hnan H]%andb_prop. rewrite Hnan.
  cbn [negb].
  destruct (PrimFloat.eqb x PrimFloat.infinity) eqn:Einf.
  { left. split; [by apply eqb_infinity|done]. }
  destruct (PrimFloat.eqb x PrimFloat.neg_infinity) eqn:Eneg.
  { right. left. split; [by apply eqb_neg_infinity|done]. }
  right. right. split; [done|]. cbn [orb] in H.
  destruct (scan_number (float_repr x)) as [[[v rest]|e]|]; try done.
  destruct v; try done. destruct rest; [|done].
  by apply same_float_eq in H as ->.
Qed.

Lemma scan_once_float fuel depth x rest :
  plain_float x = true -> number_end rest = true ->
  scan_once (S fuel) depth (floatstr x ++ rest) = Return (PyFloat x, rest).
Proof.
  intros Hplain Hend.
  destruct (plain_float_text x Hplain) as [[-> ->]|[[-> ->]|[-> Hnum]]].
  - reflexivity.
  - reflexivity.
  - pose proof (scan_number_ext rest _ _ _ Hend Hnum) as Hext.
    destruct (scan_number_head _ _ Hnum) as (c & t & E & Hc).
    rewrite E in *. cbn [app] in *. by apply scan_once_number.
Qed.

Lemma float_text_head x :
  plain_float x = true ->
  exists c t, floatstr x = c :: t /\ is_ws c = false /\ c <> 93.
Proof.
  intros Hplain.
  destruct (plain_float_text x Hplain) as [[-> ->]|[[-> ->]|[-> Hnum]]].
  - by eexists _, _.
  - by eexists _, _.
  - destruct (scan_number_head _ _ Hnum) as (c & t & E & Hc).
    exists c, t. split; [done|].
    assert (45 <= c <= 57)
      by (destruct Hc as [->|?%is_digit_range]; lia).
    split; [|lia]. unfold is_ws.
    repeat match goal with
      | |- context [Z.eqb c ?k] => destruct (Z.eqb_spec c k); [lia|]
      end.
    done.
Qed.

Lemma float_text_ascii x :
  plain_float x = true -> Forall (fun c => 0 <= c < 128) (floatstr x).
Proof.
  intros Hplain.
  destruct (plain_float_text x Hplain) as [[-> ->]|[[-> ->]|[-> Hnum]]].
  - repeat constructor; by vm_compute.
  - repeat constructor; by vm_compute.
  - by eapply scan_number_ascii.
Qed.

End JsonFloats.

(** ** JSON text: documents *)

Section JsonDocuments.
Local Open Scope Z_scope.
Local Infix ">>>" := then_chunks (at level 62, right associativity).

Lemma pyval_nested_ind (P : pyval -> Prop) :
  P PyNone -> (forall b, P (PyBool b)) -> (forall n, P (PyInt n)) ->
  (forall x, P (PyFloat x)) -> (forall s, P (PyStr s)) ->
  (forall l, Forall P l -> P (PyList l)) ->
  (forall l, Forall P l -> P (PyTuple l)) ->
  (forall d, Forall (fun kv => P kv.1 /\ P kv.2) d -> P (PyDict d)) ->
  forall v, P v.
Proof.
  intros HNone HBool HInt HFloat HStr HList HTuple HDict.
  fix IH 1. intros [ |b|n|x|s|l|l|d].
  - apply HNone.
  - apply HBool.
  - apply HInt.
  - apply HFloat.
  - apply HStr.
  - apply HList. induction l as [|v l IHl]; constructor; [apply IH|apply IHl].
  - apply HTuple. induction l as [|v l IHl]; constructor; [apply IH|apply IHl].
  - apply HDict. induction d as [|[k v] d IHd]; constructor;
      [split; apply IH|apply IHd].
Qed.

(** The unfolding of [unlimited_iterencode] on containers. *)
Lemma iterencode_list lst level :
  unlimited_iterencode (PyList lst) level =
  match lst with
  | [] => yield (of_string "[]")
  | _ =>
      unlimited_list_items level lst (91 :: newline_indent (S level))
      >>> yield (newline_indent level) >>> yield [93]
  end.
Proof. by destruct lst. Qed.

Lemma iterencode_dict dct level :
  unlimited_iterencode (PyDict dct) level =
  match dct with
  | [] => yield (of_string "{}")
  | _ =>
      yield [123] >>> yield (newline_indent (S level)) >>>
      unlimited_dict_items level dct true
      >>> yield (newline_indent level) >>> yield [125]
  end.
Proof. by destruct dct. Qed.

Lemma int_repr_plain n :
  plain_int n = true -> int_repr n = Return (of_string (pretty n)).
Proof.
  unfold plain_int, int_repr. intros H%Nat.leb_le.
  by rewrite (proj2 (Nat.ltb_ge _ _) H).
Qed.

(** Outside containers the encoder writes the text of the atom. *)
Lemma iterencode_atom v level text :
  atom_text v = Some (Return text) -> unlimited_iterencode v level = yield text.
Proof.
  intros H. destruct v; try done; cbn [unlimited_iterencode]; by rewrite H.
Qed.

Lemma atom_text_plain v :
  json_plain v = true ->
  match atom_text v with
  | Some (Raise _) => False
  | _ => True
  end.
Proof.
  destruct v as [ |[]|n| | | | | ]; try done.
  cbn [json_plain atom_text]. intros H. by rewrite int_repr_plain.
Qed.

Lemma then_chunks_ok a b s t :
  a = (s, None) -> b = (t, None) -> a >>> b = (s ++ t, None).
Proof. by intros -> ->. Qed.


Lemma then_chunks_fst a b : a.2 = None -> (a >>> b).1 = a.1 ++ b.1.
Proof. destruct a as [s [e|]]; [done|]. by intros _. Qed.

Lemma then_chunks_snd a b : a.2 = None -> (a >>> b).2 = b.2.
Proof. destruct a as [s [e|]]; [done|]. by intros _. Qed.

(** What one item of a list contributes. *)
Lemma list_item_chunk v level buf :
  json_plain v = true -> (unlimited_iterencode v (S level)).2 = None ->
  match atom_text v with
  | Some (Return text) => yield (buf ++ text)
  | Some (Raise e) => throw e
  | None => yield buf >>> unlimited_iterencode v (S level)
  end = yield (buf ++ (unlimited_iterencode v (S level)).1).
Proof.
  intros Hplain Hok. pose proof (atom_text_plain v Hplain) as Hatom.
  destruct (atom_text v) as [[text|e]|] eqn:E; [|done|].
  - by rewrite (iterencode_atom _ _ _ E).
  - destruct (unlimited_iterencode v (S level)) as [t err]. cbn in Hok. by subst.
Qed.

(** What the value of a dictionary item contributes. *)
Lemma dict_value_chunk v level :
  json_plain v = true -> (unlimited_iterencode v (S level)).2 = None ->
  match atom_text v with
  | Some (Return text) => yield text
  | Some (Raise e) => throw e
  | None => unlimited_iterencode v (S level)
  end = yield (unlimited_iterencode v (S level)).1.
Proof.
  intros Hplain Hok. pose proof (atom_text_plain v Hplain) as Hatom.
  destruct (atom_text v) as [[text|e]|] eqn:E; [|done|].
  - by rewrite (iterencode_atom _ _ _ E).
  - destruct (unlimited_iterencode v (S level)) as [t err]. cbn in Hok. by subst.
Qed.

Lemma list_items_cons level v l buf :
  json_plain v = true -> (unlimited_iterencode v (S level)).2 = None ->
  unlimited_list_items level (v :: l) buf =
  yield (buf ++ (unlimited_iterencode v (S level)).1)
  >>> unlimited_list_items level l (44 :: newline_indent (S level)).
Proof.
  intros Hplain Hok. cbn [unlimited_list_items].
  by rewrite list_item_chunk.
Qed.

Lemma dict_items_cons level k v d first :
  json_plain v = true -> (unlimited_iterencode v (S level)).2 = None ->
  unlimited_dict_items level ((PyStr k, v) :: d) first =
  yield ((if first then [] else 44 :: newline_indent (S level)) ++
         py_encode_basestring_ascii k ++ [58; 32] ++
         (unlimited_iterencode v (S level)).1)
  >>> unlimited_dict_items level d false.
Proof.
  intros Hplain Hok. cbn [unlimited_dict_items encode_key].
  rewrite dict_value_chunk by done.
  destruct first; unfold then_chunks, yield; cbn [fst snd app];
    by rewrite <- ?app_assoc.
Qed.

(** The items of a plain dictionary: string keys, plain values. *)
Lemma json_plain_dict_cons kv d :
  json_plain (PyDict (kv :: d)) = true ->
  exists k, kv.1 = PyStr k /\ plain_str k = true /\
            json_plain kv.2 = true /\ json_plain (PyDict d) = true.
Proof.
  destruct kv as [k v]. cbn [json_plain forallb distinct_keys].
  intros [[[Hk Hv]%andb_prop Hd]%andb_prop [_ Hdist]%andb_prop]%andb_prop.
  destruct k as [ | | | |key| | | ]; try done.
  exists key. cbn. rewrite Hd, Hdist. done.
Qed.

(** The encoder finishes on plain values. *)
Lemma iterencode_plain v :
  json_plain v = true -> forall level, (unlimited_iterencode v level).2 = None.
Proof.
  induction v as [ |b|n|x|s|l IH|l IH|d IH] using pyval_nested_ind;
    intros Hplain level; try done.
  - by destruct b.
  - cbn [unlimited_iterencode atom_text]. cbn [json_plain] in Hplain.
    by rewrite int_repr_plain.
  - rewrite iterencode_list. destruct l as [|v l]; [done|].
    rewrite !then_chunks_snd; [done|done|].
    cbn [json_plain] in Hplain.
    generalize (91 :: newline_indent (S level)) as buf.
    induction IH as [|v' l' Hv' _ IHl]; intros buf; [done|].
    cbn [forallb] in Hplain. apply andb_prop in Hplain as [Hp Hps].
    rewrite list_items_cons by auto. rewrite then_chunks_snd by done. auto.
  - rewrite iterencode_dict. destruct d as [|kv d]; [done|].
    rewrite !then_chunks_snd; try done.
    generalize true as first.
    induction IH as [|kv' d' [_ Hv'] _ IHd]; intros first; [done|].
    apply json_plain_dict_cons in Hplain as (k & Hk & Hpk & Hpv & Hpd).
    destruct kv' as [k' v']. cbn in Hk. subst k'. cbn [snd] in *.
    rewrite dict_items_cons by auto. rewrite then_chunks_snd by done. auto.
Qed.

Lemma skip_ws_stop c t : is_ws c = false -> skip_ws (c :: t) = c :: t.
Proof. intros H. cbn [skip_ws]. by rewrite H. Qed.

Lemma skip_ws_newline_indent level X :
  skip_ws (newline_indent level ++ X) = skip_ws X.
Proof.
  unfold newline_indent. cbn [app skip_ws].
  change (is_ws 10) with true. cbv iota.
  induction (4 * level)%nat as [|k IH]; [done|].
  cbn [repeat app skip_ws]. change (is_ws 32) with true. by cbv iota.
Qed.

(** The text of a list, an item at a time. *)
Lemma list_items_text level v l buf :
  json_plain v = true -> forallb json_plain l = true ->
  (unlimited_list_items level (v :: l) buf).1 =
  buf ++ (unlimited_iterencode v (S level)).1 ++
  (unlimited_list_items level l (44 :: newline_indent (S level))).1.
Proof.
  intros Hv Hl. rewrite list_items_cons by auto using iterencode_plain.
  rewrite then_chunks_fst by done. cbn [yield fst]. by rewrite <- app_assoc.
Qed.

Lemma list_items_plain level l buf :
  forallb json_plain l = true ->
  (unlimited_list_items level l buf).2 = None.
Proof.
  revert buf. induction l as [|v l IH]; intros buf Hl; [done|].
  cbn [forallb] in Hl. apply andb_prop in Hl as [Hv Hl].
  rewrite list_items_cons by auto using iterencode_plain.
  rewrite then_chunks_snd by done. auto.
Qed.

Lemma list_text level v l :
  json_plain (PyList (v :: l)) = true ->
  (unlimited_iterencode (PyList (v :: l)) level).1 =
  91 :: newline_indent (S level) ++ (unlimited_iterencode v (S level)).1 ++
  (unlimited_list_items level l (44 :: newline_indent (S level))).1 ++
  newline_indent level ++ [93].
Proof.
  cbn [json_plain forallb]. intros [Hv Hl]%andb_prop.
  rewrite iterencode_list.
  rewrite then_chunks_fst
    by (apply list_items_plain; cbn [forallb]; by rewrite Hv, Hl).
  rewrite list_items_text by done.
  rewrite then_chunks_fst by done. cbn [yield fst app].
  by rewrite <- ?app_assoc.
Qed.

(** The text of a dictionary, an item at a time. *)
Lemma dict_items_plain level d first :
  json_plain (PyDict d) = true ->
  (unlimited_dict_items level d first).2 = None.
Proof.
  revert first. induction d as [|[k v] d IH]; intros first Hd; [done|].
  apply json_plain_dict_cons in Hd as (key & Hk & Hpk & Hpv & Hpd).
  cbn in Hk, Hpv. subst k.
  rewrite dict_items_cons by auto using iterencode_plain.
  rewrite then_chunks_snd by done. auto.
Qed.

Lemma dict_items_text level k v d first :
  json_plain (PyDict ((PyStr k, v) :: d)) = true ->
  (unlimited_dict_items level ((PyStr k, v) :: d) first).1 =
  (if first then [] else 44 :: newline_indent (S level)) ++
  34 :: concat (map escape_char k) ++
  34 :: 58 :: 32 :: (unlimited_iterencode v (S level)).1 ++
  (unlimited_dict_items level d false).1.
Proof.
  intros (key & Hk & Hpk & Hpv & Hpd)%json_plain_dict_cons.
  cbn in Hk, Hpv. injection Hk as <-.
  rewrite dict_items_cons by auto using iterencode_plain.
  rewrite then_chunks_fst by done. cbn [yield fst].
  unfold py_encode_basestring_ascii. rewrite <- ?app_assoc. cbn [app].
  by rewrite <- ?app_assoc.
Qed.

Lemma dict_text level k v d :
  json_plain (PyDict ((PyStr k, v) :: d)) = true ->
  (unlimited_iterencode (PyDict ((PyStr k, v) :: d)) level).1 =
  123 :: newline_indent (S level) ++
  34 :: concat (map escape_char k) ++
  34 :: 58 :: 32 :: (unlimited_iterencode v (S level)).1 ++
  (unlimited_dict_items level d false).1 ++ newline_indent level ++ [125].
Proof.
  intros Hplain. rewrite iterencode_dict.
  rewrite !then_chunks_fst; try done;
    try (rewrite ?then_chunks_snd by done; by apply dict_items_plain).
  - rewrite dict_items_text by done. cbn [yield fst app].
    rewrite <- ?app_assoc. cbn [app]. by rewrite <- ?app_assoc.
Qed.

Lemma text_head_intro (c : Z) (t text : pystr) :
  text = c :: t -> is_ws c = false -> c <> 93 ->
  exists c t, text = c :: t /\ is_ws c = false /\ c <> 93.
Proof. intros -> Hws Hc. exists c, t. auto. Qed.

(** The text of a value starts with a character that is neither white
    space nor a closing bracket. *)
Lemma text_head v level :
  json_plain v = true ->
  exists c t, (unlimited_iterencode v level).1 = c :: t /\
              is_ws c = false /\ c <> 93.
Proof.
  pose proof text_head_intro as Hshow. intros Hplain. destruct v as [ |[]|n|x|s|[|v l]|l|[|[k v] d]]; try done.
  - by apply (Hshow 110 (of_string "ull")).
  - by apply (Hshow 116 (of_string "rue")).
  - by apply (Hshow 102 (of_string "alse")).
  - cbn [unlimited_iterencode atom_text]. cbn [json_plain] in Hplain.
    rewrite int_repr_plain by done. cbn [yield fst].
    destruct (int_text_cases n) as [[-> ->]|(p & Hsign & _ & ->)].
    + by apply (Hshow 48 []).
    + destruct (digits_spec (Npos p) eq_refl)
        as (_ & _ & c & t & -> & Hc%is_digit_range & _).
      destruct (decide (n < 0)).
      * by apply (Hshow 45 (c :: t)).
      * apply (Hshow c t); [done| |lia]. unfold is_ws.
        repeat match goal with
          | |- context [Z.eqb c ?k] => destruct (Z.eqb_spec c k); [lia|]
          end.
        done.
  - cbn [json_plain] in Hplain. by apply float_text_head.
  - by eapply (Hshow 34).
  - by apply (Hshow 91 [93]).
  - rewrite list_text by done. by eapply (Hshow 91).
  - by apply (Hshow 123 [125]).
  - pose proof Hplain as (key & Hk & _)%json_plain_dict_cons.
    cbn in Hk. subst k. rewrite dict_text by done. by eapply (Hshow 123).
Qed.

Lemma skip_ws_text v level X :
  json_plain v = true ->
  skip_ws ((unlimited_iterencode v level).1 ++ X) = (unlimited_iterencode v level).1 ++ X.
Proof.
  intros (c & t & -> & Hc & _)%(text_head v level). by apply skip_ws_stop.
Qed.

Lemma number_end_newline level X :
  number_end (newline_indent level ++ X) = true.
Proof. reflexivity. Qed.

Lemma number_end_comma X : number_end (44 :: X) = true.
Proof. reflexivity. Qed.

Lemma nesting_depth_list v l :
  nesting_depth (PyList (v :: l)) =
  Nat.max (S (nesting_depth v)) (nesting_depth (PyList l)).
Proof. cbn [nesting_depth fold_right]. lia. Qed.


Lemma nesting_depth_dict k v d :
  nesting_depth (PyDict ((k, v) :: d)) =
  Nat.max (S (nesting_depth v)) (nesting_depth (PyDict d)).
Proof. cbn [nesting_depth fold_right snd]. lia. Qed.

Lemma nesting_depth_items l depth :
  (nesting_depth (PyList l) <= S depth)%nat ->
  Forall (fun v => (nesting_depth v <= depth)%nat) l.
Proof.
  induction l as [|v l IH]; [constructor|].
  rewrite nesting_depth_list. intros H. constructor; [lia|apply IH; lia].
Qed.

Lemma nesting_depth_values d depth :
  (nesting_depth (PyDict d) <= S depth)%nat ->
  Forall (fun kv => (nesting_depth kv.2 <= depth)%nat) d.
Proof.
  induction d as [|[k v] d IH]; [constructor|].
  rewrite nesting_depth_dict. intros H.
  constructor; [cbn [snd]; lia|apply IH; lia].
Qed.

Lemma array_values_encoded level rest depth l :
  Forall scans_back l -> forallb json_plain l = true ->
  Forall (fun v => (nesting_depth v <= depth)%nat) l ->
  forall v fuel,
    scans_back v -> json_plain v = true ->
    (nesting_depth v <= depth)%nat ->
    (length (unlimited_iterencode v (S level)).1 +
     length (unlimited_list_items level l
               (44%Z :: newline_indent (S level))).1 + 1 < fuel)%nat ->
    array_values fuel depth
      ((unlimited_iterencode v (S level)).1 ++
       (unlimited_list_items level l (44 :: newline_indent (S level))).1 ++
       newline_indent level ++ 93 :: rest)
    = Return (v :: l, rest).
Proof.
  induction 1 as [|v' l Hv' _ IH]; intros Hl Hd v fuel Hv Hpv Hdv Hfuel;
    [|inversion Hd as [|? ? Hdv' Hdl]; subst].
  - destruct fuel as [|fuel]; [lia|]. cbn [array_values].
    cbn [unlimited_list_items yield fst app] in *.
    rewrite (Hv Hpv) by (apply number_end_newline || lia).
    rewrite skip_ws_newline_indent, skip_ws_stop by done. done.
  - cbn [forallb] in Hl. apply andb_prop in Hl as [Hpv' Hl].
    destruct fuel as [|fuel]; [lia|]. cbn [array_values].
    rewrite list_items_text in * by done.
    rewrite <- !app_assoc. cbn [app].
    rewrite length_app in Hfuel. cbn [length] in Hfuel.
    rewrite !length_app in Hfuel.
    rewrite (Hv Hpv) by (apply number_end_comma || lia).
    rewrite skip_ws_stop by done. cbn [Z.eqb Pos.eqb].
    rewrite skip_ws_newline_indent, skip_ws_text by done.
    rewrite IH by (done || lia). done.
Qed.

Lemma object_pairs_encoded level rest depth d :
  Forall (fun kv => scans_back kv.2) d ->
  Forall (fun kv => (nesting_depth kv.2 <= depth)%nat) d ->
  forall k v fuel,
    scans_back v ->
    json_plain (PyDict ((PyStr k, v) :: d)) = true ->
    (nesting_depth v <= depth)%nat ->
    (length (concat (map escape_char k)) +
     length (unlimited_iterencode v (S level)).1 +
     length (unlimited_dict_items level d false).1 + 3 < fuel)%nat ->
    object_pairs fuel depth
      (concat (map escape_char k) ++
       34 :: 58 :: 32 :: (unlimited_iterencode v (S level)).1 ++
       (unlimited_dict_items level d false).1 ++
       newline_indent level ++ 125 :: rest)
    = Return ((PyStr k, v) :: d, rest).
Proof.
  induction 1 as [|[k' v'] d Hv' _ IH];
    intros Hd k v fuel Hv Hplain Hdv Hfuel;
    [|inversion Hd as [|? ? Hdv' Hdl]; subst; cbn [snd] in Hdv'];
    pose proof Hplain as (key & Hk & Hpk & Hpv & Hpd)%json_plain_dict_cons;
    cbn in Hk, Hpv; injection Hk as <-;
    (destruct fuel as [|fuel]; [lia|]); cbn [object_pairs];
    rewrite scanstring_encoded by done;
    rewrite skip_ws_stop by done; cbn [Z.eqb Pos.eqb];
    cbn [skip_ws]; change (is_ws 32) with true; cbv iota;
    rewrite skip_ws_text by done.
  - cbn [unlimited_dict_items yield fst app] in *.
    rewrite (Hv Hpv) by (apply number_end_newline || lia).
    rewrite skip_ws_newline_indent, skip_ws_stop by done. done.
  - pose proof Hpd as (key' & Hk' & _)%json_plain_dict_cons.
    cbn in Hk'. subst k'. cbn [snd] in Hv'.
    rewrite dict_items_text in * by done. cbn [app] in *.
    repeat (rewrite <- app_assoc || rewrite <- app_comm_cons).
    repeat (progress (cbn [length] in Hfuel; rewrite ?length_app in Hfuel)).
    rewrite (Hv Hpv) by (apply number_end_comma || lia).
    rewrite skip_ws_stop by done. cbn [Z.eqb Pos.eqb].
    rewrite skip_ws_newline_indent, skip_ws_stop by done.
    cbn [Z.eqb Pos.eqb].
    rewrite IH by (done || lia). done.
Qed.

Lemma json_plain_dict_elem d kv :
  json_plain (PyDict d) = true -> kv ∈ d -> exists k, kv.1 = PyStr k.
Proof.
  induction d as [|kv' d IH]; intros Hplain Hin.
  - by apply elem_of_nil in Hin.
  - apply json_plain_dict_cons in Hplain as (k & Hk & _ & _ & Hd).
    apply elem_of_cons in Hin as [->|Hin]; eauto.
Qed.

Lemma dict_set_new acc k v :
  (forall kv', kv' ∈ acc -> py_eq k kv'.1 = false) ->
  dict_set acc k v = acc ++ [(k, v)].
Proof.
  induction acc as [|[k' v'] acc IH]; intros Hnew; [done|].
  cbn [dict_set]. pose proof (Hnew (k', v') ltac:(by left)) as Hk.
  cbn [fst] in Hk. rewrite Hk. cbn [app]. rewrite IH; [done|]. intros kv' Hin. apply Hnew. by right.
Qed.

(** [dict(pairs)] keeps pairs whose keys are different strings. *)
Lemma dict_of_pairs_plain d :
  json_plain (PyDict d) = true -> dict_of_pairs d = d.
Proof.
  unfold dict_of_pairs.
  assert (Hgen : forall acc,
            json_plain (PyDict d) = true ->
            (forall kv kv', kv ∈ d -> kv' ∈ acc ->
                            py_eq kv.1 kv'.1 = false) ->
            fold_left (fun d kv => dict_set d kv.1 kv.2) d acc = acc ++ d).
  { induction d as [|[k v] d IH]; intros acc Hplain Hacc.
    - by rewrite app_nil_r.
    - cbn [fold_left fst snd].
      rewrite dict_set_new by (intros kv' Hin; apply (Hacc (k, v)); [by left|done]).
      pose proof Hplain as (key & Hk & _ & _ & Hd)%json_plain_dict_cons.
      cbn in Hk. subst k. rewrite IH; [by rewrite <- app_assoc|done|].
      intros kv kv' Hin [Hin'|Hin']%elem_of_app.
      + apply Hacc; [by right|done].
      + apply list_elem_of_singleton in Hin' as ->. cbn [fst].
        destruct (json_plain_dict_elem d kv Hd Hin) as [k2 Hk2].
        rewrite Hk2. cbn [py_eq].
        cbn [json_plain distinct_keys] in Hplain.
        apply andb_prop in Hplain as [_ [Hnot _]%andb_prop].
        apply negb_true_iff in Hnot.
        apply bool_decide_eq_false. intros ->.
        assert (Hex : existsb (fun kv => py_eq (PyStr key) kv.1) d = true).
        { apply existsb_exists. exists kv. split; [by apply list_elem_of_In|].
          rewrite Hk2. cbn [py_eq]. by apply bool_decide_eq_true. }
        congruence. }
  intros Hplain. rewrite Hgen; [done|done|].
  intros kv kv' _ Hin. by apply elem_of_nil in Hin.
Qed.

Lemma length_newline_indent level :
  length (newline_indent level) = S (4 * level).
Proof. unfold newline_indent. cbn [length]. by rewrite repeat_length. Qed.

(** Every plain value scans back from its text. *)
Lemma scan_once_encoded v : scans_back v.
Proof.
  induction v as [ |b|n|x|s|l IH|l IH|d IH] using pyval_nested_ind;
    intros Hplain level fuel depth rest Hfuel Hdepth Hend; try done.
  - destruct fuel as [|fuel]; [cbn in Hfuel; lia|]. reflexivity.
  - destruct fuel as [|fuel]; [cbn in Hfuel; lia|]. by destruct b.
  - cbn [json_plain] in Hplain. cbn [unlimited_iterencode atom_text] in *.
    rewrite int_repr_plain in * by done. cbn [yield fst] in *.
    destruct fuel as [|fuel]; [lia|]. by apply scan_once_int.
  - cbn [json_plain] in Hplain.
    cbn [unlimited_iterencode atom_text yield fst] in *.
    destruct fuel as [|fuel]; [lia|]. by apply scan_once_float.
  - cbn [json_plain] in Hplain. cbn [unlimited_iterencode atom_text yield fst] in *.
    destruct fuel as [|fuel]; [lia|].
    unfold py_encode_basestring_ascii. rewrite <- !app_assoc.
    cbn [app scan_once Z.eqb Pos.eqb].
    by rewrite scanstring_encoded.
  - destruct depth as [|depth]; [cbn in Hdepth; lia|].
    destruct l as [|v l].
    + destruct fuel as [|[|fuel]]; try (cbn in Hfuel; lia). reflexivity.
    + rewrite list_text in * by done.
      destruct fuel as [|[|fuel]]; try (cbn in Hfuel; lia).
      repeat (rewrite <- app_assoc || rewrite <- app_comm_cons).
      cbn [app scan_once Z.eqb Pos.eqb JSONArray].
      rewrite skip_ws_newline_indent.
      cbn [json_plain forallb] in Hplain.
      apply andb_prop in Hplain as [Hv Hl].
      rewrite skip_ws_text by done.
      destruct (text_head v (S level) Hv) as (c & t & E & _ & Hc).
      rewrite E at 1. cbn [app].
      destruct (Z.eqb_spec c 93); [done|].
      inversion IH as [|? ? Hsv Hsl]; subst.
      apply nesting_depth_items in Hdepth.
      inversion Hdepth as [|? ? Hdv Hdl]; subst.
      rewrite array_values_encoded; [done|done|done|done|done|done|done|].
      cbn [length] in Hfuel. rewrite !length_app in Hfuel.
      rewrite !length_newline_indent in Hfuel. lia.
  - destruct depth as [|depth]; [cbn in Hdepth; lia|].
    destruct d as [|[k v] d].
    + destruct fuel as [|[|fuel]]; try (cbn in Hfuel; lia). reflexivity.
    + pose proof Hplain as (key & Hk & Hpk & Hpv & Hpd)%json_plain_dict_cons.
      cbn in Hk, Hpv. subst k.
      rewrite dict_text in * by done.
      destruct fuel as [|[|fuel]]; try (cbn in Hfuel; lia).
      repeat (rewrite <- app_assoc || rewrite <- app_comm_cons).
      cbn [app scan_once Z.eqb Pos.eqb JSONObject].
      rewrite skip_ws_newline_indent, skip_ws_stop by done.
      cbn [Z.eqb Pos.eqb].
      inversion IH as [|? ? [_ Hsv] Hsd]; subst. cbn [snd] in Hsv.
      apply nesting_depth_values in Hdepth.
      inversion Hdepth as [|? ? Hdv Hdl]; subst. cbn [snd] in Hdv.
      rewrite object_pairs_encoded;
        [|by eapply Forall_impl; [exact Hsd|by intros ? []]
        |done|done|done|done|].
      * by rewrite dict_of_pairs_plain.
      * repeat (progress (cbn [length] in Hfuel;
                          rewrite ?length_app in Hfuel)).
        rewrite !length_newline_indent in Hfuel. lia.
Qed.

(** *** The text is ASCII *)

Lemma hex_digit_ascii d : 0 <= hex_digit d < 128.
Proof.
  unfold hex_digit.
  assert (Hall : Forall (fun c => 0 <= c < 128)
                   (48 :: of_string "0123456789abcdef"))
    by (repeat constructor; by vm_compute).
  rewrite Forall_forall in Hall. apply Hall.
  destruct (nth_in_or_default (Z.to_nat d) (of_string "0123456789abcdef") 48)
    as [Hin| ->]; [right; by apply list_elem_of_In|left].
Qed.

Lemma hex4_ascii n : Forall (fun c => 0 <= c < 128) (hex4 n).
Proof. unfold hex4. repeat constructor; apply hex_digit_ascii. Qed.

Lemma escape_char_ascii c : Forall (fun c => 0 <= c < 128) (escape_char c).
Proof.
  unfold escape_char.
  destruct ((c =? 92) || (c =? 34) || negb ((32 <=? c) && (c <=? 126)))
    eqn:Hcond.
  - unfold ESCAPE_DCT.
    repeat case_match; simplify_eq;
      repeat first
        [ apply Forall_nil
        | apply hex4_ascii
        | apply Forall_cons; split; [lia|]
        | apply Forall_app; split ];
      done.
  - apply orb_false_elim in Hcond as [_ Hcond].
    apply negb_false_iff, andb_prop in Hcond as [?%Z.leb_le ?%Z.leb_le].
    constructor; [lia|constructor].
Qed.

Lemma escaped_ascii s :
  Forall (fun c => 0 <= c < 128) (concat (map escape_char s)).
Proof.
  induction s as [|c s IH]; [constructor|].
  cbn [map concat]. apply Forall_app. split; [apply escape_char_ascii|done].
Qed.

Lemma newline_indent_ascii level :
  Forall (fun c => 0 <= c < 128) (newline_indent level).
Proof.
  unfold newline_indent. constructor; [lia|].
  induction (4 * level)%nat; constructor; [lia|done].
Qed.

Lemma int_text_ascii (n : Z) :
  Forall (fun c => 0 <= c < 128) (of_string (pretty n)).
Proof.
  destruct (int_text_cases n) as [[-> ->]|(p & _ & _ & ->)].
  - constructor; [lia|constructor].
  - destruct (digits_spec (Npos p) eq_refl) as (Hall & _).
    apply Forall_app. split.
    + destruct (decide (n < 0)); repeat constructor; lia.
    + eapply Forall_impl; [done|]. intros c Hc%is_digit_range. lia.
Qed.

Lemma text_ascii v :
  json_plain v = true ->
  forall level, Forall (fun c => 0 <= c < 128) (unlimited_iterencode v level).1.
Proof.
  induction v as [ |b|n|x|s|l IH|l IH|d IH] using pyval_nested_ind;
    intros Hplain level; try done.
  - repeat constructor; by vm_compute.
  - destruct b; repeat constructor; by vm_compute.
  - cbn [json_plain] in Hplain. cbn [unlimited_iterencode atom_text].
    rewrite int_repr_plain by done. apply int_text_ascii.
  - cbn [json_plain] in Hplain. by apply float_text_ascii.
  - cbn [unlimited_iterencode atom_text yield fst]. unfold py_encode_basestring_ascii.
    repeat (apply Forall_app; split); try apply escaped_ascii;
      repeat constructor; lia.
  - destruct l as [|v l]; [repeat constructor; by vm_compute|].
    rewrite list_text by done.
    cbn [json_plain forallb] in Hplain. apply andb_prop in Hplain as [Hv Hl].
    inversion IH as [|? ? Hav Hal]; subst.
    constructor; [lia|].
    apply Forall_app; split; [apply newline_indent_ascii|].
    apply Forall_app; split; [by apply Hav|].
    apply Forall_app; split;
      [|apply Forall_app; split;
          [apply newline_indent_ascii|repeat constructor; lia]].
    clear Hav Hv IH. induction Hal as [|v' l' Hv' _ IHl]; [constructor|].
    cbn [forallb] in Hl. apply andb_prop in Hl as [Hpv' Hl].
    rewrite list_items_text by done.
    constructor; [lia|].
    apply Forall_app; split; [apply newline_indent_ascii|].
    apply Forall_app; split; [by apply Hv'|by apply IHl].
  - destruct d as [|[k v] d]; [repeat constructor; by vm_compute|].
    pose proof Hplain as (key & Hk & Hpk & Hpv & Hpd)%json_plain_dict_cons.
    cbn in Hk, Hpv. subst k. rewrite dict_text by done.
    inversion IH as [|? ? [_ Hav] Had]; subst. cbn [snd] in Hav.
    constructor; [lia|].
    apply Forall_app; split; [apply newline_indent_ascii|].
    constructor; [lia|]. apply Forall_app; split; [apply escaped_ascii|].
    do 3 (constructor; [lia|]).
    apply Forall_app; split; [by apply Hav|].
    apply Forall_app; split;
      [|apply Forall_app; split;
          [apply newline_indent_ascii|repeat constructor; lia]].
    clear Hav Hpv Hplain Hpk IH.
    induction Had as [|[k' v'] d' [_ Hv'] _ IHd]; [constructor|].
    pose proof Hpd as (key' & Hk' & Hpk' & Hpv' & Hpd')%json_plain_dict_cons.
    cbn in Hk', Hpv'. subst k'. cbn [snd] in Hv'.
    rewrite dict_items_text by done. cbn [app].
    constructor; [lia|].
    apply Forall_app; split; [apply newline_indent_ascii|].
    constructor; [lia|]. apply Forall_app; split; [apply escaped_ascii|].
    do 3 (constructor; [lia|]).
    apply Forall_app; split; [by apply Hv'|by apply IHd].
Qed.

(** *** Through the decoder and through the file *)

Lemma json_loads_encoded v :
  json_plain v = true -> (nesting_depth v <= decoder_depth)%nat ->
  json_loads (unlimited_iterencode v 0).1 = Return v.
Proof.
  intros Hplain Hdepth.
  destruct (text_head v 0%nat Hplain) as (c & t & E & Hws & _).
  pose proof (text_ascii v Hplain 0%nat) as Hascii.
  assert (Hbom : match (unlimited_iterencode v 0).1 with
                 | c :: _ => c =? 0xfeff
                 | [] => false
                 end = false).
  { rewrite E in *. inversion Hascii as [|? ? Hc _]; subst.
    apply Z.eqb_neq. lia. }
  pose proof (scan_once_encoded v Hplain 0%nat
                (3 * length (unlimited_iterencode v 0).1 + 3)%nat
                decoder_depth [] ltac:(lia) Hdepth eq_refl) as Hscan.
  pose proof (skip_ws_text v 0%nat [] Hplain) as Hskip.
  rewrite app_nil_r in Hscan, Hskip.
  unfold json_loads, json_decode. by rewrite Hbom, Hskip, Hscan.
Qed.

Lemma utf8_encode_ascii text :
  Forall (fun c => 0 <= c < 128) text ->
  utf8_encode text = Return (map byte_of_Z text).
Proof.
  intros Hascii. unfold utf8_encode.
  assert (E : utf8_encode_chars text = Some (map byte_of_Z text)).
  { induction Hascii as [|c text Hc _ IH]; [done|].
    cbn [utf8_encode_chars map]. rewrite IH. unfold utf8_encode_char.
    destruct (Z.ltb_spec c 0); [lia|]. destruct (Z.ltb_spec c 128); [|lia].
    done. }
  by rewrite E.
Qed.

Lemma utf8_decode_ascii text :
  Forall (fun c => 0 <= c < 128) text ->
  utf8_decode (map byte_of_Z text) = Return text.
Proof.
  intros Hascii. unfold utf8_decode. rewrite map_map.
  assert (E : map (fun c => byte_val (byte_of_Z c)) text = text).
  { induction Hascii as [|c text Hc _ IH]; [done|].
    cbn [map]. rewrite IH, byte_val_of_Z by lia. done. }
  rewrite E. by rewrite utf8_decode_vals_ascii.
Qed.

(** *** Within the recursion limit *)

Lemma iterencode_guarded_list lst level :
  iterencode (PyList lst) level =
  if (encoder_depth <=? level)%nat then throw recursion_error else
  match lst with
  | [] => yield (of_string "[]")
  | _ =>
      iterencode_list_items level lst (91 :: newline_indent (S level))
      >>> yield (newline_indent level) >>> yield [93]
  end.
Proof. by destruct lst. Qed.

Lemma iterencode_guarded_dict dct level :
  iterencode (PyDict dct) level =
  if (encoder_depth <=? level)%nat then throw recursion_error else
  match dct with
  | [] => yield (of_string "{}")
  | _ =>
      yield [123] >>> yield (newline_indent (S level)) >>>
      iterencode_dict_items level dct true
      >>> yield (newline_indent level) >>> yield [125]
  end.
Proof. by destruct dct. Qed.

Lemma iterencode_guarded_tuple lst level :
  iterencode (PyTuple lst) level = iterencode (PyList lst) level.
Proof. by destruct lst. Qed.

Lemma unlimited_iterencode_tuple lst level :
  unlimited_iterencode (PyTuple lst) level =
  unlimited_iterencode (PyList lst) level.
Proof. by destruct lst. Qed.

Lemma list_items_within level l :
  Forall agree l ->
  Forall (fun v => (S level + nesting_depth v <= encoder_depth)%nat) l ->
  forall buf,
    iterencode_list_items level l buf = unlimited_list_items level l buf.
Proof.
  induction 1 as [|v l Hv _ IH]; intros Hd buf; [done|].
  inversion Hd as [|? ? Hdv Hdl]; subst.
  cbn [iterencode_list_items unlimited_list_items].
  by rewrite (Hv (S level)), IH.
Qed.

Lemma dict_items_within level d :
  Forall (fun kv => agree kv.1 /\ agree kv.2) d ->
  Forall (fun kv => (S level + nesting_depth kv.2 <= encoder_depth)%nat) d ->
  forall first,
    iterencode_dict_items level d first = unlimited_dict_items level d first.
Proof.
  induction 1 as [|[k v] d [_ Hv] _ IH]; intros Hd first; [done|].
  inversion Hd as [|? ? Hdv Hdl]; subst. cbn [snd] in *.
  cbn [iterencode_dict_items unlimited_dict_items].
  by rewrite (Hv (S level)), IH.
Qed.

(** On a value nested within the limit the generator yields what it
    yields without a limit. *)
Lemma iterencode_within v : agree v.
Proof.
  induction v as [ |b|n|x|s|l IH|l IH|d IH] using pyval_nested_ind;
    intros level Hd; try done.
  - rewrite iterencode_guarded_list, iterencode_list.
    change (nesting_depth (PyList l))
      with (S (pred (nesting_depth (PyList l)))) in Hd.
    destruct (Nat.leb_spec encoder_depth level); [lia|].
    destruct l as [|v l]; [done|].
    rewrite list_items_within; [done|done|].
    eapply Forall_impl;
      [apply (nesting_depth_items _ (encoder_depth - S level)); lia|].
    cbn beta. intros. lia.
  - rewrite iterencode_guarded_tuple, unlimited_iterencode_tuple.
    rewrite iterencode_guarded_list, iterencode_list.
    change (nesting_depth (PyTuple l))
      with (S (pred (nesting_depth (PyList l)))) in Hd.
    destruct (Nat.leb_spec encoder_depth level); [lia|].
    destruct l as [|v l]; [done|].
    rewrite list_items_within; [done|done|].
    eapply Forall_impl;
      [apply (nesting_depth_items _ (encoder_depth - S level)); lia|].
    cbn beta. intros. lia.
  - rewrite iterencode_guarded_dict, iterencode_dict.
    change (nesting_depth (PyDict d))
      with (S (pred (nesting_depth (PyDict d)))) in Hd.
    destruct (Nat.leb_spec encoder_depth level); [lia|].
    destruct d as [|kv d]; [done|].
    rewrite dict_items_within; [done|done|].
    eapply Forall_impl;
      [apply (nesting_depth_values _ (encoder_depth - S level)); lia|].
    cbn beta. intros. lia.
Qed.

(** C1, as amended.  For a mapping whose keys are strings and whose
    values are [None], booleans, integers of at most 4300 digits, floats
    other than NaN, strings, lists or such mappings again, with no string
    in which a high surrogate is directly followed by a low one, nested
    no deeper than the recursion limit lets the encoder and the decoder
    go, and for a path that can be written: [save_json] succeeds and
    [load_json] then returns a box with exactly the items of the
    mapping. *)
Theorem save_json_load_json_roundtrip (p : path)
    (data : list (pyval * pyval)) (w : world) :
  json_plain (PyDict data) = true ->
  (nesting_depth (PyDict data) <= encoder_depth)%nat ->
  (nesting_depth (PyDict data) <= decoder_depth)%nat ->
  writable (w_fs w) p = true ->
  exists w1 w2,
    save_json p data w = (Return tt, w1) /\
    load_json p w1 = (Return (Box data), w2).
Proof.
  intros Hplain Henc Hdec Hw.
  pose proof (iterencode_plain _ Hplain 0%nat) as Hok.
  pose proof (text_ascii _ Hplain 0%nat) as Hascii.
  pose proof (json_loads_encoded _ Hplain Hdec) as Hloads.
  pose proof (iterencode_within (PyDict data) 0%nat Henc) as Hwithin.
  destruct (unlimited_iterencode (PyDict data) 0) as [text err] eqn:Eenc.
  cbn [fst snd] in *. subst err.
  exists (World (<[p := File (map byte_of_Z text)]> (w_fs w))
            (w_log w ++ [LogRecord INFO ("JSON file saved at: " +:+ path_str p)])).
  eexists. split.
  - unfold save_json, json_dump, try_except, mbind, M_bind, bind.
    rewrite Hwithin, (utf8_encode_ascii _ Hascii). cbn [lift ret].
    unfold open_write, writable in *.
    destruct (resolve (w_fs w) p) as [[b|]| |] eqn:E; try done.
    + unfold append_file. cbn [w_fs w_log]. rewrite lookup_insert_eq.
      unfold logger_info. cbn. by rewrite insert_insert_eq.
    + rewrite Hw. unfold append_file. cbn [w_fs w_log].
      rewrite lookup_insert_eq.
      unfold logger_info. cbn. by rewrite insert_insert_eq.
  - unfold load_json, json_load, try_except, mbind, M_bind, bind, read_file.
    cbn [w_fs]. rewrite resolve_insert_writable by done.
    rewrite (utf8_decode_ascii _ Hascii). cbn [lift ret]. rewrite Hloads.
    cbn [lift ret]. unfold logger_info. cbn [ConfigBox_init lift ret].
    reflexivity.
Qed.
End JsonDocuments.

(** ** Sizes *)

Section Sizes.
Local Open Scope Z_scope.

Lemma py_round_true_div n :
  0 <= n < 2 ^ 53 -> py_round (true_div_pow2 n 10) = round_half_even n 10.
Proof.
  intros Hn. unfold true_div_pow2.
  assert (Hbits : ((if n =? 0 then 0 else Z.log2 n + 1) <=? 53) = true).
  { apply Z.leb_le. destruct (Z.eqb_spec n 0); [lia|].
    assert (Z.log2 n < 53) by (apply Z.log2_lt_pow2; lia). lia. }
  rewrite Hbits. reflexivity.
Qed.

Lemma round_half_even_nearest m :
  Z.abs (m - 1024 * round_half_even m 10) <= 512 /\
  (Z.abs (m - 1024 * round_half_even m 10) = 512 ->
   Z.even (round_half_even m 10) = true).
Proof.
  unfold round_half_even. change (2 ^ 10) with 1024.
  pose proof (Z.div_mod m 1024 ltac:(lia)) as Hdm.
  pose proof (Z.mod_pos_bound m 1024 ltac:(lia)) as Hr.
  destruct (Z.ltb_spec (2 * (m mod 1024)) 1024);
    [split; [lia|intros; lia]|].
  destruct (Z.ltb_spec 1024 (2 * (m mod 1024)));
    [split; [lia|intros; lia]|].
  destruct (Z.even (m / 1024)) eqn:Heven; [split; [lia|done]|].
  split; [lia|]. intros _.
  rewrite Z.add_1_r, Z.even_succ, <- Z.negb_even, Heven. done.
Qed.

(** X1.  On a regular file of fewer than [2^53] bytes [get_size] reports
    the number of kilobytes nearest to the size, and the even one of the
    two when the size lies exactly between them. *)
Theorem get_size_rounds_half_to_even (p : path) (w : world)
    (content : list byte) :
  resolve (w_fs w) p = Found (File content) ->
  Z.of_nat (length content) < 2 ^ 53 ->
  exists k : Z,
    get_size p w = (Return ("~ " +:+ pretty k +:+ " KB")%string, w) /\
    Z.abs (Z.of_nat (length content) - 1024 * k) <= 512 /\
    (Z.abs (Z.of_nat (length content) - 1024 * k) = 512 ->
     Z.even k = true).
Proof.
  intros Hfile Hsize.
  exists (round_half_even (Z.of_nat (length content)) 10). split.
  - unfold get_size, try_except, mbind, M_bind, bind, getsize.
    rewrite Hfile. cbv zeta. rewrite py_round_true_div by lia. done.
  - apply round_half_even_nearest.
Qed.

End Sizes.

(** ** Arguments that are not regular files *)

Lemma isinstance_Exception e : isinstance e Exception = true.
Proof. by destruct e as [[] msg]. Qed.

(** X2.  On a path that names a directory, [get_size] returns a size
    without complaint, [read_yaml] and [load_json] let the
    [IsADirectoryError] of [open] through as it is, and [load_bin] and
    [encodeImageIntoBase64] turn it into a [ValueError].  Nothing is
    changed or logged. *)
Theorem directory_argument (p : path) (w : world) :
  resolve (w_fs w) p = Found Dir ->
  (exists size, get_size p w = (Return size, w)) /\
  read_yaml p w = (Raise (eisdir p), w) /\
  load_json p w = (Raise (eisdir p), w) /\
  load_bin p w =
    (Raise (Exn ValueError
              ("Error loading binary file at " +:+ path_str p +:+ ": "
               +:+ exn_str (eisdir p))), w) /\
  encodeImageIntoBase64 p w =
    (Raise (Exn ValueError
              ("Error encoding image: " +:+ exn_str (eisdir p))), w).
Proof.
  intros Hdir.
  unfold read_yaml, get_size, encodeImageIntoBase64, load_json, load_bin,
    json_load, joblib_load, getsize, try_except, mbind, M_bind, bind,
    read_file.
  rewrite Hdir. isinstance_known. split; [by eexists|done].
Qed.

(** X3.  On a path that leads through a regular file, [get_size],
    [read_yaml] and [load_json] raise the [NotADirectoryError] of the
    operating system as it is, not a [FileNotFoundError]; [load_bin] and
    [encodeImageIntoBase64] turn it into a [ValueError]. *)
Theorem path_through_a_file (p : path) (w : world) :
  resolve (w_fs w) p = ENOTDIR ->
  get_size p w = (Raise (enotdir p), w) /\
  read_yaml p w = (Raise (enotdir p), w) /\
  load_json p w = (Raise (enotdir p), w) /\
  load_bin p w =
    (Raise (Exn ValueError
              ("Error loading binary file at " +:+ path_str p +:+ ": "
               +:+ exn_str (enotdir p))), w) /\
  encodeImageIntoBase64 p w =
    (Raise (Exn ValueError
              ("Error encoding image: " +:+ exn_str (enotdir p))), w).
Proof.
  intros Hdir.
  unfold read_yaml, get_size, encodeImageIntoBase64, load_json, load_bin,
    json_load, joblib_load, getsize, try_except, mbind, M_bind, bind,
    read_file.
  rewrite Hdir. by isinstance_known.
Qed.

(** ** What the helpers leave as it was *)

Section Frames.
Context (R : relation world) `{!PreOrder R}.

Lemma keeps_ret {A} (a : A) : keeps R (ret a).
Proof using Type*. intros w. reflexivity. Qed.

Lemma keeps_raise {A} (e : exn) : keeps R (@raise A e).
Proof using Type*. intros w. reflexivity. Qed.

Lemma keeps_lift {A} (r : outcome A) : keeps R (lift r).
Proof using Type*. destruct r; [apply keeps_ret|apply keeps_raise]. Qed.

Lemma keeps_bind {A B} (m : M A) (k : A -> M B) :
  keeps R m -> (forall a, keeps R (k a)) -> keeps R (m ≫= k).
Proof using Type*.
  intros Hm Hk w. unfold mbind, M_bind, bind.
  specialize (Hm w). destruct (m w) as [[a|e] w1]; cbn [snd] in *; [|done].
  etransitivity; [exact Hm|apply Hk].
Qed.

Lemma keeps_try_except {A} (m : M A) (handler : exn -> M A) :
  keeps R m -> (forall e, keeps R (handler e)) ->
  keeps R (try_except m handler).
Proof using Type*.
  intros Hm Hh w. unfold try_except.
  specialize (Hm w). destruct (m w) as [[a|e] w1]; cbn [snd] in *; [done|].
  etransitivity; [exact Hm|apply Hh].
Qed.

Lemma keeps_get_fs : keeps R get_fs.
Proof using Type*. intros w. reflexivity. Qed.

Lemma keeps_read_file p : keeps R (read_file p).
Proof using Type*.
  intros w. unfold read_file. repeat case_match; reflexivity.
Qed.

Lemma keeps_getsize p : keeps R (getsize dir_size p).
Proof using Type*.
  intros w. unfold getsize. repeat case_match; reflexivity.
Qed.

End Frames.

#[local] Instance same_fs_preorder : PreOrder same_fs.
Proof.
  split; [done|]. intros w1 w2 w3 H1 H2. unfold same_fs in *. congruence.
Qed.

#[local] Instance same_log_preorder : PreOrder same_log.
Proof.
  split; [done|]. intros w1 w2 w3 H1 H2. unfold same_log in *. congruence.
Qed.

#[local] Instance same_at_preorder q : PreOrder (same_at q).
Proof.
  split; [done|]. intros w1 w2 w3 H1 H2. unfold same_at in *. congruence.
Qed.

#[local] Instance adds_directories_preorder : PreOrder adds_directories.
Proof.
  split; [by left|]. intros w1 w2 w3 H1 H2 q.
  destruct (H1 q) as [E1|[E1 E1']], (H2 q) as [E2|[E2 E2']]; try (left; congruence).
  - right. split; congruence.
  - right. split; congruence.
Qed.

(** Break a helper into its steps. *)
Ltac keeps_instance := first [assumption | typeclasses eauto].

Ltac keeps_steps :=
  repeat first
    [ apply keeps_bind; [keeps_instance| |intros ?]
    | apply keeps_try_except; [keeps_instance| |intros ?]
    | apply keeps_ret; keeps_instance
    | apply keeps_raise; keeps_instance
    | apply keeps_lift; keeps_instance
    | apply keeps_get_fs; keeps_instance
    | apply keeps_read_file; keeps_instance
    | apply keeps_getsize; keeps_instance
    | progress case_match ].

Lemma keeps_logger_info (R : relation world) msg :
  (forall w l, R w (World (w_fs w) l)) -> keeps R (logger_info msg).
Proof. intros H w. apply H. Qed.

(** X4.  The helpers that read never change the file system, whatever
    they find and whether they return or raise; [get_size] and
    [encodeImageIntoBase64] leave the log alone as well. *)
Theorem readers_keep_the_file_system (p : path) (w : world) :
  w_fs (read_yaml p w).2 = w_fs w /\
  w_fs (load_json p w).2 = w_fs w /\
  w_fs (load_bin p w).2 = w_fs w /\
  (get_size p w).2 = w /\
  (encodeImageIntoBase64 p w).2 = w.
Proof.
  assert (Hlog : forall msg, keeps same_fs (logger_info msg))
    by (intros msg; by apply keeps_logger_info).
  assert (Heq : PreOrder (fun w w' : world => w' = w)).
  { split; [done|]. intros w1 w2 w3 H1 H2. congruence. }
  repeat split.
  - revert w. change (keeps same_fs (read_yaml p)).
    unfold read_yaml. keeps_steps; apply Hlog.
  - revert w. change (keeps same_fs (load_json p)).
    unfold load_json, json_load. keeps_steps; apply Hlog.
  - revert w. change (keeps same_fs (load_bin p)).
    unfold load_bin, joblib_load. keeps_steps; apply Hlog.
  - revert w. change (keeps (fun w w' : world => w' = w) (get_size p)).
    unfold get_size. keeps_steps.
  - revert w.
    change (keeps (fun w w' : world => w' = w) (encodeImageIntoBase64 p)).
    unfold encodeImageIntoBase64. keeps_steps.
Qed.

Lemma keeps_open_write_at p q : q <> p -> keeps (same_at q) (open_write p).
Proof.
  intros Hne w. unfold open_write, same_at.
  repeat case_match; cbn [snd w_fs]; by rewrite ?lookup_insert_ne.
Qed.

Lemma keeps_append_file_at p q b :
  q <> p -> keeps (same_at q) (append_file p b).
Proof.
  intros Hne w. unfold append_file, same_at.
  repeat case_match; cbn [snd w_fs]; by rewrite ?lookup_insert_ne.
Qed.

(** X5.  The helpers that write change no entry of the file system but
    the one at their own path, whether they return or raise. *)
Theorem writers_touch_only_their_path (p q : path)
    (data : list (pyval * pyval)) (value : pyval) (imgstring : pystr)
    (w : world) :
  q <> p ->
  w_fs (save_json p data w).2 !! q = w_fs w !! q /\
  w_fs (save_bin value p w).2 !! q = w_fs w !! q /\
  w_fs (decodeImage imgstring p w).2 !! q = w_fs w !! q.
Proof.
  intros Hne.
  assert (Hlog : forall msg, keeps (same_at q) (logger_info msg))
    by (intros msg; by apply keeps_logger_info).
  pose proof (keeps_open_write_at p q Hne) as Hopen.
  assert (Happ : forall b, keeps (same_at q) (append_file p b))
    by (intros b; by apply keeps_append_file_at).
  split; [|split].
  - revert w. change (keeps (same_at q) (save_json p data)).
    unfold save_json, json_dump. keeps_steps; done.
  - revert w. change (keeps (same_at q) (save_bin value p)).
    unfold save_bin, joblib_dump, check_Any. keeps_steps; done.
  - revert w. change (keeps (same_at q) (decodeImage imgstring p)).
    unfold decodeImage. keeps_steps; done.
Qed.

(** ** What the helpers raise *)

Lemma raises_only_ret {A} P (a : A) : raises_only P (ret a).
Proof. by intros w e w'. Qed.

Lemma raises_only_raise {A} (P : exn -> Prop) e :
  P e -> raises_only P (@raise A e).
Proof. by intros He w e' w' [= <- _]. Qed.

Lemma raises_only_lift {A} (P : exn -> Prop) (r : outcome A) :
  (forall e, r = Raise e -> P e) -> raises_only P (lift r).
Proof. intros H w e w'. destruct r; [done|]. intros [= <- _]. by apply H. Qed.

Lemma raises_only_bind {A B} P (m : M A) (k : A -> M B) :
  raises_only P m -> (forall a, raises_only P (k a)) ->
  raises_only P (m ≫= k).
Proof.
  intros Hm Hk w e w'. unfold mbind, M_bind, bind.
  destruct (m w) as [[a|e0] w1] eqn:E.
  - apply Hk.
  - intros [= <- _]. by eapply Hm.
Qed.

Lemma raises_only_try_except {A} P Q (m : M A) (handler : exn -> M A) :
  raises_only Q m -> (forall e, Q e -> raises_only P (handler e)) ->
  raises_only P (try_except m handler).
Proof.
  intros Hm Hh w e w'. unfold try_except.
  destruct (m w) as [[a|e0] w1] eqn:E; [done|].
  apply Hh. by eapply Hm.
Qed.

Lemma raises_only_weaken {A} (P Q : exn -> Prop) (m : M A) :
  (forall e, P e -> Q e) -> raises_only P m -> raises_only Q m.
Proof. intros HPQ Hm w e w' E. eapply HPQ, Hm, E. Qed.

Lemma raises_only_logger_info P msg : raises_only P (logger_info msg).
Proof. by intros w e w'. Qed.


Lemma raises_only_read_file p :
  raises_only (fun e => e = enoent p \/ e = enotdir p \/ e = eisdir p)
    (read_file p).
Proof.
  intros w e w'. unfold read_file.
  repeat case_match; intros [= <- _]; auto.
Qed.

Lemma raises_only_open_write p :
  raises_only (fun e => isinstance e OSError = true) (open_write p).
Proof.
  intros w e w'. unfold open_write. repeat case_match; by intros [= <- _].
Qed.

Lemma raises_only_append_file p b :
  raises_only (fun e => isinstance e OSError = true) (append_file p b).
Proof.
  intros w e w'. unfold append_file. repeat case_match; by intros [= <- _].
Qed.


(** ** More on directories *)

Lemma keeps_mkdir p : keeps adds_directories (mkdir p).
Proof.
  intros w q. unfold mkdir.
  destruct (resolve (w_fs w) p) as [n| |] eqn:E; try by left.
  destruct (isdir (w_fs w) (dirname p)) eqn:Hd; [|by left].
  destruct (walk_enoent_parent _ _ E Hd) as [Hnone _]. cbn [snd w_fs].
  destruct (decide (q = p)) as [->|Hne].
  - right. rewrite lookup_insert_eq. split; [|done]. by destruct p.
  - left. by rewrite lookup_insert_ne.
Qed.

Lemma keeps_makedirs_rev depth rname exist_ok :
  keeps adds_directories (makedirs_rev depth rname exist_ok).
Proof.
  revert depth.
  induction rname as [|tail rhead IH]; intros depth; cbn [makedirs_rev];
    keeps_steps; done || apply keeps_mkdir.
Qed.

Lemma keeps_create_directories ps verbose :
  keeps adds_directories (create_directories ps verbose).
Proof.
  induction ps as [|p ps IH]; cbn [create_directories]; unfold makedirs;
    keeps_steps; try done; try apply keeps_makedirs_rev.
  apply keeps_logger_info. by left.
Qed.

(** X6.  Whatever its outcome, [create_directories] removes and
    overwrites nothing: every entry of the file system is what it was,
    except that directories may have appeared where there was nothing. *)
Theorem create_directories_only_adds_directories (ps : list path)
    (verbose : bool) (w : world) (q : path) :
  w_fs (create_directories ps verbose w).2 !! q = w_fs w !! q \/
  (w_fs w !! q = None /\
   w_fs (create_directories ps verbose w).2 !! q = Some Dir).
Proof. apply keeps_create_directories. Qed.



Lemma mkdir_log p w l :
  mkdir p (World (w_fs w) l) =
  ((mkdir p w).1, World (w_fs (mkdir p w).2) l).
Proof. unfold mkdir. cbn [w_fs w_log]. by repeat case_match. Qed.

Lemma makedirs_rev_log depth rname exist_ok w l :
  makedirs_rev depth rname exist_ok (World (w_fs w) l) =
  ((makedirs_rev depth rname exist_ok w).1,
   World (w_fs (makedirs_rev depth rname exist_ok w).2) l).
Proof.
  assert (Hlast : forall name w l,
    try_except (mkdir name)
      (fun e =>
         if isinstance e OSError then
           fs ← get_fs;
           if negb exist_ok || negb (isdir fs name) then raise e
           else ret tt
         else raise e) (World (w_fs w) l) =
    ((try_except (mkdir name)
        (fun e =>
           if isinstance e OSError then
             fs ← get_fs;
             if negb exist_ok || negb (isdir fs name) then raise e
             else ret tt
           else raise e) w).1,
     World (w_fs (try_except (mkdir name)
        (fun e =>
           if isinstance e OSError then
             fs ← get_fs;
             if negb exist_ok || negb (isdir fs name) then raise e
             else ret tt
           else raise e) w).2) l)).
  { intros name w0 l0. unfold try_except. rewrite mkdir_log.
    destruct (mkdir name w0) as [[[]|e] w1]; cbn [fst snd]; [done|].
    unfold mbind, M_bind, bind, get_fs.
    destruct (isinstance e OSError); [|done].
    cbn [w_fs]. by destruct (negb exist_ok || negb (isdir (w_fs w1) name)). }
  revert depth w l. induction rname as [|tail rhead IH]; intros depth w l;
    cbn [makedirs_rev].
  - unfold mbind, M_bind, bind, ret. apply Hlast.
  - unfold mbind at 1 3 5, M_bind at 1 3 5, bind.
    unfold mbind, M_bind, bind, get_fs. cbn [w_fs].
    destruct (negb (path_exists (w_fs w) (rev rhead))).
    + unfold try_except at 1 3 5. destruct depth as [|depth'].
      * by isinstance_known.
      * rewrite IH.
        destruct (makedirs_rev depth' rhead exist_ok w) as [[[]|e] w1];
          cbn [fst snd].
        -- apply Hlast.
        -- destruct (isinstance e FileExistsError); cbn [ret raise];
             [apply Hlast|done].
    + cbn [ret]. apply Hlast.
Qed.

(** X8.  [verbose] decides about the log and about nothing else: with
    [verbose=False] the call returns or raises as with [verbose=True] and
    leaves the same file system, and the log is what it was. *)
Theorem create_directories_verbose_only_logs (ps : list path) (w : world) :
  (create_directories ps false w).1 = (create_directories ps true w).1 /\
  w_fs (create_directories ps false w).2 =
    w_fs (create_directories ps true w).2 /\
  w_log (create_directories ps false w).2 = w_log w.
Proof.
  assert (H : forall fs l l',
    (create_directories ps false (World fs l)).1 =
      (create_directories ps true (World fs l')).1 /\
    w_fs (create_directories ps false (World fs l)).2 =
      w_fs (create_directories ps true (World fs l')).2 /\
    w_log (create_directories ps false (World fs l)).2 = l).
  { induction ps as [|p ps IH]; intros fs l l'; [done|].
    cbn [create_directories].
    unfold mbind at 1 3 5 7 9, M_bind at 1 3 5 7 9, bind, try_except, makedirs.
    unfold mbind, M_bind, bind.
    pose proof (makedirs_rev_log makedirs_depth (rev p) true (World fs l) l')
      as Hlog.
    cbn [w_fs] in Hlog. rewrite Hlog. clear Hlog.
    destruct (makedirs_rev makedirs_depth (rev p) true (World fs l))
      as [[[]|e] [fs1 l1]] eqn:E;
      cbn [fst snd w_fs ret logger_info].
    - pose proof (makedirs_rev_spec _ _ _ _ _ E) as (_ & Hl & _).
      cbn [w_log] in Hl. subst l1. apply IH.
    - pose proof (makedirs_rev_spec _ _ _ _ _ E) as (_ & Hl & _).
      cbn [w_log] in Hl. subst l1.
      by destruct (isinstance e OSError). }
  destruct w as [fs l]. apply H.
Qed.

(** ** Writing a file *)

Lemma open_write_writable p w :
  writable (w_fs w) p = true ->
  open_write p w = (Return tt, World (<[p := File []]> (w_fs w)) (w_log w)).
Proof.
  unfold open_write, writable.
  destruct (resolve (w_fs w) p) as [[b|]| |]; try done. by intros ->.
Qed.

Lemma append_file_fresh p b fs l :
  append_file p b (World (<[p := File []]> fs) l) =
  (Return tt, World (<[p := File b]> fs) l).
Proof.
  unfold append_file. cbn [w_fs w_log].
  by rewrite lookup_insert_eq, insert_insert_eq.
Qed.

(** ** More on images *)

Section Images.
Local Open Scope Z_scope.

(** X9.  When [imgstring] is not base64 text, [decodeImage] raises a
    [ValueError] that carries the message of the decoder, and the world is
    what it was: the file is neither created nor emptied. *)
Theorem decodeImage_invalid_base64 (imgstring : pystr) (p : path)
    (w : world) (e : exn) :
  b64decode imgstring = Raise e ->
  decodeImage imgstring p w =
    (Raise (Exn ValueError ("Error decoding image: " +:+ exn_str e)), w).
Proof.
  intros Hdec. unfold decodeImage, try_except, mbind, M_bind, bind.
  rewrite Hdec. cbn [lift raise]. by rewrite isinstance_Exception.
Qed.

(** X10.  When [imgstring] is base64 text and the path can be written,
    [decodeImage] leaves at the path a file with exactly the decoded
    bytes, whatever was there before, changes no other entry and logs one
    record. *)
Theorem decodeImage_writes_decoded_bytes (imgstring : pystr) (p : path)
    (w : world) (imgdata : list byte) :
  b64decode imgstring = Return imgdata ->
  writable (w_fs w) p = true ->
  decodeImage imgstring p w =
    (Return tt,
     World (<[p := File imgdata]> (w_fs w))
       (w_log w ++ [LogRecord INFO
                      ("Image decoded and saved at: " +:+ path_str p)])) /\
  resolve (<[p := File imgdata]> (w_fs w)) p = Found (File imgdata).
Proof.
  intros Hdec Hw. split; [|by apply resolve_insert_writable].
  unfold decodeImage, try_except, mbind, M_bind, bind.
  rewrite Hdec. cbn [lift ret].
  by rewrite open_write_writable, append_file_fresh.
Qed.

(** X11.  Encoding a file and decoding the text to another path copies
    the file: the new file holds the bytes of the old one. *)
Theorem encodeImageIntoBase64_decodeImage_copy (p q : path) (w : world)
    (data : list byte) :
  resolve (w_fs w) p = Found (File data) ->
  writable (w_fs w) q = true ->
  exists s w',
    encodeImageIntoBase64 p w = (Return s, w) /\
    decodeImage s q w = (Return tt, w') /\
    resolve (w_fs w') q = Found (File data).
Proof.
  intros Hfile Hw. eexists (map byte_val (b64encode data)), _.
  split; [|split].
  - unfold encodeImageIntoBase64, try_except, mbind, M_bind, bind, read_file.
    by rewrite Hfile, utf8_decode_b64encode.
  - unfold decodeImage, try_except, mbind, M_bind, bind.
    rewrite b64decode_b64encode. cbn [lift ret].
    by rewrite open_write_writable, append_file_fresh.
  - cbn [w_fs]. by apply resolve_insert_writable.
Qed.

Lemma not_base64_char c :
  is_base64_char c = false ->
  (c =? BASE64_PAD) = false /\ (64 <=? table_a2b_base64 c) = true.
Proof.
  unfold is_base64_char. intros H%Z.ltb_ge. split; [|by apply Z.leb_le].
  apply Z.eqb_neq. intros ->. by vm_compute in H.
Qed.

Lemma a2b_loop_skips s :
  Forall (fun c => 0 <= c < 128) s ->
  forall quad_pos leftchar pads nout,
    a2b_loop (map byte_of_Z s) quad_pos leftchar pads nout =
    a2b_loop (map byte_of_Z (List.filter is_base64_char s))
      quad_pos leftchar pads nout.
Proof.
  induction 1 as [|c s Hc _ IH]; intros quad_pos leftchar pads nout;
    [done|].
  cbn [map List.filter].
  destruct (is_base64_char c) eqn:Hchar.
  - cbn [map a2b_loop]. cbv zeta. rewrite byte_val_of_Z by lia.
    repeat case_match; rewrite ?IH; done.
  - apply not_base64_char in Hchar as [Hpad Hskip].
    cbn [a2b_loop]. cbv zeta. rewrite byte_val_of_Z by lia.
    rewrite Hpad, Hskip. apply IH.
Qed.

Lemma b64decode_skips s :
  Forall (fun c => 0 <= c < 128) s ->
  b64decode s = b64decode (List.filter is_base64_char s).
Proof.
  intros Hascii. unfold b64decode, bytes_from_decode_data, ascii_encode.
  assert (Hall : forall t, Forall (fun c => 0 <= c < 128) t ->
            forallb (fun c => (0 <=? c) && (c <? 128)) t = true).
  { intros t Ht. apply forallb_forall. intros c Hc%list_elem_of_In.
    rewrite Forall_forall in Ht. apply Ht in Hc. lia. }
  rewrite !Hall; [by apply a2b_loop_skips| |done].
  apply Forall_forall. intros c Hc%list_elem_of_In.
  apply filter_In in Hc as [Hc%list_elem_of_In _].
  rewrite Forall_forall in Hascii. by apply Hascii.
Qed.

(** X12.  [decodeImage] reads the characters of the base64 alphabet and
    the pad, and skips every other ASCII character: line breaks, spaces
    and the like in the text change nothing. *)
Theorem decodeImage_skips_other_characters (imgstring : pystr) (p : path)
    (w : world) :
  Forall (fun c => 0 <= c < 128) imgstring ->
  decodeImage imgstring p w =
  decodeImage (List.filter is_base64_char imgstring) p w.
Proof.
  intros Hascii. unfold decodeImage, try_except, mbind, M_bind, bind.
  by rewrite <- b64decode_skips.
Qed.

Lemma b2a_char_base64 s :
  0 <= s < 64 -> is_base64_char (byte_val (b2a_char s)) = true.
Proof.
  intros Hs. unfold is_base64_char.
  destruct (alphabet_inverse s Hs) as [_ ->]. apply Z.ltb_lt. lia.
Qed.

Lemma land_63_range x : 0 <= Z.land x 0x3f < 64.
Proof.
  change 0x3f with (2 ^ 6 - 1). rewrite land_mask by lia.
  apply Z.mod_pos_bound. lia.
Qed.

Lemma b2a_groups_base64 fuel lc lb :
  Forall (fun b => is_base64_char (byte_val b) = true)
    (b2a_groups fuel lc lb).1.
Proof.
  revert lb. induction fuel as [|fuel IH]; intros lb; simpl; [done|].
  destruct (6 <=? lb); [|done].
  specialize (IH (lb - 6)). destruct (b2a_groups fuel lc (lb - 6)) as [cs lb'].
  simpl in *. constructor; [|done].
  apply b2a_char_base64, land_63_range.
Qed.

Lemma b2a_loop_base64 bs lc lb :
  Forall (fun b => is_base64_char (byte_val b) = true) (b2a_loop bs lc lb).
Proof.
  revert lc lb. induction bs as [|b bs IH]; intros lc lb.
  - cbn [b2a_loop].
    repeat case_match; repeat constructor; try by vm_compute.
    + apply b2a_char_base64.
      change 3 with (2 ^ 2 - 1). rewrite land_mask by lia.
      rewrite Z.shiftl_mul_pow2 by lia.
      pose proof (Z.mod_pos_bound lc (2 ^ 2) ltac:(lia)). lia.
    + apply b2a_char_base64.
      change 0xf with (2 ^ 4 - 1). rewrite land_mask by lia.
      rewrite Z.shiftl_mul_pow2 by lia.
      pose proof (Z.mod_pos_bound lc (2 ^ 4) ltac:(lia)). lia.
  - cbn [b2a_loop].
    pose proof (b2a_groups_base64 (Z.to_nat (lb + 8))
      (Z.lor (Z.shiftl lc 8) (byte_val b) mod 2 ^ 32) (lb + 8)) as Hg.
    destruct (b2a_groups _ _ _) as [cs lb']. simpl in Hg.
    apply Forall_app. split; [done|apply IH].
Qed.

Lemma b2a_loop_length bs :
  forall lc, length (b2a_loop bs lc 0) = (4 * ((length bs + 2) / 3))%nat.
Proof.
  induction bs as [|b1|b1 b2|b1 b2 b3 bs IH] using list_ind3; intros lc.
  - reflexivity.
  - reflexivity.
  - reflexivity.
  - rewrite b2a_loop_bits0. cbv zeta. rewrite b2a_loop_bits2. cbv zeta.
    rewrite b2a_loop_bits4. cbv zeta. cbn [length]. rewrite IH.
    replace (S (S (S (length bs))) + 2)%nat
      with (1 * 3 + (length bs + 2))%nat by lia.
    rewrite Nat.div_add_l by lia. lia.
Qed.

(** X13.  The text [encodeImageIntoBase64] returns for a file of [n]
    bytes has four characters for every three bytes, the last group
    filled up, and consists of characters of the base64 alphabet and the
    pad only: there is no line break in it. *)
Theorem encodeImageIntoBase64_text (p : path) (w : world)
    (data : list byte) :
  resolve (w_fs w) p = Found (File data) ->
  exists s,
    encodeImageIntoBase64 p w = (Return s, w) /\
    length s = (4 * ((length data + 2) / 3))%nat /\
    Forall (fun c => is_base64_char c = true) s.
Proof.
  intros Hfile. exists (map byte_val (b64encode data)). split; [|split].
  - unfold encodeImageIntoBase64, try_except, mbind, M_bind, bind, read_file.
    by rewrite Hfile, utf8_decode_b64encode.
  - rewrite length_map. apply b2a_loop_length.
  - apply Forall_map. apply b2a_loop_base64.
Qed.

End Images.

(** ** Binary files *)

(** X14.  [save_bin] and [load_bin] cannot be used as they are
    annotated.  The wrapper's check of [data] against [typing.Any] makes
    [save_bin] raise a [TypeError] before anything is written or logged.
    [load_bin] never returns either: on a file that [joblib] can read it
    logs that the file was loaded and then raises the [TypeError] of the
    check of its result. *)
Theorem save_bin_load_bin_never_return (data : pyval) (p : path)
    (w : world) :
  save_bin data p w = (Raise any_check_error, w) /\
  (forall result w', load_bin p w <> (Return result, w')) /\
  (forall pickled result,
     resolve (w_fs w) p = Found (File pickled) ->
     joblib_loads pickled = Return result ->
     load_bin p w =
       (Raise any_check_error,
        World (w_fs w)
          (w_log w ++
           [LogRecord INFO ("Binary file loaded from: " +:+ path_str p)]))).
Proof.
  split; [done|]. split.
  - intros result w'.
    unfold load_bin, check_Any, mbind, M_bind, bind, raise.
    by destruct (try_except _ _ w) as [[a|e] w1].
  - intros pickled result Hfile Hloads.
    unfold load_bin, check_Any, joblib_load, try_except, mbind, M_bind, bind,
      read_file.
    by rewrite Hfile, Hloads.
Qed.

(** ** Documents that are not mappings *)

Lemma ConfigBox_init_scalar content :
  is_container content = false ->
  exists msg, ConfigBox_init content = Raise (Exn BoxValueError msg).
Proof. destruct content; try done; by eexists. Qed.

(** X15.  When the parser rejects the document, [read_yaml] raises a
    [ValueError] that names the path and carries the parser's message;
    nothing is logged. *)
Theorem read_yaml_parse_error (p : path) (w : world) (data : list byte)
    (e : exn) :
  resolve (w_fs w) p = Found (File data) ->
  yaml_safe_load data = Raise e ->
  isinstance e YAMLError = true ->
  read_yaml p w =
    (Raise (Exn ValueError
              ("Error parsing YAML file " +:+ path_str p +:+ ": "
               +:+ exn_str e)), w).
Proof.
  intros Hfile Hload He.
  unfold read_yaml, try_except, mbind, M_bind, bind, read_file.
  rewrite Hfile, Hload. cbn [lift raise]. by rewrite He.
Qed.

(** X16.  When the document is a scalar that is not falsy, a string or a
    number, [read_yaml] first logs that the file was loaded successfully
    and then raises the [BoxValueError] of [ConfigBox]. *)
Theorem read_yaml_logs_before_boxing (p : path) (w : world)
    (data : list byte) (content : pyval) :
  resolve (w_fs w) p = Found (File data) ->
  yaml_safe_load data = Return content ->
  truthy content = true ->
  is_container content = false ->
  exists msg,
    read_yaml p w =
      (Raise (Exn BoxValueError msg),
       World (w_fs w)
         (w_log w ++
          [LogRecord INFO
             ("YAML file: " +:+ path_str p +:+ " loaded successfully")])).
Proof.
  intros Hfile Hload Htruthy Hscalar.
  destruct (ConfigBox_init_scalar _ Hscalar) as [msg Hbox]. exists msg.
  unfold read_yaml, try_except, mbind, M_bind, bind, read_file.
  rewrite Hfile, Hload. cbn [lift ret]. rewrite Htruthy. cbn [negb].
  unfold logger_info. rewrite Hbox. cbn [lift raise]. by isinstance_known.
Qed.

(** X17.  When the file holds a JSON document that is not an object or an
    array, [load_json] first logs that the file was loaded successfully
    and then raises the [BoxValueError] of [ConfigBox], which its
    [except] clause does not catch. *)
Theorem load_json_not_a_mapping (p : path) (w : world) (data : list byte)
    (s : pystr) (content : pyval) :
  resolve (w_fs w) p = Found (File data) ->
  utf8_decode data = Return s ->
  json_loads s = Return content ->
  is_container content = false ->
  exists msg,
    load_json p w =
      (Raise (Exn BoxValueError msg),
       World (w_fs w)
         (w_log w ++
          [LogRecord INFO
             ("JSON file loaded successfully from: " +:+ path_str p)])).
Proof.
  intros Hfile Hdec Hload Hscalar.
  destruct (ConfigBox_init_scalar _ Hscalar) as [msg Hbox]. exists msg.
  unfold load_json, json_load, try_except, mbind, M_bind, bind, read_file.
  rewrite Hfile, Hdec. cbn [lift ret]. rewrite Hload. cbn [lift ret].
  unfold logger_info. rewrite Hbox. cbn [lift raise]. by isinstance_known.
Qed.

(** ** The log of a call that fails *)

Lemma keeps_on_failure_keeps {A} R (m : M A) :
  keeps R m -> keeps_on_failure R m.
Proof. intros H w e w' E. specialize (H w). by rewrite E in H. Qed.

Lemma keeps_on_failure_bind {A B} R `{!PreOrder R} (m : M A)
    (k : A -> M B) :
  keeps R m -> (forall a, keeps_on_failure R (k a)) ->
  keeps_on_failure R (m ≫= k).
Proof.
  intros Hm Hk w e w'. unfold mbind, M_bind, bind.
  specialize (Hm w). destruct (m w) as [[a|e0] w1]; cbn [snd] in Hm.
  - intros E. etransitivity; [exact Hm|by eapply Hk].
  - by intros [= <- <-].
Qed.

Lemma keeps_on_failure_try_except {A} R `{!PreOrder R} (m : M A)
    (handler : exn -> M A) :
  keeps_on_failure R m -> (forall e, keeps R (handler e)) ->
  keeps_on_failure R (try_except m handler).
Proof.
  intros Hm Hh w e w'. unfold try_except.
  destruct (m w) as [[a|e0] w1] eqn:E; [done|].
  intros E'. etransitivity; [by eapply Hm|].
  specialize (Hh e0 w1). by rewrite E' in Hh.
Qed.

Lemma keeps_on_failure_forget {A} R (m : M A) :
  keeps_on_failure R m -> keeps_on_failure R (m ≫= fun _ => ret tt).
Proof.
  intros Hm w e w'. unfold mbind, M_bind, bind.
  destruct (m w) as [[a|e0] w1] eqn:E; [done|].
  intros [= <- <-]. by eapply Hm.
Qed.

Lemma keeps_on_failure_logger_info R msg :
  keeps_on_failure R (logger_info msg).
Proof. by intros w e w'. Qed.

Lemma keeps_open_write_log p : keeps same_log (open_write p).
Proof. intros w. unfold open_write, same_log. by repeat case_match. Qed.

Lemma keeps_append_file_log p b : keeps same_log (append_file p b).
Proof. intros w. unfold append_file, same_log. by repeat case_match. Qed.

(** X18.  A call of [save_json], [save_bin], [get_size], [decodeImage]
    or [encodeImageIntoBase64] that raises has logged nothing. *)
Theorem failed_call_leaves_log (c : call) (w w' : world) (e : exn) :
  logs_as_last_step c = true ->
  run c w = (Raise e, w') ->
  w_log w' = w_log w.
Proof.
  intros Hc. revert w e w'. change (keeps_on_failure same_log (run c)).
  pose proof keeps_open_write_log as Hopen.
  pose proof keeps_append_file_log as Happend.
  destruct c as [p|ps verbose|p data|p|data p|p|p|s p|p]; try done;
    cbn [run].
  - unfold save_json, json_dump.
    apply keeps_on_failure_try_except; [apply _| |intros e0; keeps_steps].
    apply keeps_on_failure_bind; [apply _|done|]. intros _.
    apply keeps_on_failure_bind;
      [apply _| |intros _; apply keeps_on_failure_logger_info].
    keeps_steps; done.
  - by intros w e w' [= _ <-].
  - apply keeps_on_failure_keeps. unfold get_size. keeps_steps.
  - unfold decodeImage.
    apply keeps_on_failure_try_except; [apply _| |intros e0; keeps_steps].
    apply keeps_on_failure_bind; [apply _|keeps_steps|]. intros imgdata.
    apply keeps_on_failure_bind; [apply _|done|]. intros _.
    apply keeps_on_failure_bind;
      [apply _|done|intros _; apply keeps_on_failure_logger_info].
  - apply keeps_on_failure_keeps. unfold encodeImageIntoBase64. keeps_steps.
Qed.

(** ** What the helpers raise, by class *)

Lemma raises_only_anything {A} (m : M A) : raises_only (fun _ => True) m.
Proof. by intros w e w'. Qed.


(** X19.  What the helpers with a catch-all [except] clause raise:
    [decodeImage] nothing but plain [ValueError]s, and
    [encodeImageIntoBase64] a [FileNotFoundError] or a [ValueError].
    [save_bin] raises the [TypeError] of the wrapper's check and nothing
    else; [load_bin] raises a plain [ValueError] or that [TypeError]. *)
Theorem raised_exception_classes (c : call) (w w' : world) (e : exn) :
  run c w = (Raise e, w') ->
  match c with
  | DecodeImage _ _ => exn_type e = ValueError
  | EncodeImageIntoBase64 _ =>
      exn_type e = FileNotFoundError \/ exn_type e = ValueError
  | SaveBin _ _ => e = any_check_error
  | LoadBin _ => exn_type e = ValueError \/ e = any_check_error
  | _ => True
  end.
Proof.
  revert w e w'.
  destruct c as [p|ps verbose|p data|p|data p|p|p|s p|p]; try done;
    cbn [run].
  - by intros w e w' [= <- _].
  - change (raises_only
              (fun e => exn_type e = ValueError \/ e = any_check_error)
              (load_bin p ≫= fun _ => ret tt)).
    apply raises_only_bind; [|intros; apply raises_only_ret].
    unfold load_bin. apply raises_only_bind.
    + eapply raises_only_try_except; [apply raises_only_anything|].
      intros e _. cbv beta. rewrite isinstance_Exception.
      apply raises_only_raise. by left.
    + intros data. apply raises_only_bind; [|intros; apply raises_only_ret].
      apply raises_only_raise. by right.
  - change (raises_only (fun e => exn_type e = ValueError) (decodeImage s p)).
    eapply raises_only_try_except; [apply raises_only_anything|].
    intros e _. cbv beta. rewrite isinstance_Exception.
    by apply raises_only_raise.
  - change (raises_only
              (fun e => exn_type e = FileNotFoundError \/
                        exn_type e = ValueError)
              (encodeImageIntoBase64 p ≫= fun _ => ret tt)).
    apply raises_only_bind; [|intros; apply raises_only_ret].
    eapply raises_only_try_except; [apply raises_only_anything|].
    intros e _. cbv beta. rewrite isinstance_Exception.
    case_match; apply raises_only_raise; auto.
Qed.

(** ** What the encoder raises *)

Section JsonErrors.
Local Infix ">>>" := then_chunks (at level 62, right associativity).

Lemma then_chunks_error a b e :
  (a >>> b).2 = Some e -> a.2 = Some e \/ b.2 = Some e.
Proof. destruct a as [s [e0|]]; cbn; auto. Qed.

Lemma atom_text_error v e :
  atom_text v = Some (Raise e) -> e = int_digits_error.
Proof.
  destruct v as [ |[]|n| | | | | ]; try done.
  cbn [atom_text]. unfold int_repr. case_match; congruence.
Qed.

Lemma encode_key_error k e :
  encode_key k = Raise e -> exn_type e = TypeError \/ e = int_digits_error.
Proof.
  destruct k as [ |[]|n| | | | | ]; try done; cbn [encode_key];
    try (intros [= <-]; by left).
  unfold int_repr. case_match; [|done]. intros [= <-]. by right.
Qed.


Lemma item_chunk_error (P : exn -> Prop) v level (first rest : pystr) e :
  P int_digits_error ->
  (forall level e, (unlimited_iterencode v level).2 = Some e -> P e) ->
  (match atom_text v with
   | Some (Return text) => yield (first ++ text)
   | Some (Raise e) => throw e
   | None => yield rest >>> unlimited_iterencode v (S level)
   end).2 = Some e -> P e.
Proof.
  intros Hdigits Hv. destruct (atom_text v) as [[text|e0]|] eqn:Ea.
  - done.
  - intros [= <-]. by rewrite (atom_text_error _ _ Ea).
  - intros [H|H]%then_chunks_error; [done|by eapply Hv].
Qed.

Lemma iterencode_error v :
  forall level e,
    (unlimited_iterencode v level).2 = Some e ->
    exn_type e = TypeError \/ e = int_digits_error.
Proof.
  induction v as [ |b|n|x|s|l IH|l IH|d IH] using pyval_nested_ind;
    intros level e.
  - done.
  - by destruct b.
  - cbn [unlimited_iterencode atom_text].
    destruct (int_repr n) as [text|e0] eqn:E; [done|].
    intros [= <-]. right. unfold int_repr in E. case_match; congruence.
  - done.
  - done.
  - rewrite iterencode_list. destruct l as [|v l]; [done|].
    intros [H|H]%then_chunks_error; [|done].
    revert H. generalize (91%Z :: newline_indent (S level)).
    induction IH as [|v0 l0 Hv0 _ IHl]; intros buf; [done|].
    cbn [unlimited_list_items].
    intros [H|H]%then_chunks_error; [|by eapply IHl].
    revert H.
    apply (item_chunk_error
             (fun e => exn_type e = TypeError \/ e = int_digits_error)
             v0 level buf buf e); [by right|done].
  - rewrite unlimited_iterencode_tuple, iterencode_list. destruct l as [|v l]; [done|].
    intros [H|H]%then_chunks_error; [|done].
    revert H. generalize (91%Z :: newline_indent (S level)).
    induction IH as [|v0 l0 Hv0 _ IHl]; intros buf; [done|].
    cbn [unlimited_list_items].
    intros [H|H]%then_chunks_error; [|by eapply IHl].
    revert H.
    apply (item_chunk_error
             (fun e => exn_type e = TypeError \/ e = int_digits_error)
             v0 level buf buf e); [by right|done].
  - rewrite iterencode_dict. destruct d as [|kv d]; [done|].
    intros [H|H]%then_chunks_error; [done|].
    apply then_chunks_error in H as [H|H]; [done|].
    apply then_chunks_error in H as [H|H]; [|done].
    revert H. generalize true.
    induction IH as [|[k v0] d0 [_ Hv0] _ IHd]; intros first; [done|].
    cbn [unlimited_dict_items]. cbn [fst snd] in Hv0.
    destruct (encode_key k) as [key|e0] eqn:Ek.
    + intros [H|H]%then_chunks_error; [by destruct first|].
      apply then_chunks_error in H as [H|H]; [done|].
      apply then_chunks_error in H as [H|H]; [done|].
      apply then_chunks_error in H as [H|H]; [|by eapply IHd].
      destruct (atom_text v0) as [[text|e1]|] eqn:Ea.
      * done.
      * injection H as <-. right. by eapply atom_text_error.
      * by eapply Hv0.
    + intros [= <-]. by eapply encode_key_error.
Qed.

(** The generator and the one without a limit yield the same, or the
    generator ends in a [RecursionError]. *)
Lemma limited_then a a' b b' :
  limited a a' -> limited b b' -> limited (a >>> b) (a' >>> b').
Proof.
  intros [->|Ha] [->|Hb].
  - by left.
  - destruct a' as [s [e|]]; [by left|by right].
  - right. destruct a as [s err]. cbn in Ha. by subst.
  - right. destruct a as [s err]. cbn in Ha. by subst.
Qed.

Lemma list_items_limited level l :
  Forall (fun v => forall level,
            limited (iterencode v level) (unlimited_iterencode v level)) l ->
  forall buf,
    limited (iterencode_list_items level l buf)
      (unlimited_list_items level l buf).
Proof.
  induction 1 as [|v l Hv _ IH]; intros buf; [by left|].
  cbn [iterencode_list_items unlimited_list_items].
  apply limited_then; [|apply IH].
  destruct (atom_text v) as [[text|e]|]; [by left|by left|].
  apply limited_then; [by left|apply Hv].
Qed.

Lemma dict_items_limited level d :
  Forall (fun kv =>
            (forall level,
               limited (iterencode kv.1 level)
                 (unlimited_iterencode kv.1 level)) /\
            (forall level,
               limited (iterencode kv.2 level)
                 (unlimited_iterencode kv.2 level))) d ->
  forall first,
    limited (iterencode_dict_items level d first)
      (unlimited_dict_items level d first).
Proof.
  induction 1 as [|[k v] d [_ Hv] _ IH]; intros first; [by left|].
  cbn [iterencode_dict_items unlimited_dict_items]. cbn [snd] in Hv.
  destruct (encode_key k) as [key|e]; [|by left].
  repeat (apply limited_then; [by left|]).
  apply limited_then; [|apply IH].
  destruct (atom_text v) as [[text|e]|]; [by left|by left|apply Hv].
Qed.

Lemma iterencode_limited v :
  forall level, limited (iterencode v level) (unlimited_iterencode v level).
Proof.
  induction v as [ |b|n|x|s|l IH|l IH|d IH] using pyval_nested_ind;
    intros level; try (by left).
  - rewrite iterencode_guarded_list, iterencode_list.
    destruct (encoder_depth <=? level)%nat; [by right|].
    destruct l as [|v l]; [by left|].
    apply limited_then; [by apply list_items_limited|by left].
  - rewrite iterencode_guarded_tuple, unlimited_iterencode_tuple.
    rewrite iterencode_guarded_list, iterencode_list.
    destruct (encoder_depth <=? level)%nat; [by right|].
    destruct l as [|v l]; [by left|].
    apply limited_then; [by apply list_items_limited|by left].
  - rewrite iterencode_guarded_dict, iterencode_dict.
    destruct (encoder_depth <=? level)%nat; [by right|].
    destruct d as [|kv d]; [by left|].
    repeat (apply limited_then; [by left|]).
    apply limited_then; [by apply dict_items_limited|by left].
Qed.

(** What ends the generator: the [TypeError] of a key that cannot be
    written, the [ValueError] of an integer with too many digits, or, on
    a value nested deeper than the limit, a [RecursionError]. *)
Lemma iterencode_raises v e :
  (iterencode v 0).2 = Some e ->
  exn_type e = TypeError \/ e = int_digits_error \/
  (e = recursion_error /\ (encoder_depth < nesting_depth v)%nat).
Proof.
  intros He. destruct (le_lt_dec (nesting_depth v) encoder_depth) as [Hd|Hd].
  - rewrite (iterencode_within v 0%nat) in He by done.
    apply iterencode_error in He as [?| ?]; auto.
  - destruct (iterencode_limited v 0%nat) as [E|E].
    + rewrite E in He. apply iterencode_error in He as [?| ?]; auto.
    + rewrite E in He. injection He as <-. auto.
Qed.

End JsonErrors.

Lemma raises_only_json_dump obj fp :
  raises_only
    (fun e => isinstance e TypeError = true \/ isinstance e OSError = true \/
              isinstance e ValueError = true \/
              (e = recursion_error /\
               (encoder_depth < nesting_depth obj)%nat))
    (json_dump obj fp).
Proof.
  unfold json_dump.
  destruct (iterencode obj 0) as [text err] eqn:Eenc.
  apply raises_only_bind.
  - apply raises_only_lift. unfold utf8_encode. intros e.
    case_match; [done|]. intros [= <-]. auto.
  - intros data. apply raises_only_bind.
    + eapply raises_only_weaken; [|apply raises_only_append_file]. auto.
    + intros _. destruct err as [e|]; [|apply raises_only_ret].
      apply raises_only_raise.
      destruct (iterencode_raises obj e) as [Hty|[->|Hdeep]];
        [by rewrite Eenc| |auto|auto].
      left. unfold isinstance. by rewrite Hty.
Qed.

(** X20.  Every exception [save_json] raises is a [ValueError], with one
    exception.  Errors of the operating system and the [TypeError] of a
    key that cannot be written are turned into a [ValueError], and an
    integer with too many digits raises one; but on a mapping nested
    deeper than the recursion limit lets the encoder go, the
    [RecursionError] of the encoder is not caught and comes out as it
    is. *)
Theorem save_json_raises_ValueError_or_RecursionError (p : path)
    (data : list (pyval * pyval)) (w w' : world) (e : exn) :
  save_json p data w = (Raise e, w') ->
  isinstance e ValueError = true \/
  (e = recursion_error /\
   (encoder_depth < nesting_depth (PyDict data))%nat).
Proof.
  revert w e w'.
  change (raises_only
            (fun e => isinstance e ValueError = true \/
                      (e = recursion_error /\
                       (encoder_depth < nesting_depth (PyDict data))%nat))
            (save_json p data)).
  apply (raises_only_try_except _
           (fun e => isinstance e TypeError = true \/
                     isinstance e OSError = true \/
                     isinstance e ValueError = true \/
                     (e = recursion_error /\
                      (encoder_depth < nesting_depth (PyDict data))%nat))).
  - apply raises_only_bind.
    + eapply raises_only_weaken; [|apply raises_only_open_write].
      intros e He. right. left. exact He.
    + intros _. apply raises_only_bind; [apply raises_only_json_dump|].
      intros _. apply raises_only_logger_info.
  - intros e He. cbv beta.
    destruct (isinstance e TypeError || isinstance e OSError) eqn:Hcatch.
    + apply raises_only_raise. by left.
    + apply raises_only_raise. apply orb_false_iff in Hcatch as [H1 H2].
      destruct He as [He|[He|[He|He]]]; [congruence|congruence|by left|].
      by right.
Qed.

(** X21.  [save_json] empties the file before it encodes: when the
    encoder stops at a key it cannot write, the [ValueError] is raised
    after the file has been replaced by the text written up to that key.
    What the file held before is lost, and nothing is logged. *)
Theorem save_json_failure_leaves_partial_file (p : path)
    (data : list (pyval * pyval)) (w : world) (text : pystr) (e : exn)
    (written : list byte) :
  writable (w_fs w) p = true ->
  iterencode (PyDict data) 0 = (text, Some e) ->
  exn_type e = TypeError ->
  utf8_encode text = Return written ->
  save_json p data w =
    (Raise (Exn ValueError
              ("Error saving JSON file at " +:+ path_str p +:+ ": "
               +:+ exn_str e)),
     World (<[p := File written]> (w_fs w)) (w_log w)).
Proof.
  intros Hw Henc Hty Htext.
  unfold save_json, json_dump, try_except, mbind, M_bind, bind.
  rewrite open_write_writable by done.
  rewrite Henc, Htext. cbn [lift ret]. rewrite append_file_fresh.
  cbn [raise]. unfold isinstance. rewrite Hty. reflexivity.
Qed.

(** ** What comes back from JSON text *)

Section JsonImages.
Local Open Scope Z_scope.

Lemma plain_str_ascii s :
  Forall (fun c => 0 <= c < 128) s -> plain_str s = true.
Proof.
  induction 1 as [|c s Hc _ IH]; [done|].
  cbn [plain_str]. rewrite IH. unfold is_high_surrogate.
  destruct (Z.leb_spec 0 c); [|lia]. destruct (Z.ltb_spec c 0x110000); [|lia].
  destruct (Z.leb_spec 0xd800 c); [lia|]. done.
Qed.

Lemma key_image_plain k :
  plain_key k = true ->
  exists s, key_image k = PyStr s /\ plain_str s = true.
Proof.
  destruct k as [ |[]|n| |s| | | ]; try done; cbn [plain_key]; intros Hk.
  - by eexists.
  - by eexists.
  - by eexists.
  - exists (of_string (pretty n)). split; [done|].
    apply plain_str_ascii, int_text_ascii.
  - by exists s.
Qed.

Lemma encode_key_image k :
  plain_key k = true -> encode_key (key_image k) = encode_key k.
Proof.
  destruct k as [ |[]|n| |s| | | ]; try done; cbn [plain_key]; intros Hk.
  cbn [encode_key key_image]. by rewrite int_repr_plain.
Qed.

Lemma distinct_keys_fst (d1 d2 : list (pyval * pyval)) :
  map fst d1 = map fst d2 -> distinct_keys d1 = distinct_keys d2.
Proof.
  revert d2. induction d1 as [|[k1 v1] d1 IH]; intros [|[k2 v2] d2];
    try done.
  cbn [map fst]. intros [= -> Hkeys]. cbn [distinct_keys].
  rewrite (IH d2 Hkeys). f_equal. f_equal.
  clear IH. revert d2 Hkeys.
  induction d1 as [|[k1 v1'] d1 IH]; intros [|[k3 v3] d2]; try done.
  cbn [map fst]. intros [= -> Hkeys]. cbn [existsb fst].
  by rewrite (IH d2 Hkeys).
Qed.

Lemma atom_text_image v : atom_text (json_image v) = atom_text v.
Proof. by destruct v. Qed.

Lemma json_image_plain v :
  json_coercible v = true -> json_plain (json_image v) = true.
Proof.
  induction v as [ |b|n|x|s|l IH|l IH|d IH] using pyval_nested_ind;
    try done.
  - cbn [json_coercible json_image json_plain].
    induction IH as [|v l Hv _ IHl]; [done|].
    cbn [forallb map]. intros [H1 H2]%andb_prop.
    by rewrite Hv, IHl.
  - cbn [json_coercible json_image json_plain].
    induction IH as [|v l Hv _ IHl]; [done|].
    cbn [forallb map]. intros [H1 H2]%andb_prop.
    by rewrite Hv, IHl.
  - cbn [json_coercible json_image json_plain].
    intros [Hall Hdist]%andb_prop. apply andb_true_intro. split.
    + clear Hdist. induction IH as [|[k v] d [_ Hv] _ IHd]; [done|].
      cbn [forallb map] in *.
      apply andb_prop in Hall as [[Hk Hc]%andb_prop Hall].
      destruct (key_image_plain k Hk) as (s & -> & Hs).
      cbn [fst snd] in Hv. by rewrite Hs, Hv, IHd.
    + rewrite <- Hdist. apply distinct_keys_fst.
      rewrite !map_map. apply map_ext. by intros [k v].
Qed.

Lemma iterencode_image v :
  json_coercible v = true ->
  forall level, unlimited_iterencode (json_image v) level = unlimited_iterencode v level.
Proof.
  induction v as [ |b|n|x|s|l IH|l IH|d IH] using pyval_nested_ind;
    try done.
  - cbn [json_coercible json_image]. intros Hall level.
    rewrite !iterencode_list. destruct l as [|v0 l0]; [done|].
    cbn [map]. change (json_image v0 :: map json_image l0)
      with (map json_image (v0 :: l0)).
    f_equal. generalize (91 :: newline_indent (S level)).
    induction IH as [|v l Hv _ IHl]; intros buf; [done|].
    cbn [forallb map unlimited_list_items] in *.
    apply andb_prop in Hall as [H1 H2].
    by rewrite atom_text_image, Hv, IHl.
  - cbn [json_coercible json_image]. intros Hall level.
    rewrite unlimited_iterencode_tuple, !iterencode_list.
    destruct l as [|v0 l0]; [done|].
    cbn [map]. change (json_image v0 :: map json_image l0)
      with (map json_image (v0 :: l0)).
    f_equal. generalize (91 :: newline_indent (S level)).
    induction IH as [|v l Hv _ IHl]; intros buf; [done|].
    cbn [forallb map unlimited_list_items] in *.
    apply andb_prop in Hall as [H1 H2].
    by rewrite atom_text_image, Hv, IHl.
  - cbn [json_coercible json_image]. intros [Hall _]%andb_prop level.
    rewrite !iterencode_dict. destruct d as [|kv0 d0]; [done|].
    cbn [map].
    change ((let '(k, v) := kv0 in (key_image k, json_image v))
            :: map (fun '(k, v) => (key_image k, json_image v)) d0)
      with (map (fun '(k, v) => (key_image k, json_image v)) (kv0 :: d0)).
    do 2 f_equal. f_equal. generalize true.
    induction IH as [|[k v] d [_ Hv] _ IHd]; intros first; [done|].
    cbn [forallb map unlimited_dict_items] in *.
    apply andb_prop in Hall as [[Hk Hc]%andb_prop Hall].
    rewrite (encode_key_image k Hk). cbn [fst snd] in *.
    by rewrite atom_text_image, Hv, IHd.
Qed.

Lemma nesting_depth_image v :
  nesting_depth (json_image v) = nesting_depth v.
Proof.
  induction v as [ |b|n|x|s|l IH|l IH|d IH] using pyval_nested_ind;
    try done; cbn [json_image].
  - induction IH as [|v l Hv _ IHl]; [done|].
    cbn [map]. by rewrite !nesting_depth_list, Hv, IHl.
  - change (nesting_depth (PyTuple l)) with (nesting_depth (PyList l)).
    induction IH as [|v l Hv _ IHl]; [done|].
    cbn [map]. by rewrite !nesting_depth_list, Hv, IHl.
  - induction IH as [|[k v] d [_ Hv] _ IHd]; [done|].
    cbn [map snd] in *. by rewrite !nesting_depth_dict, Hv, IHd.
Qed.

(** X22.  What [load_json] returns after [save_json] is the image of the
    mapping under JSON: for a mapping without floats, with integers
    within the digit limit, with keys that are pairwise different once
    written, and nested no deeper than the recursion limit lets the
    encoder and the decoder go, [save_json] succeeds and [load_json]
    returns the mapping with every tuple turned into a list and every key
    that is an integer, a boolean or [None] turned into the string it was
    written as. *)
Theorem save_json_load_json_image (p : path)
    (data : list (pyval * pyval)) (w : world) :
  json_coercible (PyDict data) = true ->
  (nesting_depth (PyDict data) <= encoder_depth)%nat ->
  (nesting_depth (PyDict data) <= decoder_depth)%nat ->
  writable (w_fs w) p = true ->
  exists w1 w2,
    save_json p data w = (Return tt, w1) /\
    load_json p w1 =
      (Return (Box (map (fun '(k, v) => (key_image k, json_image v)) data)),
       w2).
Proof.
  intros Hco Henc Hdec Hw.
  pose proof (json_image_plain _ Hco) as Hplain.
  pose proof (iterencode_image _ Hco 0%nat) as Himage.
  rewrite <- (nesting_depth_image (PyDict data)) in Hdec.
  cbn [json_image] in Hplain, Himage, Hdec.
  set (data' := map (fun '(k, v) => (key_image k, json_image v)) data) in *.
  pose proof (iterencode_plain _ Hplain 0%nat) as Hok.
  pose proof (text_ascii _ Hplain 0%nat) as Hascii.
  pose proof (json_loads_encoded _ Hplain Hdec) as Hloads.
  pose proof (iterencode_within (PyDict data) 0%nat Henc) as Hwithin.
  rewrite Himage in Hok, Hascii, Hloads.
  destruct (unlimited_iterencode (PyDict data) 0) as [text err] eqn:Eenc.
  cbn [fst snd] in *. subst err.
  exists (World (<[p := File (map byte_of_Z text)]> (w_fs w))
            (w_log w ++ [LogRecord INFO ("JSON file saved at: " +:+ path_str p)])).
  eexists. split.
  - unfold save_json, json_dump, try_except, mbind, M_bind, bind.
    rewrite open_write_writable by done.
    rewrite Hwithin, (utf8_encode_ascii _ Hascii). cbn [lift ret].
    by rewrite append_file_fresh.
  - unfold load_json, json_load, try_except, mbind, M_bind, bind, read_file.
    cbn [w_fs]. rewrite resolve_insert_writable by done.
    rewrite (utf8_decode_ascii _ Hascii). cbn [lift ret]. rewrite Hloads.
    cbn [lift ret]. unfold logger_info. cbn [ConfigBox_init lift ret].
    reflexivity.
Qed.

End JsonImages.

(** ** Paths that cannot be written *)

Lemma open_write_unwritable p w :
  writable (w_fs w) p = false ->
  exists e, open_write p w = (Raise e, w) /\ isinstance e OSError = true.
Proof.
  unfold open_write, writable.
  destruct (resolve (w_fs w) p) as [[b|]| |]; try done;
    try (intros _; by eexists).
  intros ->. by eexists.
Qed.

(** X23.  Neither [save_json] nor [decodeImage] creates a missing
    directory: when the path cannot be opened for writing, because its
    directory is missing, because it leads through a regular file or
    because it names a directory, they raise a [ValueError] that carries
    the message of the operating system, and the world is what it
    was. *)
Theorem writers_unwritable_path (p : path) (w : world) :
  writable (w_fs w) p = false ->
  exists cause,
    isinstance cause OSError = true /\
    (forall data,
       save_json p data w =
         (Raise (Exn ValueError
                   ("Error saving JSON file at " +:+ path_str p +:+ ": "
                    +:+ exn_str cause)), w)) /\
    (forall imgstring imgdata,
       b64decode imgstring = Return imgdata ->
       decodeImage imgstring p w =
         (Raise (Exn ValueError
                   ("Error decoding image: " +:+ exn_str cause)), w)).
Proof.
  intros Hw. destruct (open_write_unwritable _ _ Hw) as (e & Hopen & He).
  exists e. split; [done|]. split.
  - intros data. unfold save_json, try_except, mbind, M_bind, bind.
    rewrite Hopen, He. by rewrite orb_true_r.
  - intros s imgdata Hdec.
    unfold decodeImage, try_except, mbind, M_bind, bind.
    rewrite Hdec. cbn [lift ret]. rewrite Hopen.
    by rewrite isinstance_Exception.
Qed.

End Common.


(** * Examples and counterexamples *)

(** The helpers with the sample library. *)
Abbreviation read_yaml' := (read_yaml sample_yaml_load sample_box_from_iterable).
Abbreviation load_json' :=
  (load_json sample_box_from_iterable sample_float_of_literal sample_depth).
Abbreviation save_json' := (save_json sample_float_repr sample_depth).
Abbreviation create_directories' := (create_directories sample_depth).
Abbreviation run' :=
  (run sample_dir_size sample_yaml_load sample_box_from_iterable
     sample_float_repr sample_float_of_literal sample_joblib_dumps
     sample_joblib_loads sample_depth sample_depth sample_depth).

(** C1 at the mapping of the specification's scenario,
    [{"a": 1, "b": [1, 2, 3]}], with a float and an infinity added,
    written to [out.json]. *)
Lemma save_json_load_json_roundtrip_witness :
  json_plain sample_float_repr sample_float_of_literal
    (PyDict sample_float_data) = true /\
  (nesting_depth (PyDict sample_float_data) <= sample_depth)%nat /\
  writable (w_fs empty_world) ["out.json"%string] = true /\
  exists w1 w2,
    save_json' ["out.json"%string] sample_float_data empty_world
      = (Return tt, w1) /\
    load_json' ["out.json"%string] w1 = (Return (Box sample_float_data), w2).
Proof.
  split; [vm_compute; reflexivity|]. split; [vm_compute; lia|].
  split; [vm_compute; reflexivity|].
  apply (save_json_load_json_roundtrip sample_box_from_iterable
           sample_float_repr sample_float_of_literal sample_depth
           sample_depth);
    try (vm_compute; reflexivity); vm_compute; lia.
Defined.

(** C1 as stated fails on a mapping with an integer key: [{1: 2}] is
    written with the key ["1"], and what is loaded has that string as its
    key, which no lookup or comparison takes for the integer [1]. *)
Lemma save_json_load_json_int_key :
  ~ (forall (data : list (pyval * pyval)) (p : path) (w : world),
       (exists text,
          json_dumps sample_float_repr sample_depth (PyDict data)
          = Return text) ->
       writable (w_fs w) p = true ->
       exists w1 b w2,
         save_json' p data w = (Return tt, w1) /\
         load_json' p w1 = (Return b, w2) /\
         py_eq (PyDict (box_items b)) (PyDict data) = true).
Proof.
  intros H.
  destruct (H [(PyInt 1, PyInt 2)] ["out.json"%string] empty_world)
    as (w1 & b & w2 & Hsave & Hload & Heq).
  - eexists. vm_compute. reflexivity.
  - vm_compute. reflexivity.
  - vm_compute in Hsave. injection Hsave as <-.
    vm_compute in Hload. injection Hload as <- _.
    vm_compute in Heq. discriminate Heq.
Qed.

(** C2 at the base64 text of ["hello"]. *)
Lemma decodeImage_encodeImageIntoBase64_roundtrip_witness :
  b64decode (of_string "aGVsbG8=") = Return (bytes_of "hello") /\
  writable (w_fs empty_world) ["img.png"%string] = true /\
  exists w1 s',
    decodeImage (of_string "aGVsbG8=") ["img.png"%string] empty_world
      = (Return tt, w1) /\
    encodeImageIntoBase64 ["img.png"%string] w1 = (Return s', w1) /\
    b64decode s' = Return (bytes_of "hello").
Proof.
  split; [vm_compute; reflexivity|]. split; [vm_compute; reflexivity|].
  apply decodeImage_encodeImageIntoBase64_roundtrip; vm_compute; reflexivity.
Defined.

(** C3 at a configuration file with one entry. *)
Lemma read_yaml_mapping_witness :
  resolve (w_fs (world_with ["config.yaml"%string] (bytes_of "epochs: 1")))
    ["config.yaml"%string] = Found (File (bytes_of "epochs: 1")) /\
  sample_yaml_load (bytes_of "epochs: 1") =
    Return (PyDict [(PyStr (of_string "epochs"), PyInt 1)]) /\
  [(PyStr (of_string "epochs"), PyInt 1)] <> [] /\
  exists b,
    read_yaml' ["config.yaml"%string]
      (world_with ["config.yaml"%string] (bytes_of "epochs: 1")) =
      (Return b,
       World (w_fs (world_with ["config.yaml"%string] (bytes_of "epochs: 1")))
         (w_log (world_with ["config.yaml"%string] (bytes_of "epochs: 1")) ++
          [LogRecord INFO
             ("YAML file: " +:+ path_str ["config.yaml"%string]
              +:+ " loaded successfully")])) /\
    (forall key,
       box_getitem b key =
       dict_get [(PyStr (of_string "epochs"), PyInt 1)] key) /\
    (forall name v,
       dict_get [(PyStr (of_string "epochs"), PyInt 1)] (PyStr name) = Some v ->
       name ∉ dict_methods -> sample_box_class_attr name = false ->
       box_getattr sample_box_class_attr sample_box_attr_fallback b name
       = AttrValue v).
Proof.
  split; [vm_compute; reflexivity|]. split; [vm_compute; reflexivity|].
  split; [discriminate|].
  apply (read_yaml_mapping sample_yaml_load sample_box_from_iterable
           sample_box_class_attr sample_box_attr_fallback
           _ _ (bytes_of "epochs: 1"));
    [vm_compute; reflexivity|vm_compute; reflexivity|discriminate].
Defined.

(** C3 as stated fails on a document that is a plain scalar: the file is
    valid YAML, its content is not empty, and [ConfigBox] refuses the
    string. *)
Lemma read_yaml_scalar_document :
  ~ (forall (p : path) (w : world) (data : list byte) (content : pyval),
       resolve (w_fs w) p = Found (File data) ->
       sample_yaml_load data = Return content ->
       truthy content = true ->
       exists b w', read_yaml' p w = (Return b, w')).
Proof.
  intros H.
  destruct (H ["config.yaml"%string]
              (world_with ["config.yaml"%string] (bytes_of "hello"))
              (bytes_of "hello") (PyStr (of_string "hello")))
    as (b & w' & Hread); try (vm_compute; reflexivity).
  vm_compute in Hread. discriminate Hread.
Qed.

(** C4 at an empty file. *)
Lemma read_yaml_empty_or_null_witness :
  resolve (w_fs (world_with ["config.yaml"%string] []))
    ["config.yaml"%string] = Found (File []) /\
  sample_yaml_load [] = Return PyNone /\
  read_yaml' ["config.yaml"%string] (world_with ["config.yaml"%string] []) =
    (Raise (yaml_empty_error ["config.yaml"%string]),
     world_with ["config.yaml"%string] []) /\
  isinstance (yaml_empty_error ["config.yaml"%string]) ValueError = true /\
  forall b w',
    read_yaml' ["config.yaml"%string] (world_with ["config.yaml"%string] [])
    <> (Return b, w').
Proof.
  split; [vm_compute; reflexivity|]. split; [vm_compute; reflexivity|].
  apply (read_yaml_empty_or_null sample_yaml_load sample_box_from_iterable
           _ _ []);
    vm_compute; reflexivity.
Defined.

(** C5 at a successful [save_json]. *)
Lemma successful_call_log_witness :
  run' (SaveJson ["out.json"%string] sample_data) empty_world =
    (Return tt,
     (run' (SaveJson ["out.json"%string] sample_data) empty_world).2) /\
  exists records,
    w_log (run' (SaveJson ["out.json"%string] sample_data) empty_world).2 =
      w_log empty_world ++ records /\
    Forall2 info_about
      (logged_paths (SaveJson ["out.json"%string] sample_data)) records.
Proof.
  split; [vm_compute; reflexivity|].
  apply (successful_call_log sample_dir_size sample_yaml_load
           sample_box_from_iterable sample_float_repr sample_float_of_literal
           sample_joblib_dumps sample_joblib_loads sample_depth sample_depth
           sample_depth).
  vm_compute. reflexivity.
Defined.

(** C5 as stated fails for [get_size]: the call succeeds and the log is
    what it was. *)
Lemma get_size_logs_nothing :
  ~ (forall (c : call) (w w' : world),
       run' c w = (Return tt, w') ->
       exists record,
         w_log w' = w_log w ++ [record] /\
         Forall (fun p => info_about p record) (call_paths c)).
Proof.
  intros H.
  destruct (H (GetSize ["model.h5"%string])
              (world_with ["model.h5"%string] [x00])
              (world_with ["model.h5"%string] [x00]))
    as (record & Hlog & _); [vm_compute; reflexivity|].
  vm_compute in Hlog. discriminate Hlog.
Qed.

(** C6 at a path that names nothing in an empty file system. *)
Lemma missing_file_errors_witness :
  resolve (w_fs empty_world) ["absent"%string] = ENOENT /\
  read_yaml' ["absent"%string] empty_world =
    (Raise (Exn FileNotFoundError
              ("YAML file not found: " +:+ path_str ["absent"%string])),
     empty_world) /\
  get_size sample_dir_size ["absent"%string] empty_world =
    (Raise (Exn FileNotFoundError
              ("File not found: " +:+ path_str ["absent"%string])),
     empty_world) /\
  encodeImageIntoBase64 ["absent"%string] empty_world =
    (Raise (Exn FileNotFoundError
              ("Image file not found: " +:+ path_str ["absent"%string])),
     empty_world) /\
  load_json' ["absent"%string] empty_world =
    (Raise (Exn ValueError
              ("Error loading JSON file at " +:+ path_str ["absent"%string]
               +:+ ": " +:+ exn_str (enoent ["absent"%string]))),
     empty_world) /\
  load_bin sample_joblib_loads ["absent"%string] empty_world =
    (Raise (Exn ValueError
              ("Error loading binary file at " +:+ path_str ["absent"%string]
               +:+ ": " +:+ exn_str (enoent ["absent"%string]))),
     empty_world).
Proof.
  split; [vm_compute; reflexivity|].
  apply (missing_file_errors sample_dir_size sample_yaml_load
           sample_box_from_iterable sample_float_of_literal
           sample_joblib_loads sample_depth).
  vm_compute. reflexivity.
Defined.

(** C6 as stated fails for [load_json]: on a missing file the exception
    it raises is a [ValueError], which is not a [FileNotFoundError]. *)
Lemma load_json_missing_file_class :
  ~ (forall (p : path) (w : world),
       resolve (w_fs w) p = ENOENT ->
       exists e w',
         load_json' p w = (Raise e, w') /\
         isinstance e FileNotFoundError = true).
Proof.
  intros H.
  destruct (H ["absent"%string] empty_world)
    as (e & w' & Hload & Hclass); [vm_compute; reflexivity|].
  vm_compute in Hload. injection Hload as <- _.
  vm_compute in Hclass. discriminate Hclass.
Qed.

(** C7 at a file of 3000 opening brackets: not a JSON document, and
    nested deeper than the sample depth. *)
Lemma load_json_ValueError_or_RecursionError_witness :
  (resolve (w_fs (world_with ["deep.json"%string] deep_text))
     ["deep.json"%string] = ENOENT \/
   exists data,
     resolve (w_fs (world_with ["deep.json"%string] deep_text))
       ["deep.json"%string] = Found (File data) /\
     valid_json sample_float_of_literal sample_depth data = false) /\
  exists e,
    load_json' ["deep.json"%string] (world_with ["deep.json"%string] deep_text)
    = (Raise e, world_with ["deep.json"%string] deep_text) /\
    (isinstance e ValueError = true \/
     (e = recursion_error /\
      exists data,
        resolve (w_fs (world_with ["deep.json"%string] deep_text))
          ["deep.json"%string] = Found (File data) /\
        (sample_depth < text_brackets data)%nat)).
Proof.
  assert (Hpre :
    resolve (w_fs (world_with ["deep.json"%string] deep_text))
      ["deep.json"%string] = ENOENT \/
    exists data,
      resolve (w_fs (world_with ["deep.json"%string] deep_text))
        ["deep.json"%string] = Found (File data) /\
      valid_json sample_float_of_literal sample_depth data = false).
  { right. exists deep_text. split; vm_compute; reflexivity. }
  split; [exact Hpre|].
  exact (load_json_ValueError_or_RecursionError sample_box_from_iterable
           sample_float_of_literal sample_depth _ _ Hpre).
Defined.

(** C7 as stated fails on that file: its content is not a JSON document,
    and what [load_json] raises is the [RecursionError] of the decoder,
    which is not a [ValueError]. *)
Lemma load_json_deep_nesting :
  ~ (forall (p : path) (w : world),
       resolve (w_fs w) p = ENOENT \/
       (exists data,
          resolve (w_fs w) p = Found (File data) /\
          valid_json sample_float_of_literal sample_depth data = false) ->
       exists e,
         load_json' p w = (Raise e, w) /\ isinstance e ValueError = true).
Proof.
  intros H.
  destruct (H ["deep.json"%string]
              (world_with ["deep.json"%string] deep_text))
    as (e & Hload & Hclass).
  - right. exists deep_text. split; vm_compute; reflexivity.
  - vm_compute in Hload. injection Hload as <-.
    vm_compute in Hclass. discriminate Hclass.
Qed.

(** C8 at two directories below a parent that does not exist yet. *)
Lemma create_directories_idempotent_witness :
  create_directories' sample_dirs true empty_world =
    (Return tt, (create_directories' sample_dirs true empty_world).2) /\
  exists w2,
    create_directories' sample_dirs true
      (create_directories' sample_dirs true empty_world).2 = (Return tt, w2) /\
    w_fs w2 = w_fs (create_directories' sample_dirs true empty_world).2 /\
    Forall (fun p => isdir (w_fs w2) p = true) sample_dirs.
Proof.
  split; [vm_compute; reflexivity|].
  apply (create_directories_idempotent sample_depth sample_dirs true
           empty_world).
  vm_compute. reflexivity.
Defined.

(** C9 at files of 2048 bytes and of one byte. *)
Lemma get_size_2048_and_1_witness :
  (resolve (w_fs (world_with ["model.h5"%string] (repeat x00 2048)))
     ["model.h5"%string] = Found (File (repeat x00 2048)) /\
   length (repeat x00 2048) = 2048 /\
   get_size sample_dir_size ["model.h5"%string]
     (world_with ["model.h5"%string] (repeat x00 2048)) =
     (Return "~ 2 KB", world_with ["model.h5"%string] (repeat x00 2048))) /\
  (resolve (w_fs (world_with ["model.h5"%string] [x00]))
     ["model.h5"%string] = Found (File [x00]) /\
   length [x00] = 1 /\
   get_size sample_dir_size ["model.h5"%string]
     (world_with ["model.h5"%string] [x00]) =
     (Return "~ 0 KB", world_with ["model.h5"%string] [x00])).
Proof.
  split.
  - split; [vm_compute; reflexivity|]. split; [vm_compute; reflexivity|].
    apply (proj1 (get_size_2048_and_1 sample_dir_size ["model.h5"%string]
                    (world_with ["model.h5"%string] (repeat x00 2048))
                    (repeat x00 2048) ltac:(vm_compute; reflexivity)));
      vm_compute; reflexivity.
  - split; [vm_compute; reflexivity|]. split; [vm_compute; reflexivity|].
    apply (proj2 (get_size_2048_and_1 sample_dir_size ["model.h5"%string]
                    (world_with ["model.h5"%string] [x00])
                    [x00] ltac:(vm_compute; reflexivity)));
      vm_compute; reflexivity.
Defined.

(** C10 at a file that holds the scalar [0]. *)
Lemma read_yaml_falsy_content_witness :
  resolve (w_fs (world_with ["config.yaml"%string] (bytes_of "0")))
    ["config.yaml"%string] = Found (File (bytes_of "0")) /\
  sample_yaml_load (bytes_of "0") = Return (PyInt 0) /\
  truthy (PyInt 0) = false /\
  read_yaml' ["config.yaml"%string]
    (world_with ["config.yaml"%string] (bytes_of "0")) =
    (Raise (yaml_empty_error ["config.yaml"%string]),
     world_with ["config.yaml"%string] (bytes_of "0")) /\
  exn_type (yaml_empty_error ["config.yaml"%string]) = ValueError /\
  Forall (fun v => truthy v = false)
    [PyInt 0; PyBool false; PyStr []; PyList []; PyDict []].
Proof.
  split; [vm_compute; reflexivity|]. split; [vm_compute; reflexivity|].
  split; [vm_compute; reflexivity|].
  apply (read_yaml_falsy_content sample_yaml_load sample_box_from_iterable
           _ _ (bytes_of "0") (PyInt 0));
    vm_compute; reflexivity.
Defined.

(** ** Examples of the further properties *)

Abbreviation get_size' := (get_size sample_dir_size).
Abbreviation save_bin' := (save_bin sample_joblib_dumps).
Abbreviation load_bin' := (load_bin sample_joblib_loads).

(** X1 at a file of 1536 bytes, halfway between one and two kilobytes. *)
Lemma get_size_rounds_half_to_even_witness :
  resolve (w_fs (world_with ["model.h5"%string] (repeat x00 1536)))
    ["model.h5"%string] = Found (File (repeat x00 1536)) /\
  (Z.of_nat (length (repeat x00 1536)) < 2 ^ 53)%Z /\
  exists k : Z,
    get_size' ["model.h5"%string]
      (world_with ["model.h5"%string] (repeat x00 1536)) =
      (Return ("~ " +:+ pretty k +:+ " KB")%string,
       world_with ["model.h5"%string] (repeat x00 1536)) /\
    (Z.abs (Z.of_nat (length (repeat x00 1536)) - 1024 * k) <= 512)%Z /\
    (Z.abs (Z.of_nat (length (repeat x00 1536)) - 1024 * k) = 512%Z ->
     Z.even k = true).
Proof.
  split; [vm_compute; reflexivity|]. split; [vm_compute; reflexivity|].
  apply (get_size_rounds_half_to_even sample_dir_size _ _ (repeat x00 1536));
    vm_compute; reflexivity.
Defined.

(** X2 at a directory. *)
Lemma directory_argument_witness :
  resolve (w_fs (world_with_dir ["artifacts"%string])) ["artifacts"%string]
    = Found Dir /\
  load_json' ["artifacts"%string] (world_with_dir ["artifacts"%string]) =
    (Raise (eisdir ["artifacts"%string]),
     world_with_dir ["artifacts"%string]).
Proof.
  split; [vm_compute; reflexivity|].
  apply (directory_argument sample_dir_size sample_yaml_load
           sample_box_from_iterable sample_float_of_literal
           sample_joblib_loads sample_depth).
  vm_compute. reflexivity.
Defined.

(** X3 at a path below a regular file. *)
Lemma path_through_a_file_witness :
  resolve (w_fs (world_with ["artifacts"%string] []))
    ["artifacts"; "data"]%string = ENOTDIR /\
  get_size' ["artifacts"; "data"]%string (world_with ["artifacts"%string] [])
  = (Raise (enotdir ["artifacts"; "data"]%string),
     world_with ["artifacts"%string] []).
Proof.
  split; [vm_compute; reflexivity|].
  apply (path_through_a_file sample_dir_size sample_yaml_load
           sample_box_from_iterable sample_float_of_literal
           sample_joblib_loads sample_depth).
  vm_compute. reflexivity.
Defined.

(** X5 at a file beside the one that is written. *)
Lemma writers_touch_only_their_path_witness :
  ["other.txt"%string] <> ["out.json"%string] /\
  w_fs (save_json' ["out.json"%string] sample_data
          (world_with ["other.txt"%string] (bytes_of "keep"))).2
    !! ["other.txt"%string] =
  w_fs (world_with ["other.txt"%string] (bytes_of "keep"))
    !! ["other.txt"%string].
Proof.
  split; [discriminate|].
  apply (writers_touch_only_their_path sample_float_repr sample_joblib_dumps
           sample_depth ["out.json"%string] ["other.txt"%string] sample_data PyNone
           (of_string "aGVsbG8=")).
  discriminate.
Defined.


(** X9 at a text of one character. *)
Lemma decodeImage_invalid_base64_witness :
  b64decode (of_string "a") =
    Raise (binascii_error
             "Invalid base64-encoded string: number of data characters (1) cannot be 1 more than a multiple of 4") /\
  decodeImage (of_string "a") ["img.png"%string] empty_world =
    (Raise (Exn ValueError
              ("Error decoding image: " +:+
               "Invalid base64-encoded string: number of data characters (1) cannot be 1 more than a multiple of 4")),
     empty_world).
Proof.
  split; [vm_compute; reflexivity|].
  apply (decodeImage_invalid_base64 (of_string "a") ["img.png"%string]
           empty_world
           (binascii_error
              "Invalid base64-encoded string: number of data characters (1) cannot be 1 more than a multiple of 4")).
  vm_compute. reflexivity.
Defined.

(** X10 at the base64 text of ["hello"], written over an older file. *)
Lemma decodeImage_writes_decoded_bytes_witness :
  b64decode (of_string "aGVsbG8=") = Return (bytes_of "hello") /\
  writable (w_fs (world_with ["img.png"%string] (bytes_of "old")))
    ["img.png"%string] = true /\
  decodeImage (of_string "aGVsbG8=") ["img.png"%string]
    (world_with ["img.png"%string] (bytes_of "old")) =
    (Return tt,
     World (<[["img.png"%string] := File (bytes_of "hello")]>
              (w_fs (world_with ["img.png"%string] (bytes_of "old"))))
       (w_log (world_with ["img.png"%string] (bytes_of "old")) ++
        [LogRecord INFO
           ("Image decoded and saved at: " +:+ path_str ["img.png"%string])]))
  /\
  resolve (<[["img.png"%string] := File (bytes_of "hello")]>
             (w_fs (world_with ["img.png"%string] (bytes_of "old"))))
    ["img.png"%string] = Found (File (bytes_of "hello")).
Proof.
  split; [vm_compute; reflexivity|]. split; [vm_compute; reflexivity|].
  apply decodeImage_writes_decoded_bytes; vm_compute; reflexivity.
Defined.

(** X11 at a file of five bytes. *)
Lemma encodeImageIntoBase64_decodeImage_copy_witness :
  resolve (w_fs (world_with ["a.png"%string] (bytes_of "hello")))
    ["a.png"%string] = Found (File (bytes_of "hello")) /\
  writable (w_fs (world_with ["a.png"%string] (bytes_of "hello")))
    ["b.png"%string] = true /\
  exists s w',
    encodeImageIntoBase64 ["a.png"%string]
      (world_with ["a.png"%string] (bytes_of "hello")) =
      (Return s, world_with ["a.png"%string] (bytes_of "hello")) /\
    decodeImage s ["b.png"%string]
      (world_with ["a.png"%string] (bytes_of "hello")) = (Return tt, w') /\
    resolve (w_fs w') ["b.png"%string] = Found (File (bytes_of "hello")).
Proof.
  split; [vm_compute; reflexivity|]. split; [vm_compute; reflexivity|].
  apply encodeImageIntoBase64_decodeImage_copy; vm_compute; reflexivity.
Defined.

(** X12 at a text with a space in it. *)
Lemma decodeImage_skips_other_characters_witness :
  Forall (fun c => 0 <= c < 128)%Z (of_string "aGVs bG8=") /\
  decodeImage (of_string "aGVs bG8=") ["img.png"%string] empty_world =
  decodeImage (List.filter is_base64_char (of_string "aGVs bG8="))
    ["img.png"%string] empty_world.
Proof.
  assert (H : Forall (fun c => 0 <= c < 128)%Z (of_string "aGVs bG8=")).
  { let s := eval vm_compute in (of_string "aGVs bG8=") in
    change (of_string "aGVs bG8=") with s.
    repeat first [apply List.Forall_nil | apply List.Forall_cons; [lia|]]. }
  split; [exact H|].
  exact (decodeImage_skips_other_characters (of_string "aGVs bG8=")
           ["img.png"%string] empty_world H).
Defined.

(** X13 at a file of five bytes: eight characters. *)
Lemma encodeImageIntoBase64_text_witness :
  resolve (w_fs (world_with ["a.png"%string] (bytes_of "hello")))
    ["a.png"%string] = Found (File (bytes_of "hello")) /\
  exists s,
    encodeImageIntoBase64 ["a.png"%string]
      (world_with ["a.png"%string] (bytes_of "hello")) =
      (Return s, world_with ["a.png"%string] (bytes_of "hello")) /\
    length s = (4 * ((length (bytes_of "hello") + 2) / 3))%nat /\
    Forall (fun c => is_base64_char c = true) s.
Proof.
  split; [vm_compute; reflexivity|].
  apply encodeImageIntoBase64_text. vm_compute. reflexivity.
Defined.

(** X15 at a document the sample parser rejects. *)
Lemma read_yaml_parse_error_witness :
  resolve (w_fs (world_with ["config.yaml"%string] (bytes_of "a: b: c")))
    ["config.yaml"%string] = Found (File (bytes_of "a: b: c")) /\
  sample_yaml_load (bytes_of "a: b: c") =
    Raise (Exn YAMLError "could not parse the document") /\
  isinstance (Exn YAMLError "could not parse the document") YAMLError
    = true /\
  read_yaml' ["config.yaml"%string]
    (world_with ["config.yaml"%string] (bytes_of "a: b: c")) =
    (Raise (Exn ValueError
              ("Error parsing YAML file " +:+ path_str ["config.yaml"%string]
               +:+ ": " +:+ "could not parse the document")),
     world_with ["config.yaml"%string] (bytes_of "a: b: c")).
Proof.
  split; [vm_compute; reflexivity|]. split; [vm_compute; reflexivity|].
  split; [vm_compute; reflexivity|].
  apply (read_yaml_parse_error sample_yaml_load sample_box_from_iterable
           _ _ (bytes_of "a: b: c")
           (Exn YAMLError "could not parse the document"));
    vm_compute; reflexivity.
Defined.

(** X16 at a document that is a plain string. *)
Lemma read_yaml_logs_before_boxing_witness :
  resolve (w_fs (world_with ["config.yaml"%string] (bytes_of "hello")))
    ["config.yaml"%string] = Found (File (bytes_of "hello")) /\
  sample_yaml_load (bytes_of "hello") = Return (PyStr (of_string "hello")) /\
  truthy (PyStr (of_string "hello")) = true /\
  is_container (PyStr (of_string "hello")) = false /\
  exists msg,
    read_yaml' ["config.yaml"%string]
      (world_with ["config.yaml"%string] (bytes_of "hello")) =
      (Raise (Exn BoxValueError msg),
       World (w_fs (world_with ["config.yaml"%string] (bytes_of "hello")))
         (w_log (world_with ["config.yaml"%string] (bytes_of "hello")) ++
          [LogRecord INFO
             ("YAML file: " +:+ path_str ["config.yaml"%string]
              +:+ " loaded successfully")])).
Proof.
  split; [vm_compute; reflexivity|]. split; [vm_compute; reflexivity|].
  split; [vm_compute; reflexivity|]. split; [reflexivity|].
  apply (read_yaml_logs_before_boxing sample_yaml_load
           sample_box_from_iterable _ _ (bytes_of "hello")
           (PyStr (of_string "hello")));
    vm_compute; reflexivity.
Defined.

(** X17 at a file that holds the number [5]. *)
Lemma load_json_not_a_mapping_witness :
  resolve (w_fs (world_with ["out.json"%string] (bytes_of "5")))
    ["out.json"%string] = Found (File (bytes_of "5")) /\
  utf8_decode (bytes_of "5") = Return (of_string "5") /\
  json_loads sample_float_of_literal sample_depth (of_string "5")
    = Return (PyInt 5) /\
  is_container (PyInt 5) = false /\
  exists msg,
    load_json' ["out.json"%string]
      (world_with ["out.json"%string] (bytes_of "5")) =
      (Raise (Exn BoxValueError msg),
       World (w_fs (world_with ["out.json"%string] (bytes_of "5")))
         (w_log (world_with ["out.json"%string] (bytes_of "5")) ++
          [LogRecord INFO
             ("JSON file loaded successfully from: "
              +:+ path_str ["out.json"%string])])).
Proof.
  split; [vm_compute; reflexivity|]. split; [vm_compute; reflexivity|].
  split; [vm_compute; reflexivity|]. split; [reflexivity|].
  apply (load_json_not_a_mapping sample_box_from_iterable
           sample_float_of_literal sample_depth _ _ (bytes_of "5")
           (of_string "5")
           (PyInt 5));
    vm_compute; reflexivity.
Defined.

(** X18 at a [save_json] into a directory that does not exist. *)
Lemma failed_call_leaves_log_witness :
  logs_as_last_step (SaveJson ["missing"; "out.json"]%string sample_data)
    = true /\
  run' (SaveJson ["missing"; "out.json"]%string sample_data) empty_world =
    (Raise (Exn ValueError
              ("Error saving JSON file at "
               +:+ path_str ["missing"; "out.json"]%string +:+ ": "
               +:+ exn_str (enoent ["missing"; "out.json"]%string))),
     empty_world) /\
  w_log empty_world = w_log empty_world.
Proof.
  split; [reflexivity|]. split; [vm_compute; reflexivity|].
  apply (failed_call_leaves_log sample_dir_size sample_yaml_load
           sample_box_from_iterable sample_float_repr sample_float_of_literal
           sample_joblib_dumps sample_joblib_loads sample_depth sample_depth
           sample_depth
           (SaveJson ["missing"; "out.json"]%string sample_data)
           empty_world empty_world
           (Exn ValueError
              ("Error saving JSON file at "
               +:+ path_str ["missing"; "out.json"]%string +:+ ": "
               +:+ exn_str (enoent ["missing"; "out.json"]%string))));
    vm_compute; reflexivity.
Defined.

(** X19 at [load_bin] on a file: the [TypeError] of the wrapper's
    check. *)
Lemma raised_exception_classes_witness :
  run' (LoadBin ["model.bin"%string])
    (world_with ["model.bin"%string] [x80; x04]) =
    (Raise any_check_error,
     (run' (LoadBin ["model.bin"%string])
        (world_with ["model.bin"%string] [x80; x04])).2) /\
  (exn_type any_check_error = ValueError \/
   any_check_error = any_check_error).
Proof.
  split; [vm_compute; reflexivity|].
  apply (raised_exception_classes sample_dir_size sample_yaml_load
           sample_box_from_iterable sample_float_repr sample_float_of_literal
           sample_joblib_dumps sample_joblib_loads sample_depth sample_depth
           sample_depth
           (LoadBin ["model.bin"%string])
           (world_with ["model.bin"%string] [x80; x04])
           (run' (LoadBin ["model.bin"%string])
              (world_with ["model.bin"%string] [x80; x04])).2).
  vm_compute. reflexivity.
Defined.

(** X20 at a mapping that holds lists nested sixty deep: the
    [RecursionError] comes out of [save_json] as it is. *)
Lemma save_json_raises_ValueError_or_RecursionError_witness :
  save_json' ["out.json"%string] sample_deep_data empty_world =
    (Raise recursion_error,
     (save_json' ["out.json"%string] sample_deep_data empty_world).2) /\
  (isinstance recursion_error ValueError = true \/
   (recursion_error = recursion_error /\
    (sample_depth < nesting_depth (PyDict sample_deep_data))%nat)).
Proof.
  split; [vm_compute; reflexivity|].
  apply (save_json_raises_ValueError_or_RecursionError sample_float_repr
           sample_depth ["out.json"%string]
           sample_deep_data empty_world
           (save_json' ["out.json"%string] sample_deep_data empty_world).2).
  vm_compute. reflexivity.
Defined.

(** X21 at a mapping with a key that cannot be written, written over an
    older file: the brace, the line break and the indentation are what is
    left. *)
Lemma save_json_failure_leaves_partial_file_witness :
  writable (w_fs (world_with ["out.json"%string] (bytes_of "old")))
    ["out.json"%string] = true /\
  iterencode sample_float_repr sample_depth (PyDict sample_bad_data) 0 =
    ([123; 10; 32; 32; 32; 32]%Z,
     Some (Exn TypeError
             "keys must be str, int, float, bool or None, not tuple")) /\
  utf8_encode [123; 10; 32; 32; 32; 32]%Z =
    Return [x7b; x0a; x20; x20; x20; x20] /\
  save_json' ["out.json"%string] sample_bad_data
    (world_with ["out.json"%string] (bytes_of "old")) =
    (Raise (Exn ValueError
              ("Error saving JSON file at " +:+ path_str ["out.json"%string]
               +:+ ": "
               +:+ "keys must be str, int, float, bool or None, not tuple")),
     World (<[["out.json"%string] := File [x7b; x0a; x20; x20; x20; x20]]>
              (w_fs (world_with ["out.json"%string] (bytes_of "old"))))
       (w_log (world_with ["out.json"%string] (bytes_of "old")))).
Proof.
  split; [vm_compute; reflexivity|]. split; [vm_compute; reflexivity|].
  split; [vm_compute; reflexivity|].
  apply (save_json_failure_leaves_partial_file sample_float_repr
           sample_depth ["out.json"%string] sample_bad_data
           (world_with ["out.json"%string] (bytes_of "old"))
           [123; 10; 32; 32; 32; 32]%Z
           (Exn TypeError
              "keys must be str, int, float, bool or None, not tuple")
           [x7b; x0a; x20; x20; x20; x20]);
    vm_compute; reflexivity.
Defined.

(** X22 at [{1: (2, 3), True: None}], which comes back as
    [{"1": [2, 3], "true": None}]. *)
Lemma save_json_load_json_image_witness :
  json_coercible (PyDict sample_mixed_data) = true /\
  (nesting_depth (PyDict sample_mixed_data) <= sample_depth)%nat /\
  writable (w_fs empty_world) ["out.json"%string] = true /\
  exists w1 w2,
    save_json' ["out.json"%string] sample_mixed_data empty_world
      = (Return tt, w1) /\
    load_json' ["out.json"%string] w1 =
      (Return (Box [(PyStr (of_string "1"), PyList [PyInt 2; PyInt 3]);
                    (PyStr (of_string "true"), PyNone)]),
       w2).
Proof.
  split; [vm_compute; reflexivity|]. split; [vm_compute; lia|].
  split; [vm_compute; reflexivity|].
  apply (save_json_load_json_image sample_box_from_iterable sample_float_repr
           sample_float_of_literal sample_depth sample_depth
           ["out.json"%string] sample_mixed_data empty_world);
    try (vm_compute; reflexivity); vm_compute; lia.
Defined.

(** X23 at a path in a directory that does not exist. *)
Lemma writers_unwritable_path_witness :
  writable (w_fs empty_world) ["missing"; "out.json"]%string = false /\
  exists cause,
    isinstance cause OSError = true /\
    (forall data,
       save_json' ["missing"; "out.json"]%string data empty_world =
         (Raise (Exn ValueError
                   ("Error saving JSON file at "
                    +:+ path_str ["missing"; "out.json"]%string +:+ ": "
                    +:+ exn_str cause)), empty_world)) /\
    (forall imgstring imgdata,
       b64decode imgstring = Return imgdata ->
       decodeImage imgstring ["missing"; "out.json"]%string empty_world =
         (Raise (Exn ValueError
                   ("Error decoding image: " +:+ exn_str cause)),
          empty_world)).
Proof.
  split; [vm_compute; reflexivity|].
  apply (writers_unwritable_path sample_float_repr sample_depth).
  vm_compute. reflexivity.
Defined.
